(** * Media assembly pipeline of the adoption-video generator

    A shallow embedding of the duration and synchronisation logic of
    [backend/edit.py], [backend/subtitles.py], [backend/audio.py] and
    [backend/generate.py], with the properties of the written specification
    stated and proved over it.

    Conventions of the embedding:
    - a duration (a Python [float] of seconds) is an exact rational [Q];
      rounding of binary floating point is outside the model, so equalities
      of durations are stated with [==];
    - a Python [str] is a list of code points ([N]); a [Path] is the list of
      its parts;
    - what MoviePy, the file system, the speech service and the language
      model answer is read from a [World] record of oracles, one field per
      external call; files written during a run update the file-system part
      of the state;
    - every external call that a property talks about leaves an [Event] in
      a trace. *)

From Stdlib Require Import QArith Qround Qminmax Qpower ZArith NArith List String Ascii Bool Lia Lqa.
Import ListNotations.

Local Open Scope Q_scope.

(** ** Python primitives *)

Module Py.

(** A [pathlib.Path], as the list of its parts. *)
Definition Path := list string.

Definition path_join (p : Path) (name : string) : Path := p ++ [name].
Definition path_parent (p : Path) : Path := removelast p.
Definition path_name (p : Path) : string := last p EmptyString.
Definition path_str (p : Path) : string := String.concat "/" p.

Definition path_eqb (p q : Path) : bool :=
  if list_eq_dec string_dec p q then true else false.

(** Order of [Path] values ([candidates.sort()]): part by part. *)
Fixpoint path_ltb (p q : Path) : bool :=
  match p, q with
  | _, [] => false
  | [], _ :: _ => true
  | a :: p', b :: q' =>
      match String.compare a b with
      | Lt => true
      | Gt => false
      | Eq => path_ltb p' q'
      end
  end.

(** [str.lower()] on the ASCII letters. *)
Definition lower_ascii (c : ascii) : ascii :=
  let n := nat_of_ascii c in
  if (Nat.leb 65 n && Nat.leb n 90)%bool then ascii_of_nat (n + 32) else c.

Fixpoint lower (s : string) : string :=
  match s with
  | EmptyString => EmptyString
  | String c r => String (lower_ascii c) (lower r)
  end.

(** [Path.suffix]: the text of the name from its last dot on, when that dot
    is neither the first nor the last character of the name. *)
Fixpoint split_at_dot (rev_name : list ascii) (ext_rev : list ascii)
  : option (list ascii * list ascii) :=
  match rev_name with
  | [] => None
  | c :: r =>
      if Ascii.eqb c "."%char then Some (ext_rev, r)
      else split_at_dot r (ext_rev ++ [c])
  end.

Definition path_suffix (p : Path) : string :=
  match split_at_dot (rev (list_ascii_of_string (path_name p))) [] with
  | Some (c :: ext_rev, _ :: _) =>
      String "."%char (string_of_list_ascii (rev (c :: ext_rev)))
  | _ => EmptyString
  end.

(** [needle in hay] for strings. *)
Fixpoint contains (needle hay : string) : bool :=
  if String.prefix needle hay then true
  else match hay with
       | EmptyString => false
       | String _ rest => contains needle rest
       end.

(** A Python [float] is an IEEE 754 binary64 number. The model keeps the
    exact value of a float, a rational, and rounds the exact result of an
    arithmetic operation to the nearest number with a 53-bit mantissa, ties
    to the even mantissa, as the hardware does. The exponent range is not
    modelled: the results are those of the code as long as no operation
    overflows or underflows, that is for magnitudes between [2^-1022] and
    [2^1024], which durations counted in seconds never leave. *)

(** The nearest integer, ties to even. *)
Definition round_half_even (x : Q) : Z :=
  let f := Qfloor x in
  match Qcompare (x - inject_Z f) (1 # 2) with
  | Lt => f
  | Gt => (f + 1)%Z
  | Eq => if Z.even f then f else (f + 1)%Z
  end.

(** The binary exponent of [x > 0]: the [e] with [2^e <= x < 2^(e+1)]. *)
Definition exponent (x : Q) : Z :=
  let l := (Z.log2 (Qnum x) - Z.log2 (Zpos (Qden x)))%Z in
  if Qle_bool (2 ^ l) x then l else (l - 1)%Z.

(** The float nearest to [x > 0]: a mantissa of 53 bits times a power of 2. *)
Definition fl_pos (x : Q) : Q :=
  let e := (exponent x - 52)%Z in
  inject_Z (round_half_even (x / 2 ^ e)) * 2 ^ e.

(** The float nearest to [x]. *)
Definition fl (x : Q) : Q :=
  let x := Qred x in
  match Qnum x with
  | Z0 => 0
  | Zpos _ => Qred (fl_pos x)
  | Zneg _ => Qred (- fl_pos (- x))
  end.

Arguments round_half_even x : simpl never.
Arguments exponent x : simpl never.
Arguments fl_pos x : simpl never.
Arguments fl x : simpl never.

(** [x + y], [x - y], [x * y] and [x / y] on floats. *)
Definition fadd (x y : Q) : Q := fl (x + y).
Definition fsub (x y : Q) : Q := fl (x - y).
Definition fmul (x y : Q) : Q := fl (x * y).
Definition fdiv (x y : Q) : Q := fl (x / y).

(** The builtin [sum(xs)] of floats: additions from the left, from [0]. *)
Definition fsum (xs : list Q) : Q := fold_left fadd xs 0.

(** The largest relative error of one rounding: [2^-53]. *)
Definition unit_roundoff : Q := 1 # 9007199254740992.

(** [x <= y] and [x < y] on floats, as booleans. *)
Definition leb (x y : Q) : bool := Qle_bool x y.
Definition ltb (x y : Q) : bool := negb (Qle_bool y x).

(** [min(a, b)] and [max(a, b)]: Python returns the first argument unless
    the second is strictly smaller (resp. strictly larger). *)
Definition min (a b : Q) : Q := if ltb b a then b else a.
Definition max (a b : Q) : Q := if ltb a b then b else a.

(** [max(xs)] of a non-empty list keeps the first maximal item. *)
Definition max_list (x : Q) (xs : list Q) : Q := fold_left max xs x.

(** [sum(xs)]: a left fold that starts from [0]. *)
Definition sum (xs : list Q) : Q := fold_left Qplus xs 0.

(** Truthiness of a float: [bool(x)] is [x != 0]. *)
Definition truthy (x : Q) : bool := negb (Qeq_bool x 0).

(** [float(x or 0.0)] for a numeric duration attribute. *)
Definition or_zero (x : Q) : Q := if truthy x then x else 0.

(** [a // b] on floats followed by [int(...)]. *)
Definition floordiv (a b : Q) : Z := Qfloor (a / b).

(** Exceptions, with their [repr]. [MemoryError] is kept apart because the
    orchestrator catches it before the generic handler. *)
Inductive Exn : Type :=
| MemoryError (repr : string)
| Exception (repr : string).

Definition repr (e : Exn) : string :=
  match e with MemoryError r => r | Exception r => r end.

Inductive Result (A : Type) : Type :=
| Ok (a : A)
| Raise (e : Exn).
Arguments Ok {A} a.
Arguments Raise {A} e.

(** A [str] whose characters matter one by one: its code points. *)
Definition str := list N.

(** [str.isspace] of one character, which is also what [\s] matches. *)
Definition isspace (c : N) : bool :=
  ((9 <=? c) && (c <=? 13) || (28 <=? c) && (c <=? 32)
   || (c =? 133) || (c =? 160) || (c =? 5760)
   || (8192 <=? c) && (c <=? 8202)
   || (c =? 8232) || (c =? 8233) || (c =? 8239) || (c =? 8287)
   || (c =? 12288))%N%bool.

Fixpoint lstrip (s : str) : str :=
  match s with
  | [] => []
  | c :: r => if isspace c then lstrip r else s
  end.

Definition rstrip (s : str) : str := rev (lstrip (rev s)).

(** [s.strip()] *)
Definition strip (s : str) : str := rstrip (lstrip s).

(** [s.split()]: the maximal runs of characters that are not whitespace. *)
Fixpoint split_go (s : str) (word : option str) : list str :=
  match s with
  | [] => match word with Some w => [w] | None => [] end
  | c :: r =>
      if isspace c then
        match word with
        | Some w => w :: split_go r None
        | None => split_go r None
        end
      else split_go r (Some (match word with Some w => w ++ [c] | None => [c] end))
  end.

Definition split (s : str) : list str := split_go s None.

(** The code points of an ASCII literal. *)
Definition of_string (s : string) : str :=
  map N_of_ascii (list_ascii_of_string s).

End Py.

Import Py(Path, Exn, Result, Ok, Raise, str).

(** ** The part of MoviePy the pipeline relies on

    Only what the pipeline reads back from a clip is kept: its duration, its
    start and end on the timeline, the audio attached to it and the overlays
    composited on it. *)

Module Moviepy.

Inductive AudioClip : Type :=
| AudioFileClip (path : Path) (duration : Q)
| Looped (c : AudioClip) (copies : nat)       (* concatenate_audioclips([c] * copies) *)
| AudioSubclip (c : AudioClip) (t_start t_end : Q)
| VolumeX (c : AudioClip) (factor : Q)
| AudioFadeIn (c : AudioClip) (d : Q)
| AudioFadeOut (c : AudioClip) (d : Q).

Fixpoint audio_duration (c : AudioClip) : Q :=
  match c with
  | AudioFileClip _ d => d
  | Looped c n => Py.sum (repeat (audio_duration c) n)
  | AudioSubclip _ t_start t_end => t_end - t_start
  | VolumeX c _ => audio_duration c
  | AudioFadeIn c _ => audio_duration c
  | AudioFadeOut c _ => audio_duration c
  end.

(** [clip.subclip(t_start, t_end)] with [t_start >= 0]: a start beyond the
    clip is a [ValueError]; a negative end counts from the end of the clip;
    the new duration is [t_end - t_start]. Returns the bounds it keeps. *)
Definition subclip_bounds (duration t_start t_end : Q) : Result (Q * Q) :=
  if Py.ltb duration t_start then
    Raise (Py.Exception "ValueError('t_start should be smaller than the clip duration')")
  else if Py.ltb t_end 0 then Ok (t_start, duration + t_end)
  else Ok (t_start, t_end).

Definition audio_subclip (c : AudioClip) (t_start t_end : Q) : Result AudioClip :=
  match subclip_bounds (audio_duration c) t_start t_end with
  | Ok (s, e) => Ok (AudioSubclip c s e)
  | Raise e => Raise e
  end.

(** [concatenate_audioclips([c] * copies)]: no clip to take the channel
    count from is a [ValueError]. *)
Definition concatenate_copies (c : AudioClip) (copies : nat) : Result AudioClip :=
  match copies with
  | O => Raise (Py.Exception "ValueError('max() arg is an empty sequence')")
  | S _ => Ok (Looped c copies)
  end.

(** [CompositeAudioClip(clips)]: every track starts at 0, the composite
    lasts as long as its longest track until [set_duration] says otherwise. *)
Record CompositeAudioClip : Type := {
  tracks : list AudioClip;
  composite_duration : Q
}.

Definition composite_audio (clips : list AudioClip) : Result CompositeAudioClip :=
  match clips with
  | [] => Raise (Py.Exception "ValueError('max() arg is an empty sequence')")
  | c :: cs =>
      Ok {| tracks := clips;
            composite_duration :=
              Py.max_list (audio_duration c) (map audio_duration cs) |}
  end.

Definition set_composite_duration (c : CompositeAudioClip) (t : Q) : CompositeAudioClip :=
  {| tracks := tracks c; composite_duration := t |}.

(** A video clip: the files it plays, in order, its duration, the size it
    was resized to and the audio track attached to it. *)
Record VideoClip : Type := {
  v_sources : list Path;
  v_duration : Q;
  v_size : option (Z * Z);
  v_audio : option AudioClip
}.

(** [VideoFileClip(path, audio=False)] of a file whose duration is [d]. *)
Definition video_file_clip (path : Path) (d : Q) : VideoClip :=
  {| v_sources := [path]; v_duration := d; v_size := None; v_audio := None |}.

Definition video_subclip (v : VideoClip) (t_start t_end : Q) : Result VideoClip :=
  match subclip_bounds (v_duration v) t_start t_end with
  | Ok (s, e) =>
      Ok {| v_sources := v_sources v; v_duration := e - s;
            v_size := v_size v; v_audio := v_audio v |}
  | Raise e => Raise e
  end.

Definition resize (v : VideoClip) (size : Z * Z) : VideoClip :=
  {| v_sources := v_sources v; v_duration := v_duration v;
     v_size := Some size; v_audio := v_audio v |}.

Definition set_audio (v : VideoClip) (a : AudioClip) : VideoClip :=
  {| v_sources := v_sources v; v_duration := v_duration v;
     v_size := v_size v; v_audio := Some a |}.

(** [concatenate_videoclips(clips, method="chain")]: the clips play one
    after the other; the duration is the last cumulative sum. *)
Definition concatenate_videoclips (clips : list VideoClip) : VideoClip :=
  {| v_sources := List.concat (map v_sources clips);
     v_duration := Py.sum (map v_duration clips);
     v_size := match clips with c :: _ => v_size c | [] => None end;
     v_audio := None |}.

(** An [ImageClip] placed on the timeline. *)
Record ImageClip : Type := {
  i_text : str;
  i_start : Q;
  i_duration : Q;
  i_end : Q;
  i_fadein : Q;
  i_fadeout : Q
}.

(** [ImageClip(frame).set_duration(d)] *)
Definition image_clip (text : str) (d : Q) : ImageClip :=
  {| i_text := text; i_start := 0; i_duration := d; i_end := Py.fadd 0 d;
     i_fadein := 0; i_fadeout := 0 |}.

(** [set_start(t)] moves the end along; [set_duration(d)] moves the end:
    the end is the float sum of the start and the duration. *)
Definition set_start (c : ImageClip) (t : Q) : ImageClip :=
  {| i_text := i_text c; i_start := t; i_duration := i_duration c;
     i_end := Py.fadd t (i_duration c);
     i_fadein := i_fadein c; i_fadeout := i_fadeout c |}.

Definition set_duration (c : ImageClip) (d : Q) : ImageClip :=
  {| i_text := i_text c; i_start := i_start c; i_duration := d;
     i_end := Py.fadd (i_start c) d;
     i_fadein := i_fadein c; i_fadeout := i_fadeout c |}.

Definition crossfadein (c : ImageClip) (d : Q) : ImageClip :=
  {| i_text := i_text c; i_start := i_start c; i_duration := i_duration c;
     i_end := i_end c; i_fadein := d; i_fadeout := i_fadeout c |}.

Definition crossfadeout (c : ImageClip) (d : Q) : ImageClip :=
  {| i_text := i_text c; i_start := i_start c; i_duration := i_duration c;
     i_end := i_end c; i_fadein := i_fadein c; i_fadeout := d |}.

(** What is handed to [write_videofile]: the concatenated footage, or a
    [CompositeVideoClip([footage, *subs])] whose duration is the largest
    end among its layers. *)
Inductive FinalClip : Type :=
| Footage (v : VideoClip)
| CompositeVideoClip (base : VideoClip) (overlays : list ImageClip).

Definition final_base (f : FinalClip) : VideoClip :=
  match f with Footage v => v | CompositeVideoClip v _ => v end.

Definition final_overlays (f : FinalClip) : list ImageClip :=
  match f with Footage _ => [] | CompositeVideoClip _ subs => subs end.

Definition final_duration (f : FinalClip) : Q :=
  match f with
  | Footage v => v_duration v
  | CompositeVideoClip v subs => Py.max_list (v_duration v) (map i_end subs)
  end.

Definition final_audio (f : FinalClip) : option AudioClip := v_audio (final_base f).

End Moviepy.

Import Moviepy.

(** ** State of a run: the file system and the trace of external calls *)

Record Stat : Type := { is_file : bool; st_size : N }.

Definition FS := Path -> option Stat.

Inductive Event : Type :=
| EvProbe (path : Path)                          (* the probe opens a clip *)
| EvSynthVoiceover                               (* synth_voiceover is called *)
| EvBuildAudioTrack (voice : option Path)        (* build_audio_track is called *)
| EvWriteAudio (path : Path) (mix : CompositeAudioClip)
| EvAssemble (audio_file : option Path)          (* assemble_video is called *)
| EvLoadClip (path : Path)                       (* the assembler opens a clip *)
| EvOpenAudio (path : Path)                      (* the assembler opens the audio *)
| EvSubtitleError                                (* video_error.log is written *)
| EvWriteVideo (path : Path) (clip : FinalClip). (* write_videofile is called *)

Definition Trace := list Event.

Record State : Type := { fs : FS; trace : Trace }.

(** Computations that read and write the state and may raise. *)
Definition M (A : Type) : Type := State -> Result A * State.

Definition ret {A} (a : A) : M A := fun st => (Ok a, st).

Definition raise {A} (e : Exn) : M A := fun st => (Raise e, st).

Definition bind {A B} (m : M A) (k : A -> M B) : M B :=
  fun st =>
    match m st with
    | (Ok a, st') => k a st'
    | (Raise e, st') => (Raise e, st')
    end.

Notation "x <- m ;; k" := (bind m (fun x => k))
  (at level 61, m at next level, right associativity).

(** [try: m except Exception as e: ...]: the outcome becomes a value; what
    [m] did to the state before raising stays done. *)
Definition attempt {A} (m : M A) : M (Result A) :=
  fun st => let (r, st') := m st in (Ok r, st').

Definition emit (ev : Event) : M unit :=
  fun st => (Ok tt, {| fs := fs st; trace := trace st ++ [ev] |}).

Definition lift {A} (r : Result A) : M A := fun st => (r, st).

(** [path.exists()], [path.is_file()] and [path.stat().st_size] *)
Definition path_exists (p : Path) : M bool :=
  fun st => (Ok (match fs st p with Some _ => true | None => false end), st).

Definition path_is_file (p : Path) : M bool :=
  fun st => (Ok (match fs st p with Some s => is_file s | None => false end), st).

Definition path_size (p : Path) : M N :=
  fun st =>
    match fs st p with
    | Some s => (Ok (st_size s), st)
    | None => (Raise (Py.Exception "FileNotFoundError()"), st)
    end.

(** An external call that may change the file system. *)
Definition call_fs {A} (f : FS -> Result A * FS) : M A :=
  fun st => let (r, fs') := f (fs st) in (r, {| fs := fs'; trace := trace st |}).

Definition fs_exists (f : FS) (p : Path) : bool :=
  match f p with Some _ => true | None => false end.

Definition fs_is_file (f : FS) (p : Path) : bool :=
  match f p with Some s => is_file s | None => false end.

(** ** backend/story.py: the data the narration generator hands over *)

Module Story.

(** What [json.load] makes of [metadata.json]: an object, of which the
    pipeline itself reads the one key ["name"], or a JSON value of another
    kind (a list, a string, a number, [null]), given by the name of its
    Python type. *)
Inductive Metadata : Type :=
| JsonObject (name : option string)
| JsonOther (type_name : string).

Definition double_quote : string :=
  String (Ascii false true false false false true false false) EmptyString.

(** [metadata.get("name", "Friend")]: only a [dict] has a [get]. *)
Definition get_name (metadata : Metadata) : Result string :=
  match metadata with
  | JsonObject (Some n) => Ok n
  | JsonObject None => Ok "Friend"%string
  | JsonOther type_name =>
      Raise (Py.Exception
               ("AttributeError(" ++ double_quote ++ "'" ++ type_name
                  ++ "' object has no attribute 'get'" ++ double_quote ++ ")")%string)
  end.

Record StoryResult : Type := {
  title : string;
  short_title : string;
  description : string;
  script : str;
  tone_arc : string
}.

End Story.

(** ** The collaborators of a run, one oracle per external call *)

Record World : Type := {
  project_root : Path;                                 (* config.PROJECT_ROOT *)
  base_output_dir : Path;                              (* SETTINGS.base_output_dir *)
  mkdir : Path -> FS -> Result unit * FS;              (* mkdir(parents=True, exist_ok=True) *)
  iterdir : Path -> Result (list Path);                (* sorted(dir.iterdir()) *)
  read_json : Path -> Result Story.Metadata;           (* json.load of metadata.json *)
  build_story : Story.Metadata -> Result Story.StoryResult;
  synth_voiceover : str -> Path -> Q -> FS -> Result Path * FS;
  probe : Path -> Result Q;          (* VideoFileClip, get_frame(0), duration *)
  open_video : Path -> Result Q;     (* VideoFileClip(path, audio=False).duration *)
  open_audio : Path -> Result Q;     (* AudioFileClip(path).duration *)
  music_candidates : Path -> Result (list Path);       (* rglob mp3 + rglob wav *)
  render_text : str -> Z -> Z -> option Exn;           (* PIL drawing of one frame *)
  write_audiofile : Path -> CompositeAudioClip -> FS -> Result unit * FS;
  write_videofile : Path -> FinalClip -> FS -> Result unit * FS
}.

(** ** backend/subtitles.py *)

Module Subtitles.

Definition lbracket : N := 91.
Definition rbracket : N := 93.
Definition space : N := 32.

(** [re.sub(r"\[.*?\]", " ", script, flags=re.DOTALL)]: from each opening
    bracket to the nearest closing one becomes a space; an opening bracket
    that is never closed stays, with all that follows it. [pending] is the
    text read since an opening bracket that is still waiting. *)
Fixpoint strip_brackets (s : str) (pending : option str) : str :=
  match s with
  | [] => match pending with Some p => p | None => [] end
  | c :: r =>
      match pending with
      | None =>
          if (c =? lbracket)%N then strip_brackets r (Some [c])
          else c :: strip_brackets r None
      | Some p =>
          if (c =? rbracket)%N then space :: strip_brackets r None
          else strip_brackets r (Some (p ++ [c]))
      end
  end.

(** [re.sub(r"\s+", " ", s)] *)
Fixpoint collapse_whitespace (s : str) (in_run : bool) : str :=
  match s with
  | [] => []
  | c :: r =>
      if Py.isspace c then
        if in_run then collapse_whitespace r true
        else space :: collapse_whitespace r true
      else c :: collapse_whitespace r false
  end.

Definition is_sentence_end (c : N) : bool :=
  ((c =? 46) || (c =? 33) || (c =? 63))%N%bool.     (* . ! ? *)

(** [re.split(r"(?<=[.!?])\s+", s)]: a run of whitespace that comes right
    after a full stop, an exclamation or a question mark separates two
    parts. [after_end] says the previous character was such a mark,
    [in_sep] that a separator is being read, [part] is the current part. *)
Fixpoint re_split (s : str) (after_end in_sep : bool) (part : str) : list str :=
  match s with
  | [] => [part]
  | c :: r =>
      if Py.isspace c then
        if in_sep then re_split r false true part
        else if after_end then part :: re_split r false true []
        else re_split r false false (part ++ [c])
      else re_split r (is_sentence_end c) false (part ++ [c])
  end.

Definition nonempty (s : str) : bool :=
  match s with [] => false | _ :: _ => true end.

Definition nonempty_list {A} (l : list A) : bool :=
  match l with [] => false | _ :: _ => true end.

Definition split_sentences (script : str) : list str :=
  let cleaned := strip_brackets script None in
  let cleaned := collapse_whitespace cleaned false in
  let parts := re_split cleaned false false [] in
  map Py.strip (filter (fun p => nonempty (Py.strip p)) parts).

(** The literal [2.8] is the float nearest to 28/10. *)
Definition approx_wps : Q := Py.fl (28 # 10).

Definition raw_duration (s : str) : Q :=
  let n_words := Z.max 1 (Z.of_nat (List.length (Py.split s))) in
  Py.max 1 (Py.fdiv (inject_Z n_words) approx_wps).

Definition estimate_sentence_durations (sentences : list str) (total_duration : Q)
  : list Q :=
  match sentences with
  | [] => []
  | _ :: _ =>
      let raw := map raw_duration sentences in
      let total_raw := Py.fsum raw in
      if Py.leb total_raw 0 then
        repeat (Py.fdiv total_duration (inject_Z (Z.of_nat (List.length sentences))))
               (List.length sentences)
      else
        let scale := Py.fdiv total_duration total_raw in
        map (fun d => Py.fmul d scale) raw
  end.

(** [make_subtitle_frame]: the drawing may fail inside PIL; when it does
    not, the frame is an [ImageClip] of one second. *)
Definition make_subtitle_frame (w : World) (text : str) (width height : Z)
  : Result ImageClip :=
  match render_text w text width height with
  | Some e => Raise e
  | None => Ok (image_clip text 1)
  end.

Definition fade : Q := 15 # 100.

(** The loop of [build_subtitle_clips] over [zip(sentences, durations)]. *)
Fixpoint subtitle_loop (w : World) (width height : Z)
  (pairs : list (str * Q)) (clips : list ImageClip) (cur : Q)
  : Result (list ImageClip) :=
  match pairs with
  | [] => Ok clips
  | (sentence, dur) :: rest =>
      let text := Py.strip sentence in
      if nonempty text then
        match make_subtitle_frame w text width height with
        | Raise e => Raise e
        | Ok frame =>
            let clip :=
              crossfadeout (crossfadein (set_duration (set_start frame cur) dur) fade) fade in
            subtitle_loop w width height rest (clips ++ [clip]) (Py.fadd cur dur)
        end
      else subtitle_loop w width height rest clips cur
  end.

Definition build_subtitle_clips (w : World) (script : str) (total_duration : Q)
  (width height : Z) : Result (list ImageClip) :=
  let sentences := split_sentences script in
  match sentences with
  | [] => Ok []
  | _ :: _ =>
      let durations := estimate_sentence_durations sentences total_duration in
      subtitle_loop w width height (combine sentences durations) [] 0
  end.

End Subtitles.

(** ** backend/audio.py *)

Module Audio.

Definition path_min (c : Path) (cs : list Path) : Path :=
  fold_left (fun m p => if Py.path_ltb p m then p else m) cs c.

Definition _find_default_music (w : World) : M (option Path) :=
  let music_root := Py.path_join (Py.path_join (project_root w) "assets") "music" in
  ex <- path_exists music_root ;;
  if negb ex then ret None
  else
    candidates <- lift (music_candidates w music_root) ;;
    match candidates with
    | [] => ret None
    | c :: cs => ret (Some (path_min c cs))     (* candidates.sort(); candidates[0] *)
    end.

(** The body of the [try] that loads the music: open, loop when shorter
    than the target, cut to the target, attenuate and fade. *)
Definition load_music (w : World) (music_file : Path) (total_visual_duration : Q)
  : Result AudioClip :=
  match open_audio w music_file with
  | Raise e => Raise e
  | Ok d =>
      let music := AudioFileClip music_file d in
      let looped :=
        if Py.ltb (audio_duration music) total_visual_duration then
          if Qeq_bool (audio_duration music) 0 then
            Raise (Py.Exception "ZeroDivisionError('float floor division by zero')")
          else
            let loops := (Py.floordiv total_visual_duration (audio_duration music) + 1)%Z in
            concatenate_copies music (Z.to_nat loops)
        else Ok music in
      match looped with
      | Raise e => Raise e
      | Ok music =>
          match audio_subclip music 0 total_visual_duration with
          | Raise e => Raise e
          | Ok music => Ok (AudioFadeOut (AudioFadeIn (VolumeX music (25 # 100)) 1) 1)
          end
      end
  end.

Definition build_audio_track (w : World) (total_visual_duration : Q)
  (voice_file music_file : option Path) : M (option CompositeAudioClip) :=
  _ <- emit (EvBuildAudioTrack voice_file) ;;
  let audio_clips :=
    match voice_file with
    | Some vf =>
        match open_audio w vf with
        | Ok d => [AudioFileClip vf d]
        | Raise _ => []                       (* warning: could not load voiceover *)
        end
    | None => []
    end in
  music_file <- match music_file with
                | None => _find_default_music w
                | Some m => ret (Some m)
                end ;;
  let audio_clips :=
    match music_file with
    | Some mf =>
        match load_music w mf total_visual_duration with
        | Ok music => audio_clips ++ [music]
        | Raise _ => audio_clips              (* warning: could not load music *)
        end
    | None => audio_clips
    end in
  match audio_clips with
  | [] => ret None
  | _ :: _ =>
      match composite_audio audio_clips with
      | Ok final => ret (Some (set_composite_duration final total_visual_duration))
      | Raise _ => ret None
      end
  end.

End Audio.

(** ** backend/edit.py *)

Module Edit.

Record StreamClip : Type := {
  path : Path;
  duration : Q;
  start : Q;
  end_ : option Q
}.

Definition exts : list string := [".mp4"; ".mov"; ".m4v"]%string.

Definition collect_clips (w : World) (clips_dir : Path) : M (list Path) :=
  ex <- path_exists clips_dir ;;
  if negb ex then ret []
  else
    listing <- lift (iterdir w clips_dir) ;;   (* raises when it is not a directory *)
    fun st =>
      (Ok (filter (fun p => fs_is_file (fs st) p
                            && existsb (String.eqb (Py.lower (Py.path_suffix p))) exts)
                  listing),
       st).

Definition _safe_probe_duration (w : World) (p : Path) : M Q :=
  _ <- emit (EvProbe p) ;;
  match probe w p with
  | Ok d => ret (Py.or_zero d)
  | Raise _ => ret 0                          (* warning: unreadable clip at probe *)
  end.

(** The loop of [pick_visuals]; [visuals] and [total] are its two locals. *)
Fixpoint pick_loop (w : World) (target_duration : Q) (clip_paths : list Path)
  (visuals : list StreamClip) (total : Q) : M (list StreamClip) :=
  match clip_paths with
  | [] => ret visuals
  | p :: rest =>
      dur <- _safe_probe_duration w p ;;
      if Py.leb dur 0 then pick_loop w target_duration rest visuals total
      else
        let dur :=
          if Py.ltb target_duration (Py.fadd total dur)
          then Py.max 0 (Py.fsub target_duration total)
          else dur in
        if Py.leb dur 0 then ret visuals
        else
          let visuals :=
            visuals ++ [{| path := p; duration := dur; start := 0; end_ := None |}] in
          let total := Py.fadd total dur in
          if Py.leb target_duration total then ret visuals
          else pick_loop w target_duration rest visuals total
  end.

Definition pick_visuals (w : World) (clip_paths : list Path) (target_duration : Q)
  : M (list StreamClip) :=
  pick_loop w target_duration clip_paths [] 0.

Definition _scale_for_aspect (aspect : string) : Z * Z :=
  let a := Py.lower aspect in
  if (String.eqb a "vertical" || String.eqb a "portrait")%bool then (360, 640)%Z
  else if String.eqb a "square" then (480, 480)%Z
  else (640, 360)%Z.

(** First loop of [assemble_video]: open each selected clip without its
    audio, cut it to its assigned duration when that is shorter, resize. *)
Fixpoint load_clips (w : World) (size : Z * Z) (visuals : list StreamClip)
  (clips : list VideoClip) : M (list VideoClip) :=
  match visuals with
  | [] => ret clips
  | sc :: rest =>
      _ <- emit (EvLoadClip (path sc)) ;;
      match open_video w (path sc) with
      | Raise _ => load_clips w size rest clips      (* skipped with a warning *)
      | Ok d =>
          let v := video_file_clip (path sc) d in
          let v :=
            if (Py.truthy (duration sc) && Py.truthy (v_duration v)
                && Py.ltb (duration sc) (v_duration v))%bool
            then match video_subclip v 0 (duration sc) with
                 | Ok v' => v'
                 | Raise _ => v                      (* warning: could not trim *)
                 end
            else v in
          load_clips w size rest (clips ++ [resize v size])
      end
  end.

(** The audio block of [assemble_video]. *)
Definition sync_audio (w : World) (audio_file : option Path) (final_clip : VideoClip)
  : M VideoClip :=
  match audio_file with
  | None => ret final_clip
  | Some af =>
      ex <- path_exists af ;;
      if negb ex then ret final_clip
      else
        _ <- emit (EvOpenAudio af) ;;
        d <- lift (open_audio w af) ;;
        let audio_clip := AudioFileClip af d in
        let vdur := Py.or_zero (v_duration final_clip) in
        let adur := Py.or_zero (audio_duration audio_clip) in
        if Py.ltb 0 adur then
          let sync := Py.min vdur adur in
          final_clip <- (if Py.ltb sync vdur
                         then lift (video_subclip final_clip 0 sync)
                         else ret final_clip) ;;
          audio_clip <- (if Py.ltb sync adur
                         then lift (audio_subclip audio_clip 0 sync)
                         else ret audio_clip) ;;
          ret (set_audio final_clip audio_clip)
        else ret final_clip
  end.

(** The subtitle block of [assemble_video]: a failure is logged and the
    render goes on without subtitles. *)
Definition add_subtitles (w : World) (script : option str) (final_clip : VideoClip)
  (width height : Z) : M FinalClip :=
  match script with
  | None => ret (Footage final_clip)
  | Some [] => ret (Footage final_clip)
  | Some ((_ :: _) as s) =>
      match Subtitles.build_subtitle_clips w s (Py.or_zero (v_duration final_clip))
              width height with
      | Ok [] => ret (Footage final_clip)            (* no subtitles generated *)
      | Ok ((_ :: _) as subs) => ret (CompositeVideoClip final_clip subs)
      | Raise _ => _ <- emit EvSubtitleError ;; ret (Footage final_clip)
      end
  end.

(** [assemble_video]. The [finally] block closes the clips; closing has no
    effect on the state kept here. *)
Definition assemble_video (w : World) (pet_name : string) (visuals : list StreamClip)
  (tone aspect : string) (audio_file : option Path) (out_path : Path)
  (script : option str) : M Path :=
  _ <- emit (EvAssemble audio_file) ;;
  match visuals with
  | [] => raise (Py.Exception "RuntimeError('assemble_video: no visuals to assemble')")
  | _ :: _ =>
      _ <- call_fs (mkdir w (Py.path_parent out_path)) ;;
      let (width, height) := _scale_for_aspect aspect in
      clips <- load_clips w (width, height) visuals [] ;;
      match clips with
      | [] =>
          raise (Py.Exception "RuntimeError('assemble_video: no clips survived loading')")
      | _ :: _ =>
          let concatenated := concatenate_videoclips clips in
          final_clip <- sync_audio w audio_file concatenated ;;
          final_clip <- add_subtitles w script final_clip width height ;;
          _ <- emit (EvWriteVideo out_path final_clip) ;;
          _ <- call_fs (write_videofile w out_path final_clip) ;;
          ret out_path
      end
  end.

End Edit.

(** ** backend/config.py and backend/generate.py *)

Module Generate.

Record PetProjectConfig : Type := {
  pet_dir : Path;
  aspect : string;
  target_duration : Z;
  use_tts : bool;
  tts_speed : Q
}.

Definition validate (cfg : PetProjectConfig) : M unit :=
  ex <- path_exists (pet_dir cfg) ;;
  if negb ex then
    raise (Py.Exception
             ("FileNotFoundError('Pet directory does not exist: "
                ++ Py.path_str (pet_dir cfg) ++ "')")%string)
  else ret tt.

Definition load_metadata (w : World) (pet_dir : Path) : M Story.Metadata :=
  let meta_path := Py.path_join pet_dir "metadata.json" in
  ex <- path_exists meta_path ;;
  if negb ex then
    raise (Py.Exception
             ("FileNotFoundError('metadata.json not found in "
                ++ Py.path_str pet_dir ++ "')")%string)
  else lift (read_json w meta_path).

Record GenResult : Type := {
  success : bool;
  message : option string;
  outfile : option Path;
  duration : option Q;
  tone_arc : option string;
  story_title : option string
}.

Definition failed (msg : string) : GenResult :=
  {| success := false; message := Some msg; outfile := None; duration := None;
     tone_arc := None; story_title := None |}.

(** The closure [_compute_effective_duration], with the two variables it
    reads as arguments. *)
Definition _compute_effective_duration (target_duration : Z) (voice_duration : option Q)
  : Q :=
  let pad := 1 in
  match voice_duration with
  | Some v =>
      if Py.ltb 0 v then Py.min (inject_Z target_duration) (v + pad)
      else inject_Z target_duration
  | None => inject_Z target_duration
  end.

(** The narration block: the voice file and its measured duration. *)
Definition narration (w : World) (cfg : PetProjectConfig) (story : Story.StoryResult)
  : M (option Path * option Q) :=
  if use_tts cfg then
    r <- attempt (
           let voice_dir := Py.path_join (base_output_dir w) "voiceovers" in
           _ <- call_fs (mkdir w voice_dir) ;;
           _ <- emit EvSynthVoiceover ;;
           voice_file <- call_fs (synth_voiceover w (Story.script story) voice_dir
                                    (tts_speed cfg)) ;;
           match open_audio w voice_file with
           | Ok d => ret (Some voice_file, Some (Py.or_zero d))
           | Raise _ => ret (Some voice_file, None)  (* could not measure *)
           end) ;;
    match r with
    | Ok vv => ret vv
    | Raise _ => ret (None, None)                    (* warning: TTS failed *)
    end
  else ret (None, None).

Definition voice_present (voice_file : option Path) : M bool :=
  match voice_file with
  | Some vf => path_exists vf
  | None => ret false
  end.

(** The audio block: the mix when it can be built and written, else the
    narration alone, else nothing. *)
Definition audio_setup (w : World) (cfg : PetProjectConfig)
  (effective_duration : Q) (voice_file : option Path) : M (option Path) :=
  r <- attempt (
         present <- voice_present voice_file ;;
         if present then
           built <- attempt (Audio.build_audio_track w effective_duration voice_file None) ;;
           let mix_clip := match built with Ok m => m | Raise _ => None end in
           match mix_clip with
           | Some mix =>
               let audio_dir := Py.path_join (base_output_dir w) "audio" in
               _ <- call_fs (mkdir w audio_dir) ;;
               let audio_file :=
                 Py.path_join audio_dir (Py.path_name (pet_dir cfg) ++ "_mix.mp3")%string in
               _ <- emit (EvWriteAudio audio_file mix) ;;
               _ <- call_fs (write_audiofile w audio_file mix) ;;
               ret (Some audio_file)
           | None => ret voice_file
           end
         else ret None) ;;
  match r with
  | Ok audio_file => ret audio_file
  | Raise _ =>                                       (* warning: audio setup failed *)
      present <- voice_present voice_file ;;
      if present then ret voice_file else ret None
  end.

Definition out_of_memory : string :=
  "Rendering failed due to insufficient memory. Try shorter clips, a smaller target duration, or a smaller aspect/resolution.".

(** What [generate_video] has in hand when it calls [assemble_video]. *)
Record RenderJob : Type := {
  job_pet_name : string;
  job_visuals : list Edit.StreamClip;
  job_story : Story.StoryResult;
  job_audio_file : option Path;
  job_effective_duration : Q
}.

(** [generate_video] up to the call of [assemble_video]: an early result,
    or the render to run. *)
Definition prepare (w : World) (cfg : PetProjectConfig) (out_path : Path)
  : M (GenResult + RenderJob) :=
  _ <- validate cfg ;;
  let pet_dir := pet_dir cfg in
  loaded <- attempt (load_metadata w pet_dir) ;;
  match loaded with
  | Raise e => ret (inl (failed ("Failed to load metadata: " ++ Py.repr e)))
  | Ok metadata =>
  pet_name <- lift (Story.get_name metadata) ;;        (* outside any [try] *)
  match build_story w metadata with
  | Raise e => ret (inl (failed ("Story generation failed: " ++ Py.repr e)))
  | Ok story =>
  vv <- narration w cfg story ;;
  let (voice_file, voice_duration) := (vv : option Path * option Q) in
  let effective_duration :=
    _compute_effective_duration (target_duration cfg) voice_duration in
  let clips_dir := Py.path_join pet_dir "Clips" in
  clip_paths <- Edit.collect_clips w clips_dir ;;
  match clip_paths with
  | [] => ret (inl (failed ("No video clips found in " ++ Py.path_str clips_dir)))
  | _ :: _ =>
  visuals <- Edit.pick_visuals w clip_paths effective_duration ;;
  match visuals with
  | [] => ret (inl (failed "All clips were unreadable — cannot build video."))
  | _ :: _ =>
  audio_file <- audio_setup w cfg effective_duration voice_file ;;
  _ <- call_fs (mkdir w (Py.path_parent out_path)) ;;
  ret (inr {| job_pet_name := pet_name; job_visuals := visuals; job_story := story;
              job_audio_file := audio_file;
              job_effective_duration := effective_duration |})
  end end end end.

(** The call of [assemble_video] for a job. *)
Definition assemble_job (w : World) (cfg : PetProjectConfig) (out_path : Path)
  (job : RenderJob) : M Path :=
  Edit.assemble_video w (job_pet_name job) (job_visuals job)
    (Story.tone_arc (job_story job)) (aspect cfg) (job_audio_file job) out_path
    (Some (Story.script (job_story job))).

(** The render and its two handlers. *)
Definition render (w : World) (cfg : PetProjectConfig) (out_path : Path)
  (job : RenderJob) : M GenResult :=
  let story := job_story job in
  rendered <- attempt (assemble_job w cfg out_path job) ;;
  match rendered with
  | Raise (Py.MemoryError _) =>
      ret {| success := false; message := Some out_of_memory; outfile := None;
             duration := None; tone_arc := Some (Story.tone_arc story);
             story_title := Some (Story.title story) |}
  | Raise (Py.Exception _ as e) =>
      let msg := ("Rendering failed: " ++ Py.repr e)%string in
      ex <- path_exists out_path ;;
      fallback <- (if ex then
                     size <- path_size out_path ;;
                     ret (if (0 <? size)%N then Some out_path else None)
                   else ret None) ;;
      ret {| success := false; message := Some msg; outfile := fallback;
             duration := None; tone_arc := Some (Story.tone_arc story);
             story_title := Some (Story.title story) |}
  | Ok final_path =>
      ret {| success := true; message := Some "Video generated successfully."%string;
             outfile := Some final_path;
             duration := Some (job_effective_duration job);
             tone_arc := Some (Story.tone_arc story);
             story_title := Some (Story.title story) |}
  end.

Definition generate_video (w : World) (cfg : PetProjectConfig) (out_path : Path)
  : M GenResult :=
  prepared <- prepare w cfg out_path ;;
  match prepared with
  | inl early => ret early
  | inr job => render w cfg out_path job
  end.

End Generate.

(** ** backend/emotion.py *)

Module Emotion.

(** [any(word in t for word in words)] *)
Definition any_in (words : list string) (t : string) : bool :=
  existsb (fun word => Py.contains word t) words.

(** [tone_arc or ""] *)
Definition or_empty (tone_arc : option string) : string :=
  match tone_arc with
  | Some s => s
  | None => EmptyString
  end.

Definition pick_music_subfolder (tone_arc : option string) : string :=
  let t := Py.lower (or_empty tone_arc) in
  if any_in ["somber"; "sad"; "melancholy"]%string t then "soft"
  else if any_in ["hopeful"; "warm"; "gentle"; "soft"]%string t then "soft"
  else if any_in ["joyful"; "happy"; "excited"; "energetic"]%string t then "upbeat"
  else "soft".

Definition transition_for_segment (idx total : Z) (tone_arc : option string) : string :=
  let tone := Py.lower (or_empty tone_arc) in
  if (Py.contains "somber" tone && (idx <? total)%Z)%bool then "fade"
  else if (Py.contains "joyful" tone && (2 * total <? idx)%Z)%bool then "hardcut"
  else "cross".

End Emotion.

(** ** Vocabulary of the properties *)

(** A candidate is readable when its probe returns a positive duration. *)
Definition readable (w : World) (p : Path) : bool :=
  match probe w p with
  | Ok d => Py.ltb 0 d
  | Raise _ => false
  end.

(** [sum(c.duration for c in visuals)], as the orchestrator computes it. *)
Definition total_duration (visuals : list Edit.StreamClip) : Q :=
  Py.sum (map Edit.duration visuals).

(** A clip taken whole or trimmed, as [pick_visuals] builds it. *)
Definition selected (p : Path) (d : Q) : Edit.StreamClip :=
  {| Edit.path := p; Edit.duration := d; Edit.start := 0; Edit.end_ := None |}.

(** ** A concrete subject, used to run the model

    The subject [pets/rex] has three clips of 20 s and a fourth file that
    cannot be decoded; narration lasts 8 s; the music bed lasts 4 s. *)

Module Example.

Definition pet_dir : Path := ["pets"; "rex"]%string.
Definition clip (file : string) : Path := pet_dir ++ ["Clips"%string; file].
Definition out_path : Path := ["out"; "rex_vertical.mp4"]%string.
Definition voice_path : Path := ["out"; "voiceovers"; "voiceover.mp3"]%string.
Definition music_path : Path := ["app"; "assets"; "music"; "calm.mp3"]%string.
Definition mix_path : Path := ["out"; "audio"; "rex_mix.mp3"]%string.

Definition a_file : Stat := {| is_file := true; st_size := 1000 |}.
Definition a_dir : Stat := {| is_file := false; st_size := 4096 |}.

Definition write (f : FS) (p : Path) (s : Stat) : FS :=
  fun q => if Py.path_eqb q p then Some s else f q.

Definition disk : FS :=
  fun p =>
    if existsb (Py.path_eqb p)
         [pet_dir; pet_dir ++ ["Clips"%string];
          ["app"; "assets"; "music"]%string]
    then Some a_dir
    else if existsb (Py.path_eqb p)
              [pet_dir ++ ["metadata.json"%string];
               clip "a.mp4"; clip "b.mp4"; clip "c.mp4"; clip "broken.mp4";
               music_path]
    then Some a_file
    else None.

Definition story : Story.StoryResult :=
  {| Story.title := "Meet Rex";
     Story.short_title := "Rex";
     Story.description := "Rex is looking for a home.";
     Story.script := Py.of_string "Meet Rex. He loves long walks! Come meet Rex today.";
     Story.tone_arc := "warm" |}.

Definition clip_seconds (p : Path) : Result Q :=
  if Py.path_eqb p (clip "broken.mp4")
  then Raise (Py.Exception "OSError('MoviePy error: failed to read the first frame')")
  else Ok 20.

(** The files of [Clips/], sorted. *)
Definition listing : list Path :=
  [clip "a.mp4"; clip "b.mp4"; clip "broken.mp4"; clip "c.mp4"].

Definition world : World :=
  {| project_root := ["app"]%string;
     base_output_dir := ["out"]%string;
     mkdir := fun _ f => (Ok tt, f);
     iterdir := fun _ => Ok listing;
     read_json := fun _ => Ok (Story.JsonObject (Some "Rex"%string));
     build_story := fun _ => Ok story;
     synth_voiceover := fun _ _ _ f => (Ok voice_path, write f voice_path a_file);
     probe := clip_seconds;
     open_video := clip_seconds;
     open_audio := fun p => if Py.path_eqb p music_path then Ok 4
                            else if Py.path_eqb p mix_path then Ok 9
                            else Ok 8;
     music_candidates := fun _ => Ok [music_path];
     render_text := fun _ _ _ => None;
     write_audiofile := fun p _ f => (Ok tt, write f p a_file);
     write_videofile := fun p _ f => (Ok tt, write f p a_file) |}.

Definition start : State := {| fs := disk; trace := [] |}.

(** The disk once narration and mix have been written. *)
Definition with_audio : State :=
  {| fs := write (write disk voice_path a_file) mix_path a_file; trace := [] |}.

Definition cfg : Generate.PetProjectConfig :=
  {| Generate.pet_dir := pet_dir; Generate.aspect := "vertical";
     Generate.target_duration := 40; Generate.use_tts := true;
     Generate.tts_speed := 1 |}.

(** The same configuration with narration switched off. *)
Definition cfg_no_tts : Generate.PetProjectConfig :=
  {| Generate.pet_dir := pet_dir; Generate.aspect := "vertical";
     Generate.target_duration := 40; Generate.use_tts := false;
     Generate.tts_speed := 1 |}.

(** The same subject when the only file of [Clips/] is the broken one. *)
Definition broken_world : World :=
  {| project_root := project_root world;
     base_output_dir := base_output_dir world;
     mkdir := mkdir world;
     iterdir := fun _ => Ok [clip "broken.mp4"];
     read_json := read_json world;
     build_story := build_story world;
     synth_voiceover := synth_voiceover world;
     probe := probe world;
     open_video := open_video world;
     open_audio := open_audio world;
     music_candidates := music_candidates world;
     render_text := render_text world;
     write_audiofile := write_audiofile world;
     write_videofile := write_videofile world |}.

(** The same subject when the encoder fails after writing 512 bytes. *)
Definition failing_world : World :=
  {| project_root := project_root world;
     base_output_dir := base_output_dir world;
     mkdir := mkdir world;
     iterdir := iterdir world;
     read_json := read_json world;
     build_story := build_story world;
     synth_voiceover := synth_voiceover world;
     probe := probe world;
     open_video := open_video world;
     open_audio := open_audio world;
     music_candidates := music_candidates world;
     render_text := render_text world;
     write_audiofile := write_audiofile world;
     write_videofile := fun p _ f =>
       (Raise (Py.Exception "OSError('[Errno 32] Broken pipe')"),
        write f p {| is_file := true; st_size := 512 |}) |}.

(** The same subject when every audio file opens with a duration of 0. *)
Definition mute_world : World :=
  {| project_root := project_root world;
     base_output_dir := base_output_dir world;
     mkdir := mkdir world;
     iterdir := iterdir world;
     read_json := read_json world;
     build_story := build_story world;
     synth_voiceover := synth_voiceover world;
     probe := probe world;
     open_video := open_video world;
     open_audio := fun _ => Ok 0;
     music_candidates := music_candidates world;
     render_text := render_text world;
     write_audiofile := write_audiofile world;
     write_videofile := write_videofile world |}.

End Example.

(** Cues tile the timeline from [t] on: the first one starts at [t], each
    one ends at the float sum of its start and its duration, and the next
    one starts where it ends. *)
Fixpoint contiguous_from (t : Q) (cues : list ImageClip) : bool :=
  match cues with
  | [] => true
  | c :: rest =>
      Qeq_bool (i_start c) t
      && Qeq_bool (i_end c) (Py.fadd (i_start c) (i_duration c))
      && contiguous_from (i_end c) rest
  end.

(** The script gives the Subtitle Timing Engine at least one sentence. *)
Definition has_sentence (script : str) : bool :=
  Subtitles.nonempty_list (Subtitles.split_sentences script).

(** The music file the Audio Track Builder settles on: the one passed in,
    else the default one. *)
Definition resolved_music (w : World) (music_file : option Path) (st : State)
  : Result (option Path) :=
  fst ((match music_file with
        | None => Audio._find_default_music w
        | Some m => ret (Some m)
        end) st).


(** A state with no file and no event, to read off what a computation
    returns when its result does not depend on the state. *)
Definition blank : State := {| fs := fun _ => None; trace := [] |}.

(** The clips that survive the loading loop of the assembler. *)
Definition survivors (w : World) (size : Z * Z) (visuals : list Edit.StreamClip)
  : list VideoClip :=
  match fst (Edit.load_clips w size visuals [] blank) with
  | Ok clips => clips
  | Raise _ => []
  end.

(** The footage the assembler has once the survivors are concatenated. *)
Definition footage (w : World) (aspect : string) (visuals : list Edit.StreamClip)
  : VideoClip :=
  concatenate_videoclips (survivors w (Edit._scale_for_aspect aspect) visuals).

(** Extending the trace of a state. *)
Definition logged (st : State) (events : list Event) : State :=
  {| fs := fs st; trace := trace st ++ events |}.

(** The videos written according to a trace. *)
Definition videos_written (t : Trace) : list (Path * FinalClip) :=
  flat_map (fun ev => match ev with
                      | EvWriteVideo p clip => [(p, clip)]
                      | _ => []
                      end) t.

(** An event that a run without any audio may leave: no call of the audio
    track builder, no audio written or opened, no audio file handed to the
    assembler, no audio track on a video written. *)
Definition video_only (ev : Event) : bool :=
  match ev with
  | EvBuildAudioTrack _ => false
  | EvWriteAudio _ _ => false
  | EvOpenAudio _ => false
  | EvAssemble (Some _) => false
  | EvWriteVideo _ clip =>
      match final_audio clip with Some _ => false | None => true end
  | _ => true
  end.

(** [st'] is [st] after some more events, all of which satisfy [P]. *)
Definition adds (P : Event -> bool) (st st' : State) : Prop :=
  exists events, trace st' = trace st ++ events /\ forallb P events = true.

(** A computation that only leaves events satisfying [P]. *)
Definition emits_only {A} (P : Event -> bool) (m : M A) : Prop :=
  forall st, adds P st (snd (m st)).

(** Narration is absent when the audio is set up: speech synthesis is
    switched off, or it failed, or the file it returned is not there. *)
Definition narration_absent (w : World) (cfg : Generate.PetProjectConfig)
  (story : Story.StoryResult) (st : State) : bool :=
  match Generate.narration w cfg story st with
  | (Ok (Some voice_file, _), st1) => negb (fs_exists (fs st1) voice_file)
  | _ => true
  end.

(** The clip files [collect_clips] finds. *)
Definition candidates (w : World) (clips_dir : Path) (st : State) : list Path :=
  match fst (Edit.collect_clips w clips_dir st) with
  | Ok paths => paths
  | Raise _ => []
  end.

(** A file is there and is not empty. *)
Definition file_nonempty (f : FS) (p : Path) : bool :=
  match f p with
  | Some s => (0 <? st_size s)%N
  | None => false
  end.

(** What [_safe_probe_duration] returns for a candidate. *)
Definition probed (w : World) (p : Path) : Q :=
  match probe w p with
  | Ok d => Py.or_zero d
  | Raise _ => 0
  end.

(** The probes a trace holds. *)
Definition probes (t : Trace) : list Path :=
  flat_map (fun ev => match ev with EvProbe p => [p] | _ => [] end) t.

(** The clip the loading loop makes of one selected clip whose file opens
    with a native duration [d]. *)
Definition loaded (size : Z * Z) (sc : Edit.StreamClip) (d : Q) : VideoClip :=
  match fst (Edit.load_clips
               {| project_root := []; base_output_dir := [];
                  mkdir := fun _ f => (Ok tt, f); iterdir := fun _ => Ok [];
                  read_json := fun _ => Raise (Py.Exception "");
                  build_story := fun _ => Raise (Py.Exception "");
                  synth_voiceover := fun _ _ _ f => (Raise (Py.Exception ""), f);
                  probe := fun _ => Ok d; open_video := fun _ => Ok d;
                  open_audio := fun _ => Ok d;
                  music_candidates := fun _ => Ok [];
                  render_text := fun _ _ _ => None;
                  write_audiofile := fun _ _ f => (Ok tt, f);
                  write_videofile := fun _ _ f => (Ok tt, f) |}
               size [sc] [] blank) with
  | Ok (v :: _) => v
  | _ => video_file_clip (Edit.path sc) d
  end.

(** No video is written by an event. *)
Definition no_video (ev : Event) : bool :=
  match ev with EvWriteVideo _ _ => false | _ => true end.

(** Any event. *)
Definition any_event (ev : Event) : bool := true.

(** More runs of the example subject. *)

Module Scenario.

(** The encoder runs out of memory after writing 512 bytes. *)
Definition oom_world : World :=
  {| project_root := project_root Example.world;
     base_output_dir := base_output_dir Example.world;
     mkdir := mkdir Example.world;
     iterdir := iterdir Example.world;
     read_json := read_json Example.world;
     build_story := build_story Example.world;
     synth_voiceover := synth_voiceover Example.world;
     probe := probe Example.world;
     open_video := open_video Example.world;
     open_audio := open_audio Example.world;
     music_candidates := music_candidates Example.world;
     render_text := render_text Example.world;
     write_audiofile := write_audiofile Example.world;
     write_videofile := fun p _ f =>
       (Raise (Py.MemoryError "MemoryError()"),
        Example.write f p {| is_file := true; st_size := 512 |}) |}.

(** [metadata.json] holds a JSON list. *)
Definition list_metadata_world : World :=
  {| project_root := project_root Example.world;
     base_output_dir := base_output_dir Example.world;
     mkdir := mkdir Example.world;
     iterdir := iterdir Example.world;
     read_json := fun _ => Ok (Story.JsonOther "list");
     build_story := build_story Example.world;
     synth_voiceover := synth_voiceover Example.world;
     probe := probe Example.world;
     open_video := open_video Example.world;
     open_audio := open_audio Example.world;
     music_candidates := music_candidates Example.world;
     render_text := render_text Example.world;
     write_audiofile := write_audiofile Example.world;
     write_videofile := write_videofile Example.world |}.

(** The clips folder is there and cannot be listed. *)
Definition locked_clips_world : World :=
  {| project_root := project_root Example.world;
     base_output_dir := base_output_dir Example.world;
     mkdir := mkdir Example.world;
     iterdir := fun _ => Raise (Py.Exception "PermissionError(13, 'Permission denied')");
     read_json := read_json Example.world;
     build_story := build_story Example.world;
     synth_voiceover := synth_voiceover Example.world;
     probe := probe Example.world;
     open_video := open_video Example.world;
     open_audio := open_audio Example.world;
     music_candidates := music_candidates Example.world;
     render_text := render_text Example.world;
     write_audiofile := write_audiofile Example.world;
     write_videofile := write_videofile Example.world |}.


(** The language model is unreachable. *)
Definition offline_world : World :=
  {| project_root := project_root Example.world;
     base_output_dir := base_output_dir Example.world;
     mkdir := mkdir Example.world;
     iterdir := iterdir Example.world;
     read_json := read_json Example.world;
     build_story := fun _ => Raise (Py.Exception "APIConnectionError('Connection error.')");
     synth_voiceover := synth_voiceover Example.world;
     probe := probe Example.world;
     open_video := open_video Example.world;
     open_audio := open_audio Example.world;
     music_candidates := music_candidates Example.world;
     render_text := render_text Example.world;
     write_audiofile := write_audiofile Example.world;
     write_videofile := write_videofile Example.world |}.

(** The music file does not decode. *)
Definition bad_music_world : World :=
  {| project_root := project_root Example.world;
     base_output_dir := base_output_dir Example.world;
     mkdir := mkdir Example.world;
     iterdir := iterdir Example.world;
     read_json := read_json Example.world;
     build_story := build_story Example.world;
     synth_voiceover := synth_voiceover Example.world;
     probe := probe Example.world;
     open_video := open_video Example.world;
     open_audio := fun p =>
       if Py.path_eqb p Example.music_path
       then Raise (Py.Exception "OSError('MoviePy error: failed to read the duration')")
       else Ok 8;
     music_candidates := music_candidates Example.world;
     render_text := render_text Example.world;
     write_audiofile := write_audiofile Example.world;
     write_videofile := write_videofile Example.world |}.

(** No audio file decodes. *)
Definition deaf_world : World :=
  {| project_root := project_root Example.world;
     base_output_dir := base_output_dir Example.world;
     mkdir := mkdir Example.world;
     iterdir := iterdir Example.world;
     read_json := read_json Example.world;
     build_story := build_story Example.world;
     synth_voiceover := synth_voiceover Example.world;
     probe := probe Example.world;
     open_video := open_video Example.world;
     open_audio := fun _ => Raise (Py.Exception "OSError('MoviePy error')");
     music_candidates := music_candidates Example.world;
     render_text := render_text Example.world;
     write_audiofile := write_audiofile Example.world;
     write_videofile := write_videofile Example.world |}.

(** The font machinery fails on every frame. *)
Definition no_font_world : World :=
  {| project_root := project_root Example.world;
     base_output_dir := base_output_dir Example.world;
     mkdir := mkdir Example.world;
     iterdir := iterdir Example.world;
     read_json := read_json Example.world;
     build_story := build_story Example.world;
     synth_voiceover := synth_voiceover Example.world;
     probe := probe Example.world;
     open_video := open_video Example.world;
     open_audio := open_audio Example.world;
     music_candidates := music_candidates Example.world;
     render_text := fun _ _ _ => Some (Py.Exception "OSError('cannot open resource')");
     write_audiofile := write_audiofile Example.world;
     write_videofile := write_videofile Example.world |}.

(** Three music files under [assets/music], listed as the two searches
    find them: the [.mp3] files, then the [.wav] files. *)
Definition jukebox_world : World :=
  {| project_root := project_root Example.world;
     base_output_dir := base_output_dir Example.world;
     mkdir := mkdir Example.world;
     iterdir := iterdir Example.world;
     read_json := read_json Example.world;
     build_story := build_story Example.world;
     synth_voiceover := synth_voiceover Example.world;
     probe := probe Example.world;
     open_video := open_video Example.world;
     open_audio := open_audio Example.world;
     music_candidates := fun root =>
       Ok [root ++ ["soft"; "lullaby.mp3"]%string;
           root ++ ["calm.mp3"]%string;
           root ++ ["calm"; "air.wav"]%string];
     render_text := render_text Example.world;
     write_audiofile := write_audiofile Example.world;
     write_videofile := write_videofile Example.world |}.

(** Two clips of 4.1 s and 24.63 s, as floats. *)
Definition uneven_world : World :=
  {| project_root := project_root Example.world;
     base_output_dir := base_output_dir Example.world;
     mkdir := mkdir Example.world;
     iterdir := iterdir Example.world;
     read_json := read_json Example.world;
     build_story := build_story Example.world;
     synth_voiceover := synth_voiceover Example.world;
     probe := fun p => if Py.path_eqb p (Example.clip "a.mp4")
                       then Ok (Py.fl (41 # 10)) else Ok (Py.fl (2463 # 100));
     open_video := open_video Example.world;
     open_audio := open_audio Example.world;
     music_candidates := music_candidates Example.world;
     render_text := render_text Example.world;
     write_audiofile := write_audiofile Example.world;
     write_videofile := write_videofile Example.world |}.

(** A clip of 0.51 s followed by clips of 20 s, as floats. *)
Definition sliver_world : World :=
  {| project_root := project_root Example.world;
     base_output_dir := base_output_dir Example.world;
     mkdir := mkdir Example.world;
     iterdir := iterdir Example.world;
     read_json := read_json Example.world;
     build_story := build_story Example.world;
     synth_voiceover := synth_voiceover Example.world;
     probe := fun p => if Py.path_eqb p (Example.clip "a.mp4")
                       then Ok (Py.fl (51 # 100)) else Ok 20;
     open_video := open_video Example.world;
     open_audio := open_audio Example.world;
     music_candidates := music_candidates Example.world;
     render_text := render_text Example.world;
     write_audiofile := write_audiofile Example.world;
     write_videofile := write_videofile Example.world |}.

End Scenario.

(** The tracks the Audio Track Builder gathers: the narration when its
    file opens, then the music when one is settled on and loads. *)
Definition voice_tracks (w : World) (voice_file : option Path) : list AudioClip :=
  match voice_file with
  | Some vf =>
      match open_audio w vf with
      | Ok d => [AudioFileClip vf d]
      | Raise _ => []
      end
  | None => []
  end.

Definition music_tracks (w : World) (music : option Path) (target : Q) : list AudioClip :=
  match music with
  | Some m =>
      match Audio.load_music w m target with
      | Ok track => [track]
      | Raise _ => []
      end
  | None => []
  end.

(** A music file cut to the target without looping. *)
Definition trimmed_music (music_file : Path) (m target : Q) : AudioClip :=
  AudioFadeOut
    (AudioFadeIn (VolumeX (AudioSubclip (AudioFileClip music_file m) 0 target) (25 # 100)) 1)
    1.

(** A text whose last character is a full stop, an exclamation mark or a
    question mark. *)
Definition ends_with_mark (s : str) : bool :=
  match rev s with
  | c :: _ => Subtitles.is_sentence_end c
  | [] => false
  end.

(** [len(s.split())] *)
Definition word_count (s : str) : nat := List.length (Py.split s).

(** An event that neither opens an audio file nor writes a video. *)
Definition before_audio (ev : Event) : bool :=
  match ev with
  | EvOpenAudio _ => false
  | EvWriteVideo _ _ => false
  | _ => true
  end.

(** Where [generate_video] writes the mix of a subject. *)
Definition mix_path (w : World) (cfg : Generate.PetProjectConfig) : Path :=
  Py.path_join (Py.path_join (base_output_dir w) "audio")
    (Py.path_name (Generate.pet_dir cfg) ++ "_mix.mp3")%string.

(** The directory [_find_default_music] searches. *)
Definition music_root (w : World) : Path :=
  Py.path_join (Py.path_join (project_root w) "assets") "music".

(** The words that send [pick_music_subfolder] to the quiet music, and
    those that send it to the lively music. *)
Definition calm_words : list string :=
  ["somber"; "sad"; "melancholy"; "hopeful"; "warm"; "gentle"; "soft"]%string.
Definition lively_words : list string :=
  ["joyful"; "happy"; "excited"; "energetic"]%string.

(** Rounding errors *)

(** [x ^ n] *)
Fixpoint npow (x : Q) (n : nat) : Q :=
  match n with
  | O => 1
  | S n => x * npow x n
  end.

(** [x] is at most [y] up to [k] roundings: each rounding may shrink [x]
    and grow [y] by the relative error [2^-53]. *)
Definition le_upto (k : nat) (x y : Q) : Prop :=
  x * npow (1 - Py.unit_roundoff) k <= y * npow (1 + Py.unit_roundoff) k.

(** [x] and [y] agree up to [k] roundings. *)
Definition close (k : nat) (x y : Q) : Prop := le_upto k x y /\ le_upto k y x.

(** [x] is a float: rounding leaves it as it is. *)
Definition is_float (x : Q) : bool := Qeq_bool (Py.fl x) x.

(** The [total] of [pick_visuals] once it has appended [visuals], which is
    also the [sum(c.duration for c in visuals)] of the orchestrator: the
    durations added from the left, in floats. *)
Definition running_total (visuals : list Edit.StreamClip) : Q :=
  Py.fsum (map Edit.duration visuals).

(** The duration [pick_visuals] assigns to a clip of probed duration [d]
    when the running total is [total]. *)
Definition assigned (E total d : Q) : Q :=
  if Py.ltb E (Py.fadd total d) then Py.max 0 (Py.fsub E total) else d.

(** The roundings between the end of the last subtitle cue and the
    duration the cues are spread over: [n + 2] for the durations of the [n]
    sentences of the script, [n] for the additions that place the cues. *)
Definition cue_roundings (script : option str) : nat :=
  match script with
  | Some s => 2 * List.length (Subtitles.split_sentences s) + 2
  | None => 0
  end.

(** A video written by an event lasts at most [B], up to [k] roundings. *)
Definition within_upto (k : nat) (B : Q) (ev : Event) : bool :=
  match ev with
  | EvWriteVideo _ clip =>
      Py.leb (final_duration clip * npow (1 - Py.unit_roundoff) k)
             (B * npow (1 + Py.unit_roundoff) k)
  | _ => true
  end.

(** The roundings between the duration of the video a run writes and the
    configured target: those of the subtitle cues of its story, one for
    each selected clip, and two for the selection. *)
Definition job_roundings (w : World) (cfg : Generate.PetProjectConfig) (out_path : Path)
  (st : State) : nat :=
  match fst (Generate.prepare w cfg out_path st) with
  | Ok (inr job) =>
      cue_roundings (Some (Story.script (Generate.job_story job)))
      + List.length (Generate.job_visuals job) + 2
  | _ => 0
  end.

(** * Properties *)

(** ** Facts about the float comparisons *)

Section Comparisons.

Lemma leb_true x y : Py.leb x y = true <-> x <= y.
Proof. apply Qle_bool_iff. Qed.

Lemma leb_false x y : Py.leb x y = false <-> y < x.
Proof.
  unfold Py.leb. split; intro H.
  - apply Qnot_le_lt. intro Hle. apply Qle_bool_iff in Hle. congruence.
  - destruct (Qle_bool x y) eqn:E; [|reflexivity].
    apply Qle_bool_iff in E. lra.
Qed.

Lemma ltb_true x y : Py.ltb x y = true <-> x < y.
Proof. unfold Py.ltb. rewrite negb_true_iff. apply (leb_false y x). Qed.

Lemma ltb_false x y : Py.ltb x y = false <-> y <= x.
Proof. unfold Py.ltb. rewrite negb_false_iff. apply (leb_true y x). Qed.

Lemma min_spec a b : Py.min a b == Qmin a b.
Proof.
  unfold Py.min. destruct (Py.ltb b a) eqn:E.
  - apply ltb_true in E. symmetry. apply Q.min_r. lra.
  - apply ltb_false in E. symmetry. apply Q.min_l. exact E.
Qed.

Lemma min_le_l a b : Py.min a b <= a.
Proof.
  unfold Py.min. destruct (Py.ltb b a) eqn:E.
  - apply ltb_true in E. lra.
  - lra.
Qed.

Lemma min_le_r a b : Py.min a b <= b.
Proof.
  unfold Py.min. destruct (Py.ltb b a) eqn:E.
  - lra.
  - apply ltb_false in E. exact E.
Qed.

Lemma or_zero_eq x : Py.or_zero x == x.
Proof.
  unfold Py.or_zero, Py.truthy. destruct (Qeq_bool x 0) eqn:E; simpl.
  - apply Qeq_bool_iff in E. symmetry. exact E.
  - reflexivity.
Qed.

Lemma sum_acc xs : forall a, fold_left Qplus xs a == a + Py.sum xs.
Proof.
  unfold Py.sum. induction xs as [|x xs IH]; intro a; simpl.
  - lra.
  - rewrite (IH (a + x)), (IH (0 + x)). lra.
Qed.

Lemma sum_cons x xs : Py.sum (x :: xs) == x + Py.sum xs.
Proof. unfold Py.sum at 1. simpl. rewrite sum_acc. lra. Qed.

Lemma sum_app xs ys : Py.sum (xs ++ ys) == Py.sum xs + Py.sum ys.
Proof.
  induction xs as [|x xs IH]; simpl.
  - unfold Py.sum at 2. simpl. lra.
  - rewrite !sum_cons, IH. lra.
Qed.

Lemma qmin_left a b x : x == a -> a <= b -> x == Qmin a b.
Proof. intros Hx Hle. rewrite Hx. symmetry. apply Q.min_l. exact Hle. Qed.

Lemma qmin_right a b x : x == b -> b <= a -> x == Qmin a b.
Proof. intros Hx Hle. rewrite Hx. symmetry. apply Q.min_r. exact Hle. Qed.

End Comparisons.

(** ** Float rounding *)

Section Rounding.

Lemma rhe_comp x y : x == y -> Py.round_half_even x = Py.round_half_even y.
Proof.
  intro H. unfold Py.round_half_even. rewrite (Qfloor_comp _ _ H).
  assert (Hc : Qcompare (x - inject_Z (Qfloor y)) (1 # 2)
               = Qcompare (y - inject_Z (Qfloor y)) (1 # 2)).
  { apply Qcompare_comp; [rewrite H; reflexivity | reflexivity]. }
  rewrite Hc. reflexivity.
Qed.

Lemma floor_frac x : 0 <= x - inject_Z (Qfloor x) < 1.
Proof.
  pose proof (Qfloor_le x) as H1. pose proof (Qlt_floor x) as H2.
  rewrite inject_Z_plus in H2. change (inject_Z 1) with 1 in H2. lra.
Qed.

Lemma rhe_cases x :
  (Py.round_half_even x = Qfloor x /\ x - inject_Z (Qfloor x) <= 1 # 2) \/
  (Py.round_half_even x = (Qfloor x + 1)%Z /\ (1 # 2) <= x - inject_Z (Qfloor x)).
Proof.
  unfold Py.round_half_even.
  destruct (Qcompare_spec (x - inject_Z (Qfloor x)) (1 # 2)) as [H | H | H].
  - destruct (Z.even (Qfloor x)); [left | right]; split; (reflexivity || lra).
  - left. split; [reflexivity | lra].
  - right. split; [reflexivity | lra].
Qed.

Lemma rhe_error x :
  x - (1 # 2) <= inject_Z (Py.round_half_even x) <= x + (1 # 2).
Proof.
  pose proof (floor_frac x) as Hf.
  destruct (rhe_cases x) as [[-> H] | [-> H]].
  - lra.
  - rewrite inject_Z_plus. change (inject_Z 1) with 1. lra.
Qed.

Lemma rhe_Z n : Py.round_half_even (inject_Z n) = n.
Proof.
  unfold Py.round_half_even. rewrite Qfloor_Z.
  assert (H : Qcompare (inject_Z n - inject_Z n) (1 # 2) = Lt).
  { apply (proj1 (Qlt_alt _ _)). lra. }
  rewrite H. reflexivity.
Qed.

Lemma rhe_monotone x y : x <= y -> (Py.round_half_even x <= Py.round_half_even y)%Z.
Proof.
  intro Hle. pose proof (Qfloor_resp_le x y Hle) as Hfl.
  pose proof (floor_frac x) as Hfx. pose proof (floor_frac y) as Hfy.
  destruct (Z.eq_dec (Qfloor x) (Qfloor y)) as [Heq | Hne].
  - unfold Py.round_half_even. rewrite <- Heq in *.
    destruct (Qcompare_spec (x - inject_Z (Qfloor x)) (1 # 2)) as [H1 | H1 | H1];
      destruct (Qcompare_spec (y - inject_Z (Qfloor x)) (1 # 2)) as [H2 | H2 | H2];
      try destruct (Z.even (Qfloor x)); try lia; exfalso; lra.
  - destruct (rhe_cases x) as [[-> _] | [-> _]];
      destruct (rhe_cases y) as [[-> _] | [-> _]]; lia.
Qed.

Lemma pow2_pos e : 0 < 2 ^ e.
Proof. apply Qpower_0_lt. reflexivity. Qed.

Lemma pow2_plus a b : 2 ^ (a + b) == 2 ^ a * 2 ^ b.
Proof. apply Qpower_plus. discriminate. Qed.

Lemma pow2_succ a : 2 ^ (a + 1) == 2 * 2 ^ a.
Proof. rewrite pow2_plus. change (2 ^ 1) with 2. ring. Qed.

Lemma pow2_le a b : (a <= b)%Z -> 2 ^ a <= 2 ^ b.
Proof. intro H. apply Qpower_le_compat_l; [exact H | discriminate]. Qed.

Lemma pow2_lt a b : (a < b)%Z -> 2 ^ a < 2 ^ b.
Proof. intro H. apply Qpower_lt_compat_l; [exact H | reflexivity]. Qed.

Lemma pow2_lt_inv a b : 2 ^ a < 2 ^ b -> (a < b)%Z.
Proof.
  intro H. destruct (Z_lt_le_dec a b) as [Hlt | Hge]; [exact Hlt|].
  pose proof (pow2_le b a Hge). lra.
Qed.

Lemma pow2_Z a : (0 <= a)%Z -> inject_Z (2 ^ a) == 2 ^ a.
Proof. intro H. rewrite Zpower_Qpower by exact H. reflexivity. Qed.

Lemma exp_aux x N D P B A :
  P * B == A -> x * D == N -> A <= N < 2 * A -> B <= D < 2 * B -> 0 < P -> 0 < B ->
  0 < x -> P <= 2 * x /\ x < 2 * P.
Proof.
  intros HP HxN HA HB Hp Hb Hx. split.
  - apply Qnot_lt_le. intro Hc.
    assert (P * (2 * B) == 2 * A) by (rewrite <- HP; ring).
    assert (2 * x * D == 2 * N) by (rewrite <- HxN; ring).
    assert (2 * x * D < P * (2 * B)).
    { apply Qmult_lt_compat_nonneg; split; lra. }
    lra.
  - apply Qnot_le_lt. intro Hc.
    assert (2 * P * B <= x * D).
    { apply Qmult_le_compat_nonneg; split; lra. }
    assert (2 * P * B == 2 * A) by (rewrite <- HP; ring).
    lra.
Qed.

Lemma exponent_spec x : 0 < x -> 2 ^ Py.exponent x <= x < 2 ^ (Py.exponent x + 1).
Proof.
  intro Hx. unfold Py.exponent.
  set (n := Qnum x). set (d := Zpos (Qden x)).
  set (a := Z.log2 n). set (b := Z.log2 d).
  assert (Hn : (0 < n)%Z).
  { unfold n. destruct x as [xn xd]. unfold Qlt in Hx. simpl in *. lia. }
  assert (Hd : (0 < d)%Z) by (unfold d; lia).
  pose proof (Z.log2_spec n Hn) as Ha. pose proof (Z.log2_spec d Hd) as Hb.
  fold a in Ha. fold b in Hb.
  pose proof (Z.log2_nonneg n) as Ha0. pose proof (Z.log2_nonneg d) as Hb0.
  fold a in Ha0. fold b in Hb0.
  assert (HxN : x * inject_Z d == inject_Z n).
  { unfold n, d. destruct x as [xn xd]. unfold Qeq, Qmult, inject_Z. simpl. lia. }
  assert (HA : 2 ^ a <= inject_Z n < 2 * 2 ^ a).
  { rewrite <- pow2_succ, <- !pow2_Z by lia. rewrite <- Zle_Qle, <- Zlt_Qlt.
    unfold Z.succ in Ha. exact Ha. }
  assert (HB : 2 ^ b <= inject_Z d < 2 * 2 ^ b).
  { rewrite <- pow2_succ, <- !pow2_Z by lia. rewrite <- Zle_Qle, <- Zlt_Qlt.
    unfold Z.succ in Hb. exact Hb. }
  assert (HP : 2 ^ (a - b) * 2 ^ b == 2 ^ a).
  { rewrite <- pow2_plus. replace (a - b + b)%Z with a by lia. reflexivity. }
  pose proof (pow2_pos (a - b)) as Hp. pose proof (pow2_pos b) as Hpb.
  pose proof (pow2_pos a) as Hpa.
  destruct (exp_aux x (inject_Z n) (inject_Z d) (2 ^ (a - b)) (2 ^ b) (2 ^ a)
              HP HxN HA HB Hp Hpb Hx) as [Hlo Hup].
  destruct (Qle_bool (2 ^ (a - b)) x) eqn:Ht.
  - apply Qle_bool_iff in Ht. rewrite pow2_succ. split; assumption.
  - assert (Hlt : x < 2 ^ (a - b)).
    { apply Qnot_le_lt. intro Hc. apply Qle_bool_iff in Hc. congruence. }
    replace (a - b - 1 + 1)%Z with (a - b)%Z by lia.
    split; [|exact Hlt].
    assert (Hh : 2 ^ (a - b) == 2 * 2 ^ (a - b - 1)).
    { rewrite <- pow2_succ. replace (a - b - 1 + 1)%Z with (a - b)%Z by lia. reflexivity. }
    lra.
Qed.

Lemma exponent_unique x e : 2 ^ e <= x < 2 ^ (e + 1) -> Py.exponent x = e.
Proof.
  intros [H1 H2].
  assert (Hx : 0 < x) by (pose proof (pow2_pos e); lra).
  destruct (exponent_spec x Hx) as [H3 H4].
  assert ((e < Py.exponent x + 1)%Z) by (apply pow2_lt_inv; lra).
  assert ((Py.exponent x < e + 1)%Z) by (apply pow2_lt_inv; lra).
  lia.
Qed.

Lemma exponent_monotone x y : 0 < x -> x <= y -> (Py.exponent x <= Py.exponent y)%Z.
Proof.
  intros Hx Hle.
  destruct (exponent_spec x Hx) as [H1 _].
  destruct (exponent_spec y) as [_ H2]; [lra|].
  assert ((Py.exponent x < Py.exponent y + 1)%Z) by (apply pow2_lt_inv; lra).
  lia.
Qed.

Lemma exponent_comp x y : 0 < x -> x == y -> Py.exponent x = Py.exponent y.
Proof.
  intros Hx H. symmetry. apply exponent_unique.
  destruct (exponent_spec x Hx) as [H1 H2]. split; rewrite <- H; assumption.
Qed.



Lemma mantissa_range x : 0 < x ->
  let e := (Py.exponent x - 52)%Z in
  2 ^ 52 <= x / 2 ^ e < 2 ^ 53.
Proof.
  intros Hx e. destruct (exponent_spec x Hx) as [H1 H2].
  pose proof (pow2_pos e) as He.
  assert (Hlo : 2 ^ Py.exponent x == 2 ^ 52 * 2 ^ e).
  { rewrite <- pow2_plus. unfold e. replace (52 + (Py.exponent x - 52))%Z with (Py.exponent x) by lia.
    reflexivity. }
  assert (Hhi : 2 ^ (Py.exponent x + 1) == 2 ^ 53 * 2 ^ e).
  { rewrite <- pow2_plus. unfold e.
    replace (53 + (Py.exponent x - 52))%Z with (Py.exponent x + 1)%Z by lia. reflexivity. }
  split.
  - apply Qle_shift_div_l; [exact He|]. rewrite <- Hlo. exact H1.
  - apply Qlt_shift_div_r; [exact He|]. rewrite <- Hhi. exact H2.
Qed.

Lemma mantissa_rounded x : 0 < x ->
  let e := (Py.exponent x - 52)%Z in
  (2 ^ 52 <= Py.round_half_even (x / 2 ^ e) <= 2 ^ 53)%Z.
Proof.
  intros Hx e. destruct (mantissa_range x Hx) as [H1 H2]. fold e in H1, H2.
  split.
  - rewrite <- (rhe_Z (2 ^ 52)). apply rhe_monotone. exact H1.
  - rewrite <- (rhe_Z (2 ^ 53)). apply rhe_monotone. apply Qlt_le_weak. exact H2.
Qed.

Lemma fl_pos_range x : 0 < x ->
  let e := (Py.exponent x - 52)%Z in
  2 ^ 52 * 2 ^ e <= Py.fl_pos x <= 2 ^ 53 * 2 ^ e.
Proof.
  intros Hx e. destruct (mantissa_rounded x Hx) as [H1 H2]. fold e in H1, H2.
  pose proof (pow2_pos e) as He. unfold Py.fl_pos. fold e.
  split; (apply Qmult_le_compat_r; [|lra]).
  - change (2 ^ 52) with (inject_Z (2 ^ 52)). rewrite <- Zle_Qle. exact H1.
  - change (2 ^ 53) with (inject_Z (2 ^ 53)). rewrite <- Zle_Qle. exact H2.
Qed.

Lemma fl_pos_positive x : 0 < x -> 0 < Py.fl_pos x.
Proof.
  intro Hx. destruct (fl_pos_range x Hx) as [H _].
  pose proof (pow2_pos (Py.exponent x - 52)).
  assert (0 < 2 ^ 52 * 2 ^ (Py.exponent x - 52)) by (apply Qmult_lt_0_compat; [reflexivity | assumption]).
  lra.
Qed.

(** The rounding error is at most half a unit in the last place, which
    is at most [Py.unit_roundoff] times the value. *)
Lemma fl_pos_error x : 0 < x ->
  x * (1 - Py.unit_roundoff) <= Py.fl_pos x <= x * (1 + Py.unit_roundoff).
Proof.
  intro Hx. set (e := (Py.exponent x - 52)%Z).
  destruct (mantissa_range x Hx) as [H1 _]. fold e in H1.
  pose proof (rhe_error (x / 2 ^ e)) as Hr.
  pose proof (pow2_pos e) as He.
  unfold Py.fl_pos. fold e.
  set (m := x / 2 ^ e) in *. set (M := inject_Z (Py.round_half_even m)) in *.
  assert (Hx' : x == m * 2 ^ e) by (unfold m; field; lra).
  assert (Hu : (1 # 2) <= m * Py.unit_roundoff).
  { assert (2 ^ 52 * Py.unit_roundoff <= m * Py.unit_roundoff) by (apply Qmult_le_compat_r; [exact H1 | discriminate]).
    assert (2 ^ 52 * Py.unit_roundoff == 1 # 2) by reflexivity. lra. }
  split.
  - setoid_replace (x * (1 - Py.unit_roundoff)) with ((m - m * Py.unit_roundoff) * 2 ^ e) by (rewrite Hx'; ring).
    apply Qmult_le_compat_r; lra.
  - setoid_replace (x * (1 + Py.unit_roundoff)) with ((m + m * Py.unit_roundoff) * 2 ^ e) by (rewrite Hx'; ring).
    apply Qmult_le_compat_r; lra.
Qed.

Lemma fl_pos_comp x y : 0 < x -> x == y -> Py.fl_pos x == Py.fl_pos y.
Proof.
  intros Hx H. unfold Py.fl_pos. rewrite <- (exponent_comp x y Hx H).
  rewrite (rhe_comp (x / 2 ^ (Py.exponent x - 52)) (y / 2 ^ (Py.exponent x - 52))).
  - reflexivity.
  - unfold Qdiv. apply Qmult_comp; [exact H | reflexivity].
Qed.

Lemma fl_pos_monotone x y : 0 < x -> x <= y -> Py.fl_pos x <= Py.fl_pos y.
Proof.
  intros Hx Hle. assert (Hy : 0 < y) by lra.
  pose proof (exponent_monotone x y Hx Hle) as He.
  destruct (Z.eq_dec (Py.exponent x) (Py.exponent y)) as [Heq | Hne].
  - unfold Py.fl_pos. rewrite <- Heq.
    pose proof (pow2_pos (Py.exponent x - 52)) as Hp.
    apply Qmult_le_compat_r; [|lra].
    rewrite <- Zle_Qle. apply rhe_monotone.
    apply Qmult_le_compat_r; [exact Hle|].
    apply Qlt_le_weak, Qinv_lt_0_compat. exact Hp.
  - destruct (fl_pos_range x Hx) as [_ H1]. destruct (fl_pos_range y Hy) as [H2 _].
    rewrite <- pow2_plus in H1, H2.
    assert (2 ^ (53 + (Py.exponent x - 52)) <= 2 ^ (52 + (Py.exponent y - 52)))
      by (apply pow2_le; lia).
    lra.
Qed.

Lemma fl_pos_idem x : 0 < x -> Py.fl_pos (Py.fl_pos x) == Py.fl_pos x.
Proof.
  intro Hx. set (e := (Py.exponent x - 52)%Z).
  destruct (mantissa_rounded x Hx) as [H1 H2]. fold e in H1, H2.
  pose proof (pow2_pos e) as He.
  assert (Hy : Py.fl_pos x = inject_Z (Py.round_half_even (x / 2 ^ e)) * 2 ^ e) by reflexivity.
  set (M := Py.round_half_even (x / 2 ^ e)) in *.
  destruct (Z.eq_dec M (2 ^ 53)) as [Htop | Hin].
  - (* the mantissa rounds up to the next power of two *)
    assert (Hval : Py.fl_pos x == 2 ^ (e + 53)).
    { rewrite Hy, Htop, pow2_plus. change (inject_Z (2 ^ 53)) with (2 ^ 53). ring. }
    assert (Hexp : Py.exponent (Py.fl_pos x) = (e + 53)%Z).
    { apply exponent_unique. rewrite Hval. split; [lra | apply pow2_lt; lia]. }
    unfold Py.fl_pos at 1. rewrite Hexp.
    replace (e + 53 - 52)%Z with (e + 1)%Z by lia.
    rewrite (rhe_comp _ (inject_Z (2 ^ 52))).
    + rewrite rhe_Z, Hval. change (inject_Z (2 ^ 52)) with (2 ^ 52).
      rewrite <- pow2_plus. replace (52 + (e + 1))%Z with (e + 53)%Z by lia. reflexivity.
    + rewrite Hval. change (inject_Z (2 ^ 52)) with (2 ^ 52).
      replace (e + 53)%Z with (52 + (e + 1))%Z by lia. rewrite pow2_plus.
      pose proof (pow2_pos (e + 1)). field. lra.
  - assert (Hexp : Py.exponent (Py.fl_pos x) = (e + 52)%Z).
    { apply exponent_unique. rewrite Hy.
      replace (e + 52 + 1)%Z with (53 + e)%Z by lia.
      replace (e + 52)%Z with (52 + e)%Z by lia. rewrite !pow2_plus.
      split.
      - apply Qmult_le_compat_r; [|lra].
        change (2 ^ 52) with (inject_Z (2 ^ 52)). rewrite <- Zle_Qle. exact H1.
      - apply Qmult_lt_compat_r; [exact He|].
        change (2 ^ 53) with (inject_Z (2 ^ 53)). rewrite <- Zlt_Qlt. lia. }
    unfold Py.fl_pos at 1. rewrite Hexp.
    replace (e + 52 - 52)%Z with e by lia.
    rewrite (rhe_comp _ (inject_Z M)).
    + rewrite rhe_Z. rewrite Hy. reflexivity.
    + rewrite Hy. field. lra.
Qed.


Lemma Qred_sign_pos x : 0 < x -> exists p, Qnum (Qred x) = Zpos p.
Proof.
  intro Hx. assert (H : 0 < Qred x) by (rewrite Qred_correct; exact Hx).
  destruct (Qred x) as [[|p|p] d]; unfold Qlt in H; simpl in H; try lia.
  exists p. reflexivity.
Qed.

Lemma Qred_sign_neg x : x < 0 -> exists p, Qnum (Qred x) = Zneg p.
Proof.
  intro Hx. assert (H : Qred x < 0) by (rewrite Qred_correct; exact Hx).
  destruct (Qred x) as [[|p|p] d]; unfold Qlt in H; simpl in H; try lia.
  exists p. reflexivity.
Qed.

Lemma Qred_sign_zero x : x == 0 -> Qnum (Qred x) = 0%Z.
Proof.
  intro Hx. assert (H : Qred x == 0) by (rewrite Qred_correct; exact Hx).
  destruct (Qred x) as [n d]. unfold Qeq in H. simpl in *. lia.
Qed.

Lemma fl_comp x y : x == y -> Py.fl x = Py.fl y.
Proof. intro H. unfold Py.fl. rewrite (Qred_complete x y H). reflexivity. Qed.

Lemma fl_of_zero x : x == 0 -> Py.fl x = 0.
Proof. intro H. unfold Py.fl. rewrite (Qred_sign_zero x H). reflexivity. Qed.

Lemma fl_of_pos x : 0 < x -> Py.fl x == Py.fl_pos x.
Proof.
  intro Hx. unfold Py.fl. destruct (Qred_sign_pos x Hx) as [p ->].
  rewrite Qred_correct. apply fl_pos_comp.
  - rewrite Qred_correct. exact Hx.
  - apply Qred_correct.
Qed.

Lemma fl_of_neg x : x < 0 -> Py.fl x == - Py.fl_pos (- x).
Proof.
  intro Hx. unfold Py.fl. destruct (Qred_sign_neg x Hx) as [p ->].
  rewrite Qred_correct. apply Qopp_comp. apply fl_pos_comp.
  - rewrite Qred_correct. lra.
  - rewrite Qred_correct. reflexivity.
Qed.

Lemma fl_opp x : Py.fl (- x) == - Py.fl x.
Proof.
  destruct (Q_dec x 0) as [[Hneg | Hpos] | Hz].
  - rewrite (fl_of_pos (- x)) by lra. rewrite (fl_of_neg x Hneg). ring.
  - rewrite (fl_of_neg (- x)) by lra. rewrite (fl_of_pos x Hpos).
    apply Qopp_comp. apply fl_pos_comp; [lra | ring].
  - rewrite (fl_of_zero x Hz). rewrite (fl_of_zero (- x)) by (rewrite Hz; reflexivity).
    reflexivity.
Qed.

Lemma fl_positive x : 0 < x -> 0 < Py.fl x.
Proof. intro Hx. rewrite (fl_of_pos x Hx). apply fl_pos_positive. exact Hx. Qed.

Lemma fl_negative x : x < 0 -> Py.fl x < 0.
Proof.
  intro Hx. rewrite (fl_of_neg x Hx).
  assert (0 < Py.fl_pos (- x)) by (apply fl_pos_positive; lra). lra.
Qed.

Lemma fl_nonneg x : 0 <= x -> 0 <= Py.fl x.
Proof.
  intro Hx. destruct (Qlt_le_dec 0 x) as [Hpos | Hz].
  - apply Qlt_le_weak, fl_positive, Hpos.
  - rewrite (fl_of_zero x) by lra. lra.
Qed.

Lemma fl_nonpos x : x <= 0 -> Py.fl x <= 0.
Proof.
  intro Hx. destruct (Qlt_le_dec x 0) as [Hneg | Hz].
  - apply Qlt_le_weak, fl_negative, Hneg.
  - rewrite (fl_of_zero x) by lra. lra.
Qed.

(** Rounding keeps the order. *)
Lemma fl_monotone x y : x <= y -> Py.fl x <= Py.fl y.
Proof.
  intro Hle.
  destruct (Qlt_le_dec 0 x) as [Hx | Hx].
  - rewrite (fl_of_pos x Hx), (fl_of_pos y) by lra. apply fl_pos_monotone; assumption.
  - destruct (Qlt_le_dec 0 y) as [Hy | Hy].
    + pose proof (fl_nonpos x Hx). pose proof (fl_positive y Hy). lra.
    + destruct (Qlt_le_dec y 0) as [Hy' | Hy'].
      * rewrite (fl_of_neg x), (fl_of_neg y) by lra.
        assert (Py.fl_pos (- y) <= Py.fl_pos (- x)) by (apply fl_pos_monotone; lra). lra.
      * rewrite (fl_of_zero y) by lra. apply fl_nonpos. exact Hx.
Qed.

(** The result of an operation is within a relative error [Py.unit_roundoff] of the
    exact result. *)
Lemma fl_error x : 0 <= x -> x * (1 - Py.unit_roundoff) <= Py.fl x <= x * (1 + Py.unit_roundoff).
Proof.
  intro Hx. destruct (Qlt_le_dec 0 x) as [Hpos | Hz].
  - rewrite (fl_of_pos x Hpos). apply fl_pos_error. exact Hpos.
  - assert (H0 : x == 0) by lra. rewrite (fl_of_zero x H0), H0. split; discriminate.
Qed.

(** A float rounds to itself. *)
Lemma fl_idem x : Py.fl (Py.fl x) == Py.fl x.
Proof.
  destruct (Q_dec x 0) as [[Hneg | Hpos] | Hz].
  - pose proof (fl_negative x Hneg) as Hn.
    rewrite (fl_of_neg (Py.fl x) Hn). rewrite (fl_of_neg x Hneg) at 2.
    apply Qopp_comp.
    rewrite (fl_pos_comp (- Py.fl x) (Py.fl_pos (- x))).
    + apply fl_pos_idem. lra.
    + lra.
    + rewrite (fl_of_neg x Hneg). ring.
  - pose proof (fl_positive x Hpos) as Hp.
    rewrite (fl_of_pos (Py.fl x) Hp). rewrite (fl_of_pos x Hpos) at 2.
    rewrite (fl_pos_comp (Py.fl x) (Py.fl_pos x) Hp (fl_of_pos x Hpos)).
    apply fl_pos_idem. exact Hpos.
  - rewrite (fl_of_zero x Hz). reflexivity.
Qed.


Lemma is_float_true x : is_float x = true <-> Py.fl x == x.
Proof. unfold is_float. apply Qeq_bool_iff. Qed.

Lemma is_float_fl x : is_float (Py.fl x) = true.
Proof. apply is_float_true, fl_idem. Qed.

Lemma fl_float x : is_float x = true -> Py.fl x == x.
Proof. apply is_float_true. Qed.

(** Adding something that is not negative to a float does not make it
    smaller, rounding included. *)
Lemma fadd_grows t d : is_float t = true -> 0 <= d -> t <= Py.fadd t d.
Proof.
  intros Ht Hd. apply is_float_true in Ht. rewrite <- Ht at 1.
  apply fl_monotone. lra.
Qed.

Lemma fsum_app xs ys : Py.fsum (xs ++ ys) = fold_left Py.fadd ys (Py.fsum xs).
Proof. unfold Py.fsum. apply fold_left_app. Qed.

Lemma fsum_snoc xs x : Py.fsum (xs ++ [x]) = Py.fadd (Py.fsum xs) x.
Proof. rewrite fsum_app. reflexivity. Qed.

Lemma fsum_float xs : is_float (Py.fsum xs) = true.
Proof.
  destruct xs as [|x xs] using rev_ind.
  - reflexivity.
  - rewrite fsum_snoc. apply is_float_fl.
Qed.

Lemma fsum_nonneg xs : (forall x, In x xs -> 0 <= x) -> 0 <= Py.fsum xs.
Proof.
  induction xs as [|x xs IH] using rev_ind; intro H.
  - unfold Py.fsum. simpl. lra.
  - rewrite fsum_snoc. apply fl_nonneg.
    assert (0 <= Py.fsum xs) by (apply IH; intros y Hy; apply H, in_or_app; left; exact Hy).
    assert (0 <= x) by (apply H, in_or_app; right; left; reflexivity).
    lra.
Qed.

Lemma npow_pos x n : 0 < x -> 0 < npow x n.
Proof.
  intro Hx. induction n as [|n IH]; simpl; [reflexivity|].
  apply Qmult_lt_0_compat; assumption.
Qed.

Lemma npow_le_1 x n : 0 <= x -> x <= 1 -> npow x n <= 1.
Proof.
  intros H0 H1. induction n as [|n IH]; simpl; [lra|].
  assert (0 <= npow x n).
  { clear IH. induction n as [|n IHn]; simpl; [lra|]. apply Qmult_le_0_compat; assumption. }
  assert (x * npow x n <= 1 * 1) by (apply Qmult_le_compat_nonneg; split; assumption).
  lra.
Qed.

Lemma npow_ge_1 x n : 1 <= x -> 1 <= npow x n.
Proof.
  intro H1. induction n as [|n IH]; simpl; [lra|].
  apply Qmult_le_1_compat; assumption.
Qed.

Lemma npow_add x j k : npow x (j + k) == npow x j * npow x k.
Proof.
  induction j as [|j IH]; simpl; [ring|]. rewrite IH. ring.
Qed.

Lemma down_pos k : 0 < npow (1 - Py.unit_roundoff) k.
Proof. apply npow_pos. reflexivity. Qed.

Lemma down_le_1 k : npow (1 - Py.unit_roundoff) k <= 1.
Proof. apply npow_le_1; discriminate. Qed.

Lemma up_ge_1 k : 1 <= npow (1 + Py.unit_roundoff) k.
Proof. apply npow_ge_1. discriminate. Qed.

Lemma up_pos k : 0 < npow (1 + Py.unit_roundoff) k.
Proof. pose proof (up_ge_1 k). lra. Qed.

Lemma up_bound x k : 0 <= x -> x <= x * npow (1 + Py.unit_roundoff) k.
Proof.
  intro Hx. pose proof (up_ge_1 k) as H. revert H.
  generalize (npow (1 + Py.unit_roundoff) k). intros c Hc.
  assert (x * 1 <= x * c) by (apply Qmult_le_compat_nonneg; split; lra).
  lra.
Qed.

Lemma down_bound x k : 0 <= x -> x * npow (1 - Py.unit_roundoff) k <= x.
Proof.
  intro Hx. pose proof (down_le_1 k) as H. pose proof (down_pos k) as H0. revert H H0.
  generalize (npow (1 - Py.unit_roundoff) k). intros c Hc Hc0.
  assert (x * c <= x * 1) by (apply Qmult_le_compat_nonneg; split; lra).
  lra.
Qed.

Lemma le_upto_of_le k x y : 0 <= x -> x <= y -> le_upto k x y.
Proof.
  intros Hx Hle. unfold le_upto.
  pose proof (down_pos k). pose proof (down_le_1 k). pose proof (up_ge_1 k).
  assert (x * npow (1 - Py.unit_roundoff) k <= x * 1) by (apply Qmult_le_compat_nonneg; split; lra).
  assert (y * 1 <= y * npow (1 + Py.unit_roundoff) k) by (apply Qmult_le_compat_nonneg; split; lra).
  lra.
Qed.

Lemma le_upto_refl k x : 0 <= x -> le_upto k x x.
Proof. intro Hx. apply le_upto_of_le; lra. Qed.

Lemma le_upto_trans j k x y z :
  le_upto j x y -> le_upto k y z -> le_upto (j + k) x z.
Proof.
  unfold le_upto. intros H1 H2. rewrite !npow_add.
  pose proof (down_pos k). pose proof (up_pos j).
  assert (x * npow (1 - Py.unit_roundoff) j * npow (1 - Py.unit_roundoff) k <= y * npow (1 + Py.unit_roundoff) j * npow (1 - Py.unit_roundoff) k)
    by (apply Qmult_le_compat_r; lra).
  assert (y * npow (1 - Py.unit_roundoff) k * npow (1 + Py.unit_roundoff) j <= z * npow (1 + Py.unit_roundoff) k * npow (1 + Py.unit_roundoff) j)
    by (apply Qmult_le_compat_r; lra).
  lra.
Qed.

Lemma le_upto_weaken j k x y :
  (j <= k)%nat -> 0 <= x -> 0 <= y -> le_upto j x y -> le_upto k x y.
Proof.
  intros Hjk Hx Hy H. replace k with (j + (k - j))%nat by lia.
  apply (le_upto_trans j (k - j) x y y); [exact H | apply le_upto_refl; exact Hy].
Qed.

Lemma le_upto_add k x y x' y' :
  le_upto k x y -> le_upto k x' y' -> le_upto k (x + x') (y + y').
Proof. unfold le_upto. intros H1 H2. lra. Qed.

Lemma le_upto_scale k c x y : 0 <= c -> le_upto k x y -> le_upto k (x * c) (y * c).
Proof.
  unfold le_upto. intros Hc H.
  assert (x * npow (1 - Py.unit_roundoff) k * c <= y * npow (1 + Py.unit_roundoff) k * c)
    by (apply Qmult_le_compat_r; assumption).
  lra.
Qed.

(** One rounding. *)
Lemma le_upto_fl_r x : 0 <= x -> le_upto 1 x (Py.fl x).
Proof.
  intro Hx. unfold le_upto. simpl. destruct (fl_error x Hx) as [H1 _].
  pose proof (fl_nonneg x Hx) as H0.
  assert (Py.fl x * 1 <= Py.fl x * (1 + Py.unit_roundoff)) by (apply Qmult_le_compat_nonneg; split; [lra | lra | discriminate | discriminate]).
  lra.
Qed.

Lemma le_upto_fl_l x : 0 <= x -> le_upto 1 (Py.fl x) x.
Proof.
  intro Hx. unfold le_upto. simpl. destruct (fl_error x Hx) as [_ H2].
  pose proof (fl_nonneg x Hx) as H0.
  assert (Py.fl x * (1 - Py.unit_roundoff) <= x * (1 + Py.unit_roundoff) * (1 - Py.unit_roundoff)).
  { apply Qmult_le_compat_r; [exact H2 | discriminate]. }
  assert (x * (1 + Py.unit_roundoff) * (1 - Py.unit_roundoff) <= x * 1).
  { setoid_replace (x * (1 + Py.unit_roundoff) * (1 - Py.unit_roundoff)) with (x * ((1 + Py.unit_roundoff) * (1 - Py.unit_roundoff))) by ring.
    apply Qmult_le_compat_nonneg; split; [lra | lra | discriminate | discriminate]. }
  assert (x * 1 <= x * (1 + Py.unit_roundoff)) by (apply Qmult_le_compat_nonneg; split; [lra | lra | discriminate | discriminate]).
  lra.
Qed.

Lemma close_refl k x : 0 <= x -> close k x x.
Proof. intro Hx. split; apply le_upto_refl; exact Hx. Qed.

Lemma close_sym k x y : close k x y -> close k y x.
Proof. intros [H1 H2]. split; assumption. Qed.

Lemma close_trans j k x y z : close j x y -> close k y z -> close (j + k) x z.
Proof.
  intros [H1 H2] [H3 H4]. split.
  - apply (le_upto_trans j k x y z); assumption.
  - replace (j + k)%nat with (k + j)%nat by lia.
    apply (le_upto_trans k j z y x); assumption.
Qed.

Lemma close_weaken j k x y :
  (j <= k)%nat -> 0 <= x -> 0 <= y -> close j x y -> close k x y.
Proof. intros Hjk Hx Hy [H1 H2]. split; apply (le_upto_weaken j k); assumption. Qed.

Lemma close_add k x y x' y' : close k x y -> close k x' y' -> close k (x + x') (y + y').
Proof. intros [H1 H2] [H3 H4]. split; apply le_upto_add; assumption. Qed.

Lemma close_scale k c x y : 0 <= c -> close k x y -> close k (x * c) (y * c).
Proof. intros Hc [H1 H2]. split; apply le_upto_scale; assumption. Qed.

Lemma close_fl x : 0 <= x -> close 1 x (Py.fl x).
Proof. intro Hx. split; [apply le_upto_fl_r | apply le_upto_fl_l]; exact Hx. Qed.

Lemma close_comp k x x' y y' : x == x' -> y == y' -> close k x y -> close k x' y'.
Proof. unfold close, le_upto. intros Hx Hy [H1 H2]. rewrite <- Hx, <- Hy. split; assumption. Qed.

(** Dividing by two numbers that agree up to [k] roundings. *)
Lemma close_div k d r s : 0 <= d -> 0 < r -> 0 < s -> close k r s -> close k (d / r) (d / s).
Proof.
  intros Hd Hr Hs [H1 H2]. unfold close, le_upto in *.
  assert (Hc : 0 <= d / (r * s)).
  { apply Qle_shift_div_l; [apply Qmult_lt_0_compat; assumption | lra]. }
  split.
  - setoid_replace (d / r * npow (1 - Py.unit_roundoff) k) with (s * npow (1 - Py.unit_roundoff) k * (d / (r * s)))
      by (field; split; lra).
    setoid_replace (d / s * npow (1 + Py.unit_roundoff) k) with (r * npow (1 + Py.unit_roundoff) k * (d / (r * s)))
      by (field; split; lra).
    apply Qmult_le_compat_r; assumption.
  - setoid_replace (d / s * npow (1 - Py.unit_roundoff) k) with (r * npow (1 - Py.unit_roundoff) k * (d / (r * s)))
      by (field; split; lra).
    setoid_replace (d / r * npow (1 + Py.unit_roundoff) k) with (s * npow (1 + Py.unit_roundoff) k * (d / (r * s)))
      by (field; split; lra).
    apply Qmult_le_compat_r; assumption.
Qed.

Lemma sum_snoc xs x : Py.sum (xs ++ [x]) == Py.sum xs + x.
Proof. unfold Py.sum. rewrite fold_left_app. reflexivity. Qed.

Lemma sum_nonneg xs : (forall x, In x xs -> 0 <= x) -> 0 <= Py.sum xs.
Proof.
  induction xs as [|x xs IH] using rev_ind; intro H.
  - unfold Py.sum. simpl. lra.
  - rewrite sum_snoc.
    assert (0 <= Py.sum xs) by (apply IH; intros y Hy; apply H, in_or_app; left; exact Hy).
    assert (0 <= x) by (apply H, in_or_app; right; left; reflexivity).
    lra.
Qed.

Lemma fsum_positive xs : xs <> [] -> (forall x, In x xs -> 0 < x) -> 0 < Py.fsum xs.
Proof.
  destruct xs as [|x xs] using rev_ind; [congruence|]. intros _ H.
  rewrite fsum_snoc. apply fl_positive.
  assert (0 <= Py.fsum xs).
  { apply fsum_nonneg. intros y Hy. apply Qlt_le_weak, H, in_or_app. left. exact Hy. }
  assert (0 < x) by (apply H, in_or_app; right; left; reflexivity).
  lra.
Qed.

(** The float sum of [n] numbers that are not negative agrees with their
    exact sum up to [n] roundings. *)
Lemma fsum_close xs :
  (forall x, In x xs -> 0 <= x) -> close (List.length xs) (Py.sum xs) (Py.fsum xs).
Proof.
  induction xs as [|x xs IH] using rev_ind; intro H.
  - apply close_refl. discriminate.
  - assert (Hxs : forall y, In y xs -> 0 <= y)
      by (intros y Hy; apply H, in_or_app; left; exact Hy).
    assert (Hx : 0 <= x) by (apply H, in_or_app; right; left; reflexivity).
    pose proof (sum_nonneg xs Hxs) as Hs. pose proof (fsum_nonneg xs Hxs) as Hf.
    rewrite fsum_snoc, length_app. cbn [List.length].
    apply (close_comp _ (Py.sum xs + x) _ (Py.fadd (Py.fsum xs) x) _);
      [symmetry; apply sum_snoc | reflexivity |].
    apply (close_trans _ 1 _ (Py.fsum xs + x)).
    + apply close_add; [apply IH; exact Hxs | apply close_refl; exact Hx].
    + apply close_fl. lra.
Qed.

End Rounding.

(** ** Duration Budget Resolver *)

Section EffectiveDuration.

Import Generate.



End EffectiveDuration.

(** ** Clip Selector *)

Section ClipSelector.

Import Edit.

Variable w : World.
Variable E : Q.

Lemma safe_probe_run p st :
  _safe_probe_duration w p st
  = (Ok (match probe w p with Ok d => Py.or_zero d | Raise _ => 0 end),
     {| fs := fs st; trace := trace st ++ [EvProbe p] |}).
Proof.
  unfold _safe_probe_duration, bind, emit, ret. simpl.
  destruct (probe w p); reflexivity.
Qed.

Lemma safe_probe_positive p :
  0 < match probe w p with Ok d => Py.or_zero d | Raise _ => 0 end
  <-> readable w p = true.
Proof.
  unfold readable. destruct (probe w p) as [d|e].
  - rewrite ltb_true, or_zero_eq. reflexivity.
  - split; [lra | discriminate].
Qed.

Lemma probed_positive p : 0 < probed w p <-> readable w p = true.
Proof. apply safe_probe_positive. Qed.

Lemma running_total_snoc visuals p d :
  running_total (visuals ++ [selected p d]) = Py.fadd (running_total visuals) d.
Proof. unfold running_total. rewrite map_app. apply fsum_snoc. Qed.

Lemma running_total_float visuals : is_float (running_total visuals) = true.
Proof. apply fsum_float. Qed.

(** While the budget is not reached the duration assigned is positive. *)
Lemma assigned_positive total d : 0 < d -> total < E -> 0 < assigned E total d.
Proof.
  intros Hd Hlt. unfold assigned.
  destruct (Py.ltb E (Py.fadd total d)); [|exact Hd].
  assert (Hgap : 0 < Py.fsub E total) by (apply fl_positive; lra).
  unfold Py.max. rewrite (proj2 (ltb_true _ _) Hgap). exact Hgap.
Qed.

(** The running total after one more clip stays within two roundings of
    the budget: one for the trimmed duration, one for the addition. *)
Lemma assigned_bound total d :
  0 <= total -> total < E -> 0 < d ->
  Py.fadd total (assigned E total d) <= E * npow (1 + Py.unit_roundoff) 2.
Proof.
  intros H0 Hlt Hd. unfold assigned.
  assert (HE : 0 < E) by lra.
  assert (Hup : E <= E * npow (1 + Py.unit_roundoff) 2) by (apply up_bound; lra).
  destruct (Py.ltb E (Py.fadd total d)) eqn:Ht.
  - assert (Hgap : 0 < Py.fsub E total) by (apply fl_positive; lra).
    unfold Py.max. rewrite (proj2 (ltb_true _ _) Hgap).
    destruct (fl_error (E - total)) as [_ Hr]; [lra|].
    fold (Py.fsub E total) in Hr.
    assert (Hu : (E - total) * Py.unit_roundoff <= E * Py.unit_roundoff).
    { apply Qmult_le_compat_r; [lra | discriminate]. }
    assert (Hpre : total + Py.fsub E total <= E * (1 + Py.unit_roundoff)) by lra.
    destruct (fl_error (total + Py.fsub E total)) as [_ Hr2]; [lra|].
    fold (Py.fadd total (Py.fsub E total)) in Hr2.
    assert ((total + Py.fsub E total) * (1 + Py.unit_roundoff)
            <= E * (1 + Py.unit_roundoff) * (1 + Py.unit_roundoff)).
    { apply Qmult_le_compat_r; [exact Hpre | discriminate]. }
    simpl. lra.
  - apply ltb_false in Ht. lra.
Qed.

(** One turn of the loop on a candidate that is not readable. *)
Lemma pick_loop_skip p rest visuals total st :
  readable w p = false ->
  pick_loop w E (p :: rest) visuals total st
  = pick_loop w E rest visuals total {| fs := fs st; trace := trace st ++ [EvProbe p] |}.
Proof.
  intro Hr. cbn [pick_loop]. unfold bind at 1. rewrite safe_probe_run. fold (probed w p).
  assert (Hd : Py.leb (probed w p) 0 = true).
  { apply leb_true. apply Qnot_lt_le. intro Hpos.
    apply probed_positive in Hpos. congruence. }
  rewrite Hd. reflexivity.
Qed.

(** One turn of the loop on a readable candidate, below the budget. *)
Lemma pick_loop_take p rest visuals st :
  readable w p = true -> running_total visuals < E ->
  pick_loop w E (p :: rest) visuals (running_total visuals) st
  = let visuals' :=
      visuals ++ [selected p (assigned E (running_total visuals) (probed w p))] in
    let st1 := {| fs := fs st; trace := trace st ++ [EvProbe p] |} in
    if Py.leb E (running_total visuals') then (Ok visuals', st1)
    else pick_loop w E rest visuals' (running_total visuals') st1.
Proof.
  intros Hr Hlt. cbn [pick_loop]. unfold bind at 1. rewrite safe_probe_run. fold (probed w p).
  apply probed_positive in Hr.
  rewrite (proj2 (leb_false _ _) Hr).
  fold (assigned E (running_total visuals) (probed w p)).
  pose proof (assigned_positive (running_total visuals) (probed w p) Hr Hlt) as Hpos.
  rewrite (proj2 (leb_false _ _) Hpos).
  rewrite running_total_snoc. unfold selected, ret.
  destruct (Py.leb E _); reflexivity.
Qed.

Lemma removelast_cons {A} (x : A) l : l <> [] -> removelast (x :: l) = x :: removelast l.
Proof. destruct l; [congruence | reflexivity]. Qed.

(** Invariant of the loop: it appends readable candidates with positive
    durations; the running total never shrinks, is below the budget before
    the last clip and at most two roundings above it after. *)
Lemma pick_loop_invariant :
  forall clip_paths visuals st,
    0 <= running_total visuals -> running_total visuals < E ->
    exists new st',
      pick_loop w E clip_paths visuals (running_total visuals) st
      = (Ok (visuals ++ new), st') /\
      (forall sc, In sc new ->
         0 < duration sc /\ In (path sc) clip_paths /\ readable w (path sc) = true) /\
      ((exists p, In p clip_paths /\ readable w p = true) -> new <> []) /\
      running_total visuals <= running_total (visuals ++ new) /\
      running_total (visuals ++ new) <= E * npow (1 + Py.unit_roundoff) 2 /\
      running_total (visuals ++ removelast new) < E.
Proof.
  induction clip_paths as [|p rest IH]; intros visuals st H0 Hlt.
  - exists [], st. rewrite !app_nil_r. cbn [removelast].
    split; [reflexivity|]. split; [intros sc []|].
    split; [intros (q & [] & _)|]. split; [lra|]. split; [|exact Hlt].
    apply Qle_trans with E; [lra | apply up_bound; lra].
  - destruct (readable w p) eqn:Hr.
    + rewrite (pick_loop_take p rest visuals st Hr Hlt). cbv zeta.
      pose proof (proj2 (probed_positive p) Hr) as Hd.
      set (d := assigned E (running_total visuals) (probed w p)).
      set (st1 := {| fs := fs st; trace := trace st ++ [EvProbe p] |}).
      pose proof (assigned_positive (running_total visuals) (probed w p) Hd Hlt) as Hpos.
      pose proof (assigned_bound (running_total visuals) (probed w p) H0 Hlt Hd) as Hbound.
      fold d in Hpos, Hbound.
      assert (Hgrow : running_total visuals <= running_total (visuals ++ [selected p d])).
      { rewrite running_total_snoc. apply fadd_grows; [apply running_total_float | lra]. }
      rewrite <- running_total_snoc with (p := p) in Hbound.
      destruct (Py.leb E (running_total (visuals ++ [selected p d]))) eqn:Hfull.
      * exists [selected p d], st1.
        split; [reflexivity|]. split.
        { intros sc [<- | []]. split; [exact Hpos|]. split; [left; reflexivity | exact Hr]. }
        split; [discriminate|]. split; [exact Hgrow|]. split; [exact Hbound|].
        simpl. rewrite app_nil_r. exact Hlt.
      * apply leb_false in Hfull.
        destruct (IH (visuals ++ [selected p d]) st1)
          as (new & st' & Hrun & Hin & _ & Hmono & Hb & Hlast);
          [lra | exact Hfull |].
        rewrite <- app_assoc in Hrun, Hmono, Hb. cbn [app] in Hrun, Hmono, Hb.
        exists (selected p d :: new), st'.
        split; [exact Hrun|]. split.
        { intros sc [<- | H].
          - split; [exact Hpos|]. split; [left; reflexivity | exact Hr].
          - destruct (Hin sc H) as (H1 & H2 & H3).
            split; [exact H1|]. split; [right; exact H2 | exact H3]. }
        split; [discriminate|]. split; [lra|]. split; [exact Hb|].
        destruct new as [|sc new'].
        -- simpl. rewrite app_nil_r. exact Hlt.
        -- rewrite removelast_cons by discriminate.
           rewrite <- app_assoc in Hlast. exact Hlast.
    + rewrite (pick_loop_skip p rest visuals _ st Hr).
      destruct (IH visuals {| fs := fs st; trace := trace st ++ [EvProbe p] |} H0 Hlt)
        as (new & st' & Hrun & Hin & Hne & Hmono & Hb & Hlast).
      exists new, st'.
      split; [exact Hrun|]. split.
      { intros sc H. destruct (Hin sc H) as (H1 & H2 & H3).
        split; [exact H1|]. split; [right; exact H2 | exact H3]. }
      split.
      { intros (q & [Hq | Hq] & Hrq).
        - subst q. congruence.
        - apply Hne. exists q. split; assumption. }
      split; [exact Hmono|]. split; [exact Hb | exact Hlast].
Qed.

(** C1, as amended. For every ordered candidate list and every budget
    [E > 0], [pick_visuals] returns a list whose assigned durations, added
    up in floats as the code adds them, sum to less than [E] before the
    last clip and to at most [E] times [(1 + 2^-53)^2] with it: the sum
    exceeds [E] by two roundings at most. The sum is positive as soon as
    one candidate is readable; and every clip of the result is a candidate
    whose probe returned a positive duration, so no candidate whose probe
    returned a duration [<= 0] or raised is in it. *)
Theorem pick_visuals_within_budget (clip_paths : list Path) (st : State) :
  0 < E ->
  exists visuals st',
    pick_visuals w clip_paths E st = (Ok visuals, st') /\
    running_total (removelast visuals) < E /\
    running_total visuals <= E * npow (1 + Py.unit_roundoff) 2 /\
    ((exists p, In p clip_paths /\ readable w p = true) ->
     0 < running_total visuals) /\
    (forall sc, In sc visuals ->
       In (path sc) clip_paths /\ readable w (path sc) = true).
Proof.
  intro HE. unfold pick_visuals.
  destruct (pick_loop_invariant clip_paths [] st)
    as (res & st' & Hrun & Hin & Hne & _ & Hb & Hlast).
  - discriminate.
  - exact HE.
  - exists res, st'.
    split; [exact Hrun|]. split; [exact Hlast|]. split; [exact Hb|]. split.
    + intro Hsome. apply fsum_positive.
      * intro Hnil. apply map_eq_nil in Hnil. exact (Hne Hsome Hnil).
      * intros x Hx. apply in_map_iff in Hx. destruct Hx as (sc & <- & Hsc).
        apply (Hin sc Hsc).
    + intros sc H. destruct (Hin sc H) as (_ & H2 & H3). split; assumption.
Qed.

End ClipSelector.

Section ClipSelectorScenario.

Import Edit.

(** The run of C1 on the example subject, whose third file is unreadable. *)
Lemma pick_visuals_within_budget_witness :
  exists visuals st',
    pick_visuals Example.world Example.listing 50 Example.start
    = (Ok visuals, st') /\
    running_total (removelast visuals) < 50 /\
    running_total visuals <= 50 * npow (1 + Py.unit_roundoff) 2 /\
    ((exists p, In p Example.listing /\ readable Example.world p = true) ->
     0 < running_total visuals) /\
    (forall sc, In sc visuals ->
       In (path sc) Example.listing /\ readable Example.world (path sc) = true).
Proof.
  apply (pick_visuals_within_budget Example.world 50 Example.listing Example.start).
  reflexivity.
Defined.

(** C1 as first stated fails by a rounding: with a budget of 20.12 s and
    clips of 4.1 s and 24.63 s, the second clip is cut to the float nearest
    to 20.12 - 4.1, which is 16.020000000000003, and the durations sum to
    20.120000000000005, in floats and exactly, which is more than the
    budget. *)
Lemma pick_visuals_rounds_above_budget :
  let E := Py.fl (2012 # 100) in
  exists visuals st',
    0 < E /\
    pick_visuals Scenario.uneven_world [Example.clip "a.mp4"; Example.clip "b.mp4"] E
      Example.start
    = (Ok visuals, st') /\
    map duration visuals = [Py.fl (41 # 10); 2254614563452355 # 140737488355328] /\
    ~ running_total visuals <= E /\
    ~ total_duration visuals <= E.
Proof.
  eexists. eexists. split; [vm_compute; reflexivity|].
  split; [vm_compute; reflexivity|].
  split; [vm_compute; reflexivity|].
  split; vm_compute; intro H; apply H; reflexivity.
Qed.

Lemma or_zero_id x : ~ x == 0 -> Py.or_zero x = x.
Proof.
  intro H. unfold Py.or_zero, Py.truthy.
  destruct (Qeq_bool x 0) eqn:E; [|reflexivity].
  apply Qeq_bool_iff in E. contradiction.
Qed.

(** C8. Three readable candidates of 20 s each and a budget of 40 s: the
    first two are taken whole, the running total reaches 40 s, and the loop
    stops; the only probes of the run are those of the first two
    candidates, so the third is never opened. *)
Theorem pick_visuals_three_clips (w : World) (c1 c2 c3 : Path) (d1 d2 d3 : Q)
  (st : State) :
  probe w c1 = Ok d1 -> probe w c2 = Ok d2 -> probe w c3 = Ok d3 ->
  d1 == 20 -> d2 == 20 -> d3 == 20 ->
  pick_visuals w [c1; c2; c3] 40 st
  = (Ok [selected c1 d1; selected c2 d2],
     {| fs := fs st; trace := trace st ++ [EvProbe c1; EvProbe c2] |}) /\
  total_duration [selected c1 d1; selected c2 d2] == 40.
Proof.
  intros P1 P2 P3 H1 H2 H3.
  assert (Z1 : Py.or_zero d1 = d1) by (apply or_zero_id; lra).
  assert (Z2 : Py.or_zero d2 = d2) by (apply or_zero_id; lra).
  assert (F1 : Py.fadd 0 d1 = 20).
  { unfold Py.fadd. rewrite (fl_comp (0 + d1) 20) by lra. vm_compute. reflexivity. }
  assert (F2 : Py.fadd 20 d2 = 40).
  { unfold Py.fadd. rewrite (fl_comp (20 + d2) 40) by lra. vm_compute. reflexivity. }
  assert (Pr1 : probed w c1 = d1) by (unfold probed; rewrite P1; exact Z1).
  assert (Pr2 : probed w c2 = d2) by (unfold probed; rewrite P2; exact Z2).
  assert (R1 : readable w c1 = true)
    by (unfold readable; rewrite P1; apply ltb_true; lra).
  assert (R2 : readable w c2 = true)
    by (unfold readable; rewrite P2; apply ltb_true; lra).
  assert (T1 : running_total ([] ++ [selected c1 d1]) = 20)
    by (rewrite running_total_snoc; exact F1).
  assert (T2 : running_total (([] ++ [selected c1 d1]) ++ [selected c2 d2]) = 40)
    by (rewrite running_total_snoc, T1; exact F2).
  assert (A1 : assigned 40 (running_total []) d1 = d1).
  { unfold assigned. change (running_total []) with 0. rewrite F1. reflexivity. }
  assert (A2 : assigned 40 (running_total ([] ++ [selected c1 d1])) d2 = d2).
  { unfold assigned. rewrite T1, F2. reflexivity. }
  split.
  - unfold pick_visuals.
    change (pick_loop w 40 [c1; c2; c3] [] (running_total []) st
            = (Ok [selected c1 d1; selected c2 d2],
               {| fs := fs st; trace := trace st ++ [EvProbe c1; EvProbe c2] |})).
    rewrite (pick_loop_take w 40 c1 [c2; c3] [] st R1) by reflexivity.
    cbv zeta. rewrite Pr1, A1, T1. change (Py.leb 40 20) with false. cbv iota.
    rewrite <- T1.
    rewrite (pick_loop_take w 40 c2 [c3] ([] ++ [selected c1 d1]) _ R2)
      by (rewrite T1; reflexivity).
    cbv zeta. rewrite Pr2, A2, T2. change (Py.leb 40 40) with true. cbv iota.
    cbn [fs trace app]. rewrite <- app_assoc. reflexivity.
  - unfold total_duration, Py.sum. simpl. lra.
Qed.

Lemma pick_visuals_three_clips_witness :
  pick_visuals Example.world
    [Example.clip "a.mp4"; Example.clip "b.mp4"; Example.clip "c.mp4"] 40 Example.start
  = (Ok [selected (Example.clip "a.mp4") 20; selected (Example.clip "b.mp4") 20],
     {| fs := Example.disk;
        trace := [EvProbe (Example.clip "a.mp4"); EvProbe (Example.clip "b.mp4")] |}).
Proof.
  apply (pick_visuals_three_clips Example.world
           (Example.clip "a.mp4") (Example.clip "b.mp4") (Example.clip "c.mp4")
           20 20 20 Example.start);
    reflexivity.
Defined.

End ClipSelectorScenario.

(** ** Subtitle Timing Engine *)

Section Strip.

Lemma lstrip_idem s : Py.lstrip (Py.lstrip s) = Py.lstrip s.
Proof.
  induction s as [|c r IH]; simpl; [reflexivity|].
  destruct (Py.isspace c) eqn:E; [exact IH|]. simpl. rewrite E. reflexivity.
Qed.

Lemma lstrip_keeps_last l c :
  Py.isspace c = false -> exists l', Py.lstrip (l ++ [c]) = l' ++ [c].
Proof.
  intro Hc. induction l as [|x l IH]; simpl.
  - rewrite Hc. exists []. reflexivity.
  - destruct (Py.isspace x).
    + exact IH.
    + exists (x :: l). reflexivity.
Qed.

Lemma rstrip_keeps_head c r :
  Py.isspace c = false -> exists r', Py.rstrip (c :: r) = c :: r'.
Proof.
  intro Hc. unfold Py.rstrip. simpl.
  destruct (lstrip_keeps_last (rev r) c Hc) as [l' Hl'].
  rewrite Hl', rev_app_distr. simpl. exists (rev l'). reflexivity.
Qed.

Lemma rstrip_idem s : Py.rstrip (Py.rstrip s) = Py.rstrip s.
Proof. unfold Py.rstrip. rewrite rev_involutive, lstrip_idem. reflexivity. Qed.

Lemma lstrip_head s :
  Py.lstrip s = [] \/ exists c r, Py.lstrip s = c :: r /\ Py.isspace c = false.
Proof.
  induction s as [|c r IH]; simpl.
  - left. reflexivity.
  - destruct (Py.isspace c) eqn:E; [exact IH|].
    right. exists c, r. split; [reflexivity | exact E].
Qed.

(** [strip] is idempotent: what [split_sentences] returns is already
    stripped. *)
Lemma strip_idem s : Py.strip (Py.strip s) = Py.strip s.
Proof.
  unfold Py.strip.
  destruct (lstrip_head s) as [Hnil | (c & r & Hs & Hc)].
  - rewrite Hnil. reflexivity.
  - rewrite Hs. destruct (rstrip_keeps_head c r Hc) as [r' Hr'].
    rewrite Hr'. simpl. rewrite Hc. rewrite <- Hr'. apply rstrip_idem.
Qed.

Lemma split_sentences_stripped script s :
  In s (Subtitles.split_sentences script) ->
  Subtitles.nonempty (Py.strip s) = true.
Proof.
  unfold Subtitles.split_sentences. intro H.
  apply in_map_iff in H. destruct H as (p & <- & Hp).
  apply filter_In in Hp. destruct Hp as [_ Hp].
  rewrite strip_idem. exact Hp.
Qed.

End Strip.

Section SentenceDurations.

Import Subtitles.

Lemma raw_duration_ge_1 s : 1 <= raw_duration s.
Proof.
  unfold raw_duration, Py.max.
  destruct (Py.ltb 1 _) eqn:E.
  - apply ltb_true in E. lra.
  - lra.
Qed.

Lemma sum_scale k xs : Py.sum (map (fun d => d * k) xs) == Py.sum xs * k.
Proof.
  induction xs as [|x xs IH]; simpl.
  - unfold Py.sum. simpl. lra.
  - rewrite !sum_cons, IH. lra.
Qed.

Lemma sum_raw_positive sentences :
  sentences <> [] -> 0 < Py.sum (map raw_duration sentences).
Proof.
  destruct sentences as [|s rest]; [congruence|]. intros _.
  cbn [map]. rewrite sum_cons.
  assert (H : 0 <= Py.sum (map raw_duration rest)).
  { apply sum_nonneg. intros x Hx. apply in_map_iff in Hx.
    destruct Hx as (y & <- & _). pose proof (raw_duration_ge_1 y). lra. }
  pose proof (raw_duration_ge_1 s). lra.
Qed.

(** The float total of the raw durations, as [sum(raw)] computes it. *)
Lemma raw_total_positive sentences :
  sentences <> [] -> 0 < Py.fsum (map raw_duration sentences).
Proof.
  intro Hne. apply fsum_positive.
  - intro Hnil. apply map_eq_nil in Hnil. contradiction.
  - intros x Hx. apply in_map_iff in Hx. destruct Hx as (y & <- & _).
    pose proof (raw_duration_ge_1 y). lra.
Qed.

(** With at least one sentence the raw total is positive, so the even
    split is never taken and every raw duration is scaled. *)
Lemma estimate_scaled sentences D :
  sentences <> [] ->
  estimate_sentence_durations sentences D
  = map (fun d => Py.fmul d (Py.fdiv D (Py.fsum (map raw_duration sentences))))
        (map raw_duration sentences).
Proof.
  intro Hne. pose proof (raw_total_positive sentences Hne) as Hpos.
  unfold estimate_sentence_durations.
  destruct sentences as [|s rest]; [congruence|].
  apply leb_false in Hpos. rewrite Hpos. reflexivity.
Qed.

Lemma estimate_length sentences D :
  List.length (estimate_sentence_durations sentences D) = List.length sentences.
Proof.
  destruct sentences as [|s rest]; [reflexivity|].
  rewrite estimate_scaled by congruence. rewrite !length_map. reflexivity.
Qed.

Lemma scale_nonneg D R : 0 <= D -> 0 < R -> 0 <= Py.fdiv D R.
Proof.
  intros HD HR. apply fl_nonneg. apply Qle_shift_div_l; lra.
Qed.

Lemma estimate_positive sentences D d :
  0 < D -> In d (estimate_sentence_durations sentences D) -> 0 < d.
Proof.
  intros HD Hin.
  destruct sentences as [|s rest]; [destruct Hin|].
  rewrite estimate_scaled in Hin by congruence.
  pose proof (raw_total_positive (s :: rest) ltac:(congruence)) as Hpos.
  apply in_map_iff in Hin. destruct Hin as (r & <- & Hr).
  apply in_map_iff in Hr. destruct Hr as (x & <- & _).
  pose proof (raw_duration_ge_1 x) as Hx.
  apply fl_positive. apply Qmult_lt_0_compat; [lra|].
  apply fl_positive. apply Qlt_shift_div_l; lra.
Qed.

Lemma estimate_nonneg sentences D d :
  0 <= D -> In d (estimate_sentence_durations sentences D) -> 0 <= d.
Proof.
  intros HD Hin.
  destruct sentences as [|s rest]; [destruct Hin|].
  rewrite estimate_scaled in Hin by congruence.
  pose proof (raw_total_positive (s :: rest) ltac:(congruence)) as Hpos.
  apply in_map_iff in Hin. destruct Hin as (r & <- & Hr).
  apply in_map_iff in Hr. destruct Hr as (x & <- & _).
  pose proof (raw_duration_ge_1 x) as Hx.
  apply fl_nonneg. apply Qmult_le_0_compat; [lra|].
  apply scale_nonneg; assumption.
Qed.

Lemma sum_close_map {A} k (f g : A -> Q) l :
  (forall a, In a l -> close k (f a) (g a)) ->
  close k (Py.sum (map f l)) (Py.sum (map g l)).
Proof.
  induction l as [|a l IH]; intro H.
  - apply close_refl. discriminate.
  - cbn [map].
    apply (close_comp k (f a + Py.sum (map f l)) _ (g a + Py.sum (map g l)) _);
      [symmetry; apply sum_cons | symmetry; apply sum_cons |].
    apply close_add.
    + apply H. left. reflexivity.
    + apply IH. intros b Hb. apply H. right. exact Hb.
Qed.

(** The durations sum to the total up to the roundings of the code: the
    additions of [sum(raw)], the division that gives the scale, and the
    multiplication that scales one duration. *)
Lemma estimate_close sentences D :
  sentences <> [] -> 0 <= D ->
  close (List.length sentences + 2) (Py.sum (estimate_sentence_durations sentences D)) D.
Proof.
  intros Hne HD. rewrite estimate_scaled by exact Hne.
  pose proof (sum_raw_positive sentences Hne) as HS.
  pose proof (raw_total_positive sentences Hne) as HR.
  set (rs := map raw_duration sentences) in *.
  assert (Hrs : forall r, In r rs -> 0 <= r).
  { intros r Hr. apply in_map_iff in Hr. destruct Hr as (x & <- & _).
    pose proof (raw_duration_ge_1 x). lra. }
  set (n := List.length sentences).
  assert (Hn : List.length rs = n) by (unfold rs, n; apply length_map).
  pose proof (fsum_close rs Hrs) as C1. rewrite Hn in C1.
  set (S := Py.sum rs) in *. set (R := Py.fsum rs) in *.
  pose proof (close_div n D R S HD HR HS (close_sym _ _ _ C1)) as C2.
  assert (Hq : 0 <= D / R) by (apply Qle_shift_div_l; lra).
  pose proof (close_fl (D / R) Hq) as C3. fold (Py.fdiv D R) in C3.
  pose proof (close_trans 1 n _ _ _ (close_sym _ _ _ C3) C2) as C4.
  pose proof (scale_nonneg D R HD HR) as Hsc.
  replace (n + 2)%nat with (1 + (1 + n))%nat by lia.
  apply (close_comp _ (Py.sum (map (fun r => Py.fmul r (Py.fdiv D R)) rs)) _
           (Py.sum (map (fun r => r * (D / S)) rs)) _); [reflexivity | |].
  - rewrite sum_scale. fold S. field. lra.
  - apply sum_close_map. intros r Hr. specialize (Hrs r Hr).
    apply (close_trans 1 (1 + n) _ (r * Py.fdiv D R)).
    + apply close_sym, close_fl. apply Qmult_le_0_compat; assumption.
    + apply (close_comp _ (Py.fdiv D R * r) _ (D / S * r) _); [ring | ring |].
      apply close_scale; assumption.
Qed.

End SentenceDurations.

Section SubtitleCues.

Import Subtitles.

Variable w : World.
Variables width height : Z.

Lemma last_default (l : list Q) a d d' : last (a :: l) d = last (a :: l) d'.
Proof.
  revert a. induction l as [|x xs IH]; intro a; [reflexivity|].
  change (last (x :: xs) d = last (x :: xs) d'). apply IH.
Qed.

Lemma contiguous_app t cues c :
  contiguous_from t cues = true ->
  i_start c = last (map i_end cues) t ->
  i_end c = Py.fadd (i_start c) (i_duration c) ->
  contiguous_from t (cues ++ [c]) = true.
Proof.
  revert t. induction cues as [|x xs IH]; intros t Hc Hs He; cbn [app contiguous_from] in *.
  - cbn [map last] in Hs. rewrite He, Hs.
    rewrite !(proj2 (Qeq_bool_iff _ _)) by reflexivity.
    reflexivity.
  - apply andb_true_iff in Hc. destruct Hc as [Hx Hrest]. rewrite Hx. cbn [andb].
    apply IH; [exact Hrest | | exact He].
    rewrite Hs. cbn [map]. destruct (map i_end xs) as [|q l]; [reflexivity|].
    change (last (q :: l) t = last (q :: l) (i_end x)). apply last_default.
Qed.

(** Invariant of the loop of [build_subtitle_clips]: [cur] is the end of
    the last cue emitted; a sentence that is not blank adds one cue that
    starts at [cur] and lasts [dur], and moves [cur] to its end. *)
Lemma subtitle_loop_invariant :
  forall pairs clips cur res,
    (forall p, In p pairs -> nonempty (Py.strip (fst p)) = true) ->
    contiguous_from 0 clips = true ->
    cur = last (map i_end clips) 0 ->
    subtitle_loop w width height pairs clips cur = Ok res ->
    contiguous_from 0 res = true /\
    map i_duration res = map i_duration clips ++ map snd pairs /\
    map i_text res = map i_text clips ++ map (fun p => Py.strip (fst p)) pairs.
Proof.
  induction pairs as [|[sentence dur] rest IH]; intros clips cur res Hne Hc Hcur Hrun.
  - cbn [subtitle_loop] in Hrun. injection Hrun as <-. rewrite !app_nil_r. auto.
  - cbn [subtitle_loop] in Hrun.
    pose proof (Hne (sentence, dur) (or_introl eq_refl)) as Hs. cbn [fst] in Hs.
    rewrite Hs in Hrun.
    unfold make_subtitle_frame in Hrun.
    destruct (render_text w (Py.strip sentence) width height); [discriminate|].
    apply IH in Hrun.
    + destruct Hrun as (H1 & H2 & H3). split; [exact H1|]. split.
      * rewrite H2, map_app, <- app_assoc. reflexivity.
      * rewrite H3, map_app, <- app_assoc. reflexivity.
    + intros p Hp. apply Hne. right. exact Hp.
    + apply contiguous_app; [exact Hc | exact Hcur | reflexivity].
    + rewrite map_app. cbn [map]. rewrite last_last. reflexivity.
Qed.

(** When every frame draws, the loop returns. *)
Lemma subtitle_loop_returns :
  (forall text, render_text w text width height = None) ->
  forall pairs clips cur, exists res,
    subtitle_loop w width height pairs clips cur = Ok res.
Proof.
  intros Hdraw. induction pairs as [|[sentence dur] rest IH]; intros clips cur;
    cbn [subtitle_loop].
  - exists clips. reflexivity.
  - destruct (nonempty (Py.strip sentence)).
    + unfold make_subtitle_frame. rewrite Hdraw. apply IH.
    + apply IH.
Qed.

End SubtitleCues.

Section SubtitleTiling.

Import Subtitles.

Lemma combine_fst_in {A B} (xs : list A) (ys : list B) p :
  In p (combine xs ys) -> In (fst p) xs.
Proof. destruct p as [a b]. apply in_combine_l. Qed.

Lemma combine_map_snd {A B} (xs : list A) (ys : list B) :
  List.length xs = List.length ys -> map snd (combine xs ys) = ys.
Proof.
  revert ys. induction xs as [|x xs IH]; intros [|y ys] H; simpl in *;
    try discriminate; [reflexivity|].
  f_equal. apply IH. lia.
Qed.

Lemma combine_map_fst {A B} (f : A -> A) (xs : list A) (ys : list B) :
  List.length xs = List.length ys ->
  map (fun p => f (fst p)) (combine xs ys) = map f xs.
Proof.
  revert ys. induction xs as [|x xs IH]; intros [|y ys] H; simpl in *;
    try discriminate; [reflexivity|].
  f_equal. apply IH. lia.
Qed.

Lemma split_sentences_strip_fixed script :
  map Py.strip (split_sentences script) = split_sentences script.
Proof.
  unfold split_sentences. rewrite map_map.
  apply map_ext. intro p. apply strip_idem.
Qed.

(** Sentence splitting on two scripts: stage directions are dropped, and
    only whitespace after a closing mark separates sentences. *)
Example split_sentences_story :
  split_sentences (Story.script Example.story)
  = [Py.of_string "Meet Rex."; Py.of_string "He loves long walks!";
     Py.of_string "Come meet Rex today."].
Proof. reflexivity. Qed.

Example split_sentences_directions :
  split_sentences (Py.of_string "  [soft music] Hi there.  She is 3.5 years old [pause] now? ")
  = [Py.of_string "Hi there."; Py.of_string "She is 3.5 years old now?"].
Proof. reflexivity. Qed.

(** What a run of [build_subtitle_clips] over at least one sentence
    returns. *)
Lemma build_subtitle_clips_cues (w : World) script D width height cues :
  build_subtitle_clips w script D width height = Ok cues ->
  contiguous_from 0 cues = true /\
  map i_text cues = split_sentences script /\
  map i_duration cues = estimate_sentence_durations (split_sentences script) D.
Proof.
  intro Hrun. unfold build_subtitle_clips in Hrun.
  pose proof (split_sentences_stripped script) as Hstripped.
  pose proof (split_sentences_strip_fixed script) as Hfixed.
  destruct (split_sentences script) as [|s rest] eqn:Hsplit.
  - injection Hrun as <-. repeat split.
  - set (sentences := s :: rest) in *.
    pose proof (estimate_length sentences D) as Hlen. symmetry in Hlen.
    apply subtitle_loop_invariant in Hrun.
    + destruct Hrun as (Hc & Hd & Ht).
      rewrite combine_map_snd in Hd by exact Hlen.
      rewrite (combine_map_fst Py.strip) in Ht by exact Hlen.
      cbn [map app] in Hd, Ht.
      split; [exact Hc|]. split; [rewrite Ht; exact Hfixed | exact Hd].
    + intros p Hp. apply Hstripped. apply (combine_fst_in _ _ _ Hp).
    + reflexivity.
    + reflexivity.
Qed.

(** C3, as amended. For every script that yields at least one sentence and
    every duration [D > 0]: when every frame draws, the cues are produced;
    and the cues produced are one per sentence, start at 0, each start where
    the previous one ends (the float sum of its start and its duration),
    have positive durations, and their durations sum to [D] within
    floating-point tolerance: up to [n + 2] roundings for [n] cues. *)
Theorem subtitle_cues_tile (w : World) (script : str) (D : Q) (width height : Z) :
  has_sentence script = true -> 0 < D ->
  ((forall text, render_text w text width height = None) ->
   exists cues, build_subtitle_clips w script D width height = Ok cues) /\
  (forall cues, build_subtitle_clips w script D width height = Ok cues ->
     map i_text cues = split_sentences script /\
     contiguous_from 0 cues = true /\
     (forall c, In c cues -> 0 < i_duration c) /\
     close (List.length cues + 2) (Py.sum (map i_duration cues)) D).
Proof.
  intros Hs HD. unfold has_sentence in Hs.
  split.
  - intro Hdraw. unfold build_subtitle_clips.
    destruct (split_sentences script) as [|s rest]; [discriminate|].
    apply subtitle_loop_returns. exact Hdraw.
  - intros cues Hrun.
    destruct (build_subtitle_clips_cues w script D width height cues Hrun)
      as (Hc & Ht & Hd).
    assert (Hne : split_sentences script <> []).
    { destruct (split_sentences script); [discriminate Hs | discriminate]. }
    assert (Hlen : List.length cues = List.length (split_sentences script)).
    { rewrite <- Ht. symmetry. apply length_map. }
    split; [exact Ht|]. split; [exact Hc|]. split.
    + intros c Hin. apply (estimate_positive (split_sentences script) D); [exact HD|].
      rewrite <- Hd. apply in_map. exact Hin.
    + rewrite Hd, Hlen. apply estimate_close; [exact Hne | lra].
Qed.

(** The narration of the example subject over 9 s of video. *)
Lemma subtitle_cues_tile_witness :
  ((forall text, render_text Example.world text 360 640 = None) ->
   exists cues,
     build_subtitle_clips Example.world (Story.script Example.story) 9 360 640 = Ok cues) /\
  (forall cues,
     build_subtitle_clips Example.world (Story.script Example.story) 9 360 640 = Ok cues ->
     map i_text cues = split_sentences (Story.script Example.story) /\
     contiguous_from 0 cues = true /\
     (forall c, In c cues -> 0 < i_duration c) /\
     close (List.length cues + 2) (Py.sum (map i_duration cues)) 9).
Proof.
  apply (subtitle_cues_tile Example.world (Story.script Example.story) 9 360 640);
    reflexivity.
Defined.

(** C3 as first stated fails on a script that is not empty but holds no
    sentence: a stage direction alone yields no cue, so the durations sum
    to 0, which is not the 10 s of video within any tolerance. *)
Lemma subtitle_cues_stage_direction_only :
  exists cues,
    Py.of_string "[music]" <> [] /\ 0 < 10 /\
    build_subtitle_clips Example.world (Py.of_string "[music]") 10 360 640 = Ok cues /\
    Py.sum (map i_duration cues) == 0 /\
    forall k, ~ close k (Py.sum (map i_duration cues)) 10.
Proof.
  exists []. split; [discriminate|]. split; [reflexivity|]. split; [reflexivity|].
  split; [reflexivity|].
  intros k [_ H]. unfold le_upto in H. cbn [map] in H.
  pose proof (down_pos k) as Hk.
  change (Py.sum []) with 0 in H. lra.
Qed.

End SubtitleTiling.

(** ** Audio Track Builder *)

Section AudioTrack.

Import Audio.



Lemma find_default_music_reads w st :
  snd (_find_default_music w st) = st.
Proof.
  unfold _find_default_music, bind, path_exists, lift, ret. simpl.
  destruct (fs st _); simpl; [|reflexivity].
  destruct (music_candidates w _) as [[|c cs]|e]; reflexivity.
Qed.

(** Which music file is settled on depends on the file system only. *)
Lemma resolved_music_fs w music_file st1 st2 :
  fs st1 = fs st2 -> resolved_music w music_file st1 = resolved_music w music_file st2.
Proof.
  intro H. unfold resolved_music. destruct music_file as [m|]; [reflexivity|].
  unfold _find_default_music, bind, path_exists, lift, ret. rewrite H.
  destruct (fs st2 _); simpl; [|reflexivity].
  destruct (music_candidates w _) as [[|c cs]|e]; reflexivity.
Qed.




End AudioTrack.

(** ** Video Assembler *)

Section Assembler.

Import Edit.

Variable w : World.

Lemma load_clips_run size :
  forall visuals clips st,
    load_clips w size visuals clips st
    = (Ok (clips ++ survivors w size visuals),
       logged st (map EvLoadClip (map path visuals))).
Proof.
  induction visuals as [|sc rest IH]; intros clips st.
  - unfold survivors, logged. simpl. unfold ret. rewrite !app_nil_r.
    destruct st; reflexivity.
  - unfold survivors. cbn [load_clips]. unfold bind, emit.
    destruct (open_video w (path sc)) as [d|e].
    + rewrite (IH (clips ++ _)), (IH ([] ++ _)). unfold logged. cbn [fst fs trace map].
      rewrite <- !app_assoc. reflexivity.
    + rewrite (IH clips), (IH []). unfold logged. cbn [fst fs trace map].
      rewrite <- !app_assoc. reflexivity.
Qed.

(** [assemble_video] up to the concatenation: the call is logged, the
    output directory is made, every selected clip is opened once, and the
    rest of the function runs on the footage. *)
Lemma assemble_video_stages pet_name visuals tone aspect audio_file out_path script st fs1 :
  visuals <> [] ->
  survivors w (_scale_for_aspect aspect) visuals <> [] ->
  mkdir w (Py.path_parent out_path) (fs st) = (Ok tt, fs1) ->
  assemble_video w pet_name visuals tone aspect audio_file out_path script st
  = (final_clip <- sync_audio w audio_file (footage w aspect visuals) ;;
     final_clip <- add_subtitles w script final_clip
                     (fst (_scale_for_aspect aspect)) (snd (_scale_for_aspect aspect)) ;;
     _ <- emit (EvWriteVideo out_path final_clip) ;;
     _ <- call_fs (write_videofile w out_path final_clip) ;;
     ret out_path)
      {| fs := fs1;
         trace := trace st ++ EvAssemble audio_file :: map EvLoadClip (map path visuals) |}.
Proof.
  intros Hv Hs Hmk. unfold assemble_video, footage.
  destruct visuals as [|sc rest]; [congruence|].
  set (visuals := sc :: rest) in *.
  unfold bind at 1, emit. unfold bind at 1, call_fs. cbn [fs trace].
  rewrite Hmk.
  destruct (_scale_for_aspect aspect) as [width height] eqn:Hsize.
  unfold bind at 1. rewrite load_clips_run. cbn [app fst snd].
  destruct (survivors w (width, height) visuals) as [|c cs] eqn:Hsurv; [congruence|].
  unfold logged. cbn [fs trace]. rewrite <- app_assoc. reflexivity.
Qed.

End Assembler.

Section CueEnds.

Import Subtitles.

Lemma le_upto_le k x' x y : x' <= x -> le_upto k x y -> le_upto k x' y.
Proof.
  unfold le_upto. intros Hle H. pose proof (down_pos k) as Hk.
  assert (x' * npow (1 - Py.unit_roundoff) k <= x * npow (1 - Py.unit_roundoff) k)
    by (apply Qmult_le_compat_r; lra).
  lra.
Qed.

Lemma le_upto_comp k x x' y y' : x == x' -> y == y' -> le_upto k x y -> le_upto k x' y'.
Proof. unfold le_upto. intros Hx Hy H. rewrite <- Hx, <- Hy. exact H. Qed.

Lemma is_float_comp x y : x == y -> is_float x = true -> is_float y = true.
Proof.
  intros Hxy Hx. apply is_float_true. apply is_float_true in Hx.
  rewrite <- (fl_comp x y Hxy), Hx. exact Hxy.
Qed.

Lemma fadd_comp a a' d : a == a' -> Py.fadd a d = Py.fadd a' d.
Proof. intro H. unfold Py.fadd. apply fl_comp. rewrite H. reflexivity. Qed.

Lemma fold_fadd_comp ds :
  forall a a', a == a' -> fold_left Py.fadd ds a == fold_left Py.fadd ds a'.
Proof.
  induction ds as [|d ds IH]; intros a a' H; cbn [fold_left]; [exact H|].
  apply IH. rewrite (fadd_comp a a' d H). reflexivity.
Qed.

Lemma fold_fadd_grows ds :
  forall a, is_float a = true -> (forall d, In d ds -> 0 <= d) ->
            a <= fold_left Py.fadd ds a.
Proof.
  induction ds as [|d ds IH]; intros a Ha Hd; cbn [fold_left]; [lra|].
  apply Qle_trans with (Py.fadd a d).
  - apply fadd_grows; [exact Ha | apply Hd; left; reflexivity].
  - apply IH; [apply is_float_fl | intros y Hy; apply Hd; right; exact Hy].
Qed.

(** Cues that tile the timeline from a float [t] with durations that are
    not negative all end by the float sum of [t] and the durations. *)
Lemma contiguous_ends :
  forall cues t,
    contiguous_from t cues = true ->
    is_float t = true ->
    (forall c, In c cues -> 0 <= i_duration c) ->
    forall c, In c cues -> i_end c <= fold_left Py.fadd (map i_duration cues) t.
Proof.
  induction cues as [|x xs IH]; intros t Hc Ht Hd c Hin; [destruct Hin|].
  cbn [contiguous_from] in Hc. apply andb_true_iff in Hc. destruct Hc as [Hc Hrest].
  apply andb_true_iff in Hc. destruct Hc as [Hstart Hend].
  apply Qeq_bool_iff in Hstart. apply Qeq_bool_iff in Hend.
  cbn [map fold_left].
  assert (Hx : 0 <= i_duration x) by (apply Hd; left; reflexivity).
  assert (Hend' : i_end x == Py.fadd t (i_duration x)).
  { rewrite Hend, (fadd_comp (i_start x) t _ Hstart). reflexivity. }
  assert (Hfl : is_float (i_end x) = true).
  { apply (is_float_comp (Py.fadd t (i_duration x))); [symmetry; exact Hend'|].
    apply is_float_fl. }
  assert (Hxs : forall c', In c' xs -> 0 <= i_duration c')
    by (intros c' Hc'; apply Hd; right; exact Hc').
  destruct Hin as [<- | Hin].
  - rewrite Hend'. apply fold_fadd_grows; [apply is_float_fl|].
    intros d Hdin. apply in_map_iff in Hdin. destruct Hdin as (c' & <- & Hc').
    apply Hxs. exact Hc'.
  - pose proof (IH (i_end x) Hrest Hfl Hxs c Hin) as H.
    rewrite (fold_fadd_comp _ _ _ Hend') in H. exact H.
Qed.

Lemma contiguous_starts :
  forall cues t,
    contiguous_from t cues = true ->
    is_float t = true ->
    (forall c, In c cues -> 0 <= i_duration c) ->
    0 <= t ->
    forall c, In c cues -> 0 <= i_start c /\ i_start c <= i_end c.
Proof.
  induction cues as [|x xs IH]; intros t Hc Ht Hd H0 c Hin; [destruct Hin|].
  cbn [contiguous_from] in Hc. apply andb_true_iff in Hc. destruct Hc as [Hc Hrest].
  apply andb_true_iff in Hc. destruct Hc as [Hstart Hend].
  apply Qeq_bool_iff in Hstart. apply Qeq_bool_iff in Hend.
  assert (Hx : 0 <= i_duration x) by (apply Hd; left; reflexivity).
  assert (Hend' : i_end x == Py.fadd t (i_duration x)).
  { rewrite Hend, (fadd_comp (i_start x) t _ Hstart). reflexivity. }
  assert (Hgrow : t <= i_end x).
  { rewrite Hend'. apply fadd_grows; assumption. }
  destruct Hin as [<- | Hin].
  - rewrite Hstart. split; assumption.
  - apply (IH (i_end x)); try assumption.
    + apply (is_float_comp (Py.fadd t (i_duration x))); [symmetry; exact Hend'|].
      apply is_float_fl.
    + intros c' Hc'. apply Hd. right. exact Hc'.
    + lra.
Qed.

(** What the cues of a run are, for a total that is not negative. *)
Lemma build_subtitle_clips_facts (w : World) script D width height cues :
  0 <= D ->
  build_subtitle_clips w script D width height = Ok cues ->
  contiguous_from 0 cues = true /\ (forall c, In c cues -> 0 <= i_duration c).
Proof.
  intros HD Hrun.
  destruct (build_subtitle_clips_cues w script D width height cues Hrun) as (Hc & _ & Hd).
  split; [exact Hc|].
  intros c Hin. apply (estimate_nonneg (split_sentences script) D); [exact HD|].
  rewrite <- Hd. apply in_map. exact Hin.
Qed.

(** No cue ends after the duration the cues are spread over, up to the
    roundings of the code: [n + 2] for the durations of [n] sentences and
    [n] more for the additions that place the cues. *)
Lemma build_subtitle_clips_ends (w : World) script D width height cues :
  0 <= D ->
  build_subtitle_clips w script D width height = Ok cues ->
  forall c, In c cues ->
            le_upto (2 * List.length (split_sentences script) + 2) (i_end c) D.
Proof.
  intros HD Hrun c Hin.
  destruct (build_subtitle_clips_facts w script D width height cues HD Hrun) as [Hc Hnn].
  destruct (build_subtitle_clips_cues w script D width height cues Hrun) as (_ & Ht & Hd).
  assert (Hne : split_sentences script <> []).
  { intro Hnil. rewrite Hnil in Ht. apply map_eq_nil in Ht. subst cues. destruct Hin. }
  set (n := List.length (split_sentences script)).
  pose proof (contiguous_ends cues 0 Hc eq_refl Hnn c Hin) as Hend.
  fold (Py.fsum (map i_duration cues)) in Hend.
  assert (Hds : forall x, In x (map i_duration cues) -> 0 <= x).
  { intros x Hx. apply in_map_iff in Hx. destruct Hx as (c' & <- & Hc').
    apply Hnn. exact Hc'. }
  pose proof (fsum_close (map i_duration cues) Hds) as [_ C1].
  assert (Hlen : List.length (map i_duration cues) = n).
  { rewrite Hd. apply estimate_length. }
  rewrite Hlen in C1.
  pose proof (estimate_close (split_sentences script) D Hne HD) as [C2 _].
  fold n in C2. rewrite <- Hd in C2.
  replace (2 * n + 2)%nat with (n + (n + 2))%nat by lia.
  apply (le_upto_le _ _ (Py.fsum (map i_duration cues))); [exact Hend|].
  apply (le_upto_trans n (n + 2) _ (Py.sum (map i_duration cues))); assumption.
Qed.

Lemma max_list_dominated a xs :
  (forall x, In x xs -> x <= a) -> Py.max_list a xs = a.
Proof.
  unfold Py.max_list. induction xs as [|x xs IH]; intro H; [reflexivity|].
  simpl. unfold Py.max at 2.
  assert (T : Py.ltb a x = false) by (apply ltb_false; apply H; left; reflexivity).
  rewrite T. apply IH. intros y Hy. apply H. right. exact Hy.
Qed.

Lemma max_list_cases xs : forall a, Py.max_list a xs = a \/ In (Py.max_list a xs) xs.
Proof.
  unfold Py.max_list. induction xs as [|x xs IH]; intro a; [left; reflexivity|].
  cbn [fold_left]. destruct (IH (Py.max a x)) as [H | H].
  - rewrite H. unfold Py.max. destruct (Py.ltb a x); [right; left | left]; reflexivity.
  - right. right. exact H.
Qed.

Lemma max_list_ge xs : forall a, a <= Py.max_list a xs.
Proof.
  unfold Py.max_list. induction xs as [|x xs IH]; intro a; cbn [fold_left]; [lra|].
  apply Qle_trans with (Py.max a x); [|apply IH].
  unfold Py.max. destruct (Py.ltb a x) eqn:E; [apply ltb_true in E; lra | lra].
Qed.

End CueEnds.

Section Synchronisation.

Import Edit.

Variable w : World.

Lemma videos_written_app t1 t2 :
  videos_written (t1 ++ t2) = videos_written t1 ++ videos_written t2.
Proof. unfold videos_written. apply flat_map_app. Qed.

(** The subtitle block always hands a clip on: the footage it was given,
    alone or under the cues. The clip lasts as long as the footage when no
    cue is laid over it, and else as long as the footage up to the
    roundings of the cue times. *)
Lemma add_subtitles_run script v width height st :
  exists final st',
    add_subtitles w script v width height st = (Ok final, st') /\
    final_base final = v /\
    fs st' = fs st /\
    videos_written (trace st') = videos_written (trace st) /\
    (final_overlays final = [] -> final_duration final = v_duration v) /\
    v_duration v <= final_duration final /\
    (0 <= v_duration v ->
     le_upto (cue_roundings script) (final_duration final) (v_duration v)).
Proof.
  assert (Hfoot : forall st', exists final st'',
             (Ok (Footage v), st') = (Ok final, st'') /\
             final_base final = v /\
             fs st'' = fs st' /\
             videos_written (trace st'') = videos_written (trace st') /\
             (final_overlays final = [] -> final_duration final = v_duration v) /\
             v_duration v <= final_duration final /\
             (0 <= v_duration v ->
              le_upto (cue_roundings script) (final_duration final) (v_duration v))).
  { intro st'. exists (Footage v), st'. cbn [final_base final_duration].
    split; [reflexivity|]. split; [reflexivity|]. split; [reflexivity|].
    split; [reflexivity|]. split; [reflexivity|]. split; [lra|].
    intro Hnn. apply le_upto_refl. exact Hnn. }
  unfold add_subtitles.
  destruct script as [[|c s]|].
  - apply Hfoot.
  - destruct (Subtitles.build_subtitle_clips w (c :: s) (Py.or_zero (v_duration v))
                width height) as [[|cue cues]|e] eqn:Hsubs.
    + apply Hfoot.
    + exists (CompositeVideoClip v (cue :: cues)), st. unfold ret.
      cbn [final_base final_overlays final_duration].
      split; [reflexivity|]. split; [reflexivity|]. split; [reflexivity|].
      split; [reflexivity|]. split; [discriminate|]. split; [apply max_list_ge|].
      intro Hnn.
      destruct (max_list_cases (map i_end (cue :: cues)) (v_duration v)) as [H | H].
      * rewrite H. apply le_upto_refl. exact Hnn.
      * apply in_map_iff in H. destruct H as (c' & Hc' & Hin). rewrite <- Hc'.
        apply (le_upto_comp _ (i_end c') _ (Py.or_zero (v_duration v)) _);
          [reflexivity | apply or_zero_eq |].
        apply (build_subtitle_clips_ends w (c :: s) _ width height (cue :: cues)).
        -- rewrite or_zero_eq. exact Hnn.
        -- exact Hsubs.
        -- exact Hin.
    + destruct (Hfoot (logged st [EvSubtitleError])) as (final & st' & Heq & H).
      exists final, st'. unfold bind, emit, ret. fold (logged st [EvSubtitleError]).
      split; [exact Heq|].
      destruct H as (H1 & H2 & H3 & H4). split; [exact H1|].
      split; [rewrite H2; reflexivity|]. split; [|exact H4].
      rewrite H3. unfold logged. cbn [trace]. rewrite videos_written_app.
      simpl. apply app_nil_r.
  - apply Hfoot.
Qed.

(** The audio block on an audio file that exists and has a positive
    duration: both streams end at [min(vdur, adur)]; the video is the
    footage or its first [sync] seconds, the audio is the file or its first
    [sync] seconds. *)
Lemma sync_audio_trims af v adur st :
  fs_exists (fs st) af = true ->
  open_audio w af = Ok adur -> 0 < adur -> 0 <= v_duration v ->
  exists v' a,
    sync_audio w (Some af) v st = (Ok v', logged st [EvOpenAudio af]) /\
    v_sources v' = v_sources v /\
    v_audio v' = Some a /\
    v_duration v' == Py.min (v_duration v) adur /\
    audio_duration a == Py.min (v_duration v) adur /\
    (v_duration v <= adur -> v_duration v' = v_duration v) /\
    (adur <= v_duration v -> a = AudioFileClip af adur) /\
    (a = AudioFileClip af adur \/ exists t, a = AudioSubclip (AudioFileClip af adur) 0 t).
Proof.
  intros Hex Hopen Ha Hv.
  unfold sync_audio, bind at 1, path_exists. unfold fs_exists in Hex.
  destruct (fs st af) eqn:Hfs; [|discriminate]. cbn [negb].
  unfold bind at 1, emit. unfold bind at 1, lift. rewrite Hopen.
  fold (logged st [EvOpenAudio af]). cbn [audio_duration].
  pose proof (or_zero_eq (v_duration v)) as Hvz.
  pose proof (or_zero_eq adur) as Haz.
  set (vdur := Py.or_zero (v_duration v)) in *.
  set (adur' := Py.or_zero adur) in *.
  assert (T0 : Py.ltb 0 adur' = true) by (apply ltb_true; lra).
  rewrite T0.
  assert (Hmin : Py.min vdur adur' == Py.min (v_duration v) adur).
  { unfold Py.min.
    destruct (Py.ltb adur' vdur) eqn:E1; destruct (Py.ltb adur (v_duration v)) eqn:E2;
      try (apply ltb_true in E1); try (apply ltb_false in E1);
      try (apply ltb_true in E2); try (apply ltb_false in E2); lra. }
  pose proof (min_le_l vdur adur') as Hl.
  pose proof (min_le_r vdur adur') as Hr.
  assert (Hnn : 0 <= Py.min vdur adur').
  { unfold Py.min. destruct (Py.ltb adur' vdur); lra. }
  set (sync := Py.min vdur adur') in *.
  assert (N1 : Py.ltb (v_duration v) 0 = false) by (apply ltb_false; exact Hv).
  assert (N2 : Py.ltb sync 0 = false) by (apply ltb_false; exact Hnn).
  assert (N3 : Py.ltb adur 0 = false) by (apply ltb_false; lra).
  unfold bind, lift, ret, video_subclip, audio_subclip, subclip_bounds.
  cbn [audio_duration]. rewrite N1, N2, N3.
  assert (Hcase : sync == vdur \/ sync == adur').
  { unfold sync, Py.min. destruct (Py.ltb adur' vdur); [right | left]; reflexivity. }
  destruct (Py.ltb sync vdur) eqn:Tv; destruct (Py.ltb sync adur') eqn:Tadur;
    try (apply ltb_true in Tv); try (apply ltb_false in Tv);
    try (apply ltb_true in Tadur); try (apply ltb_false in Tadur);
    try (exfalso; destruct Hcase; lra);
    eexists; eexists; (split; [reflexivity|]); simpl;
    repeat split; simpl; try lra; try (intro; exfalso; destruct Hcase; lra);
    try (left; reflexivity); try (right; eexists; reflexivity).
Qed.

(** The audio block on an audio file whose duration is not positive: the
    file is opened and nothing else happens. *)
Lemma sync_audio_silent af v adur st :
  fs_exists (fs st) af = true ->
  open_audio w af = Ok adur -> adur <= 0 ->
  sync_audio w (Some af) v st = (Ok v, logged st [EvOpenAudio af]).
Proof.
  intros Hex Hopen Ha.
  unfold sync_audio, bind at 1, path_exists. unfold fs_exists in Hex.
  destruct (fs st af) eqn:Hfs; [|discriminate]. cbn [negb].
  unfold bind at 1, emit. unfold bind at 1, lift. rewrite Hopen.
  cbn [audio_duration].
  assert (T0 : Py.ltb 0 (Py.or_zero adur) = false).
  { apply ltb_false. rewrite or_zero_eq. exact Ha. }
  rewrite T0. reflexivity.
Qed.

End Synchronisation.

Section AssembleVideo.

Import Edit.

Variable w : World.

Lemma videos_written_loads audio_file paths :
  videos_written (EvAssemble audio_file :: map EvLoadClip paths) = [].
Proof. simpl. induction paths as [|p ps IH]; [reflexivity | exact IH]. Qed.

(** The end of [assemble_video], from the subtitle block on: one video is
    written, made of the clip the audio block handed over. *)
Lemma assemble_video_finish script v width height out_path st :
  exists final r st',
    (final_clip <- add_subtitles w script v width height ;;
     _ <- emit (EvWriteVideo out_path final_clip) ;;
     _ <- call_fs (write_videofile w out_path final_clip) ;;
     ret out_path) st = (r, st') /\
    final_base final = v /\
    videos_written (trace st') = videos_written (trace st) ++ [(out_path, final)] /\
    (final_overlays final = [] -> final_duration final = v_duration v) /\
    v_duration v <= final_duration final /\
    (0 <= v_duration v ->
     le_upto (cue_roundings script) (final_duration final) (v_duration v)).
Proof.
  destruct (add_subtitles_run w script v width height st)
    as (final & st1 & Hrun & Hbase & _ & Hw & Hplain & Hlo & Hup).
  unfold bind at 1. rewrite Hrun.
  unfold bind, emit, call_fs, ret. cbn [fs trace].
  destruct (write_videofile w out_path final (fs st1)) as [[[]|e] fs2];
    exists final; eexists; eexists; (split; [reflexivity|]); cbn [trace];
    rewrite videos_written_app, Hw;
    (split; [exact Hbase|]); (split; [reflexivity|]);
    (split; [exact Hplain|]); (split; [exact Hlo | exact Hup]).
Qed.

(** C4, as amended. When the audio file handed to [assemble_video] exists
    and opens with a positive duration (and the footage has a duration that
    is not negative, as every footage has), footage and audio are brought
    to [sync = min(video_duration, audio_duration)]: both last [sync]; the
    stream that is not longer is left as it is and the other one is cut at
    [sync], nothing is stretched. The video written lasts [sync] when no
    subtitle is laid over it, and [sync] up to the roundings of the cue
    times when subtitles are: never less, and more only by the rounding
    that puts the end of the last cue after [sync]. In particular with a
    footage of 12 s under an audio of 9 s, footage and audio last 9 s and
    the video written 9 s up to these roundings. *)
Theorem assemble_video_sync pet_name visuals tone aspect af out_path script st fs1 adur :
  visuals <> [] ->
  survivors w (_scale_for_aspect aspect) visuals <> [] ->
  mkdir w (Py.path_parent out_path) (fs st) = (Ok tt, fs1) ->
  fs_exists fs1 af = true ->
  open_audio w af = Ok adur ->
  0 < adur ->
  0 <= v_duration (footage w aspect visuals) ->
  let vdur := v_duration (footage w aspect visuals) in
  let sync := Py.min vdur adur in
  exists final a r st',
    assemble_video w pet_name visuals tone aspect (Some af) out_path script st = (r, st') /\
    videos_written (trace st') = videos_written (trace st) ++ [(out_path, final)] /\
    sync == Qmin vdur adur /\
    v_sources (final_base final) = v_sources (footage w aspect visuals) /\
    v_duration (final_base final) == sync /\
    final_audio final = Some a /\
    audio_duration a == sync /\
    (final_overlays final = [] -> final_duration final == sync) /\
    sync <= final_duration final /\
    le_upto (cue_roundings script) (final_duration final) sync /\
    (vdur <= adur -> v_duration (final_base final) = vdur) /\
    (adur <= vdur -> a = AudioFileClip af adur) /\
    (a = AudioFileClip af adur \/ exists t, a = AudioSubclip (AudioFileClip af adur) 0 t) /\
    (vdur == 12 -> adur == 9 ->
     v_duration (final_base final) == 9 /\
     audio_duration a == 9 /\
     (final_overlays final = [] -> final_duration final == 9) /\
     9 <= final_duration final /\
     le_upto (cue_roundings script) (final_duration final) 9).
Proof.
  intros Hv Hs Hmk Hex Hopen Ha Hnn vdur sync.
  rewrite (assemble_video_stages w pet_name visuals tone aspect (Some af) out_path
             script st fs1 Hv Hs Hmk).
  set (st1 := {| fs := fs1; trace := _ |}).
  destruct (sync_audio_trims w af (footage w aspect visuals) adur st1 Hex Hopen Ha Hnn)
    as (v' & a & Hsync & Hsrc & Haudio & Hvd & Had & Hkeep & Hakeep & Hshape).
  unfold bind at 1. rewrite Hsync.
  destruct (assemble_video_finish script v' (fst (_scale_for_aspect aspect))
              (snd (_scale_for_aspect aspect)) out_path (logged st1 [EvOpenAudio af]))
    as (final & r & st' & Hrun & Hbase & Hw & Hplain & Hlo & Hup).
  assert (Hsync_nn : 0 <= sync).
  { unfold sync, Py.min. destruct (Py.ltb adur vdur); unfold vdur; lra. }
  fold vdur in Hvd, Had. fold sync in Hvd, Had.
  assert (F1 : final_overlays final = [] -> final_duration final == sync).
  { intro H. rewrite (Hplain H). exact Hvd. }
  assert (F2 : sync <= final_duration final) by (rewrite <- Hvd; exact Hlo).
  assert (F3 : le_upto (cue_roundings script) (final_duration final) sync).
  { apply (le_upto_comp _ (final_duration final) _ (v_duration v') _);
      [reflexivity | exact Hvd |].
    apply Hup. rewrite Hvd. exact Hsync_nn. }
  exists final, a, r, st'. split; [exact Hrun|].
  split.
  { rewrite Hw. unfold logged, st1. cbn [trace].
    rewrite <- app_assoc, !videos_written_app.
    rewrite videos_written_loads. cbn [videos_written flat_map app].
    rewrite app_nil_r. reflexivity. }
  split; [apply min_spec|].
  unfold final_audio. rewrite Hbase.
  split; [exact Hsrc|]. split; [exact Hvd|]. split; [exact Haudio|].
  split; [exact Had|]. split; [exact F1|]. split; [exact F2|]. split; [exact F3|].
  split; [exact Hkeep|]. split; [exact Hakeep|]. split; [exact Hshape|].
  intros H12 H9.
  assert (H : sync == 9).
  { unfold sync. rewrite min_spec, H12, H9. reflexivity. }
  split; [rewrite Hvd; exact H|]. split; [rewrite Had; exact H|].
  split; [intro Hno; rewrite (F1 Hno); exact H|].
  split; [rewrite <- H; exact F2|].
  apply (le_upto_comp _ (final_duration final) _ sync _); [reflexivity | exact H | exact F3].
Qed.

(** C9. When the audio file handed to [assemble_video] exists but opens
    with a duration that is not positive, it is opened and nothing more:
    the video written is the whole footage, at its full concatenated
    duration, with no audio track. The video lasts as long as the footage
    when no subtitle is laid over it, and as long as the footage up to the
    roundings of the cue times when subtitles are. *)
Theorem assemble_video_silent_audio pet_name visuals tone aspect af out_path script st fs1
  adur :
  visuals <> [] ->
  survivors w (_scale_for_aspect aspect) visuals <> [] ->
  mkdir w (Py.path_parent out_path) (fs st) = (Ok tt, fs1) ->
  fs_exists fs1 af = true ->
  open_audio w af = Ok adur ->
  adur <= 0 ->
  exists final r st',
    assemble_video w pet_name visuals tone aspect (Some af) out_path script st = (r, st') /\
    videos_written (trace st') = videos_written (trace st) ++ [(out_path, final)] /\
    final_base final = footage w aspect visuals /\
    v_duration (final_base final)
    = Py.sum (map v_duration (survivors w (_scale_for_aspect aspect) visuals)) /\
    final_audio final = None /\
    (final_overlays final = [] ->
     final_duration final = v_duration (footage w aspect visuals)) /\
    v_duration (footage w aspect visuals) <= final_duration final /\
    (0 <= v_duration (footage w aspect visuals) ->
     le_upto (cue_roundings script) (final_duration final)
       (v_duration (footage w aspect visuals))).
Proof.
  intros Hv Hs Hmk Hex Hopen Ha.
  rewrite (assemble_video_stages w pet_name visuals tone aspect (Some af) out_path
             script st fs1 Hv Hs Hmk).
  set (st1 := {| fs := fs1; trace := _ |}).
  unfold bind at 1.
  rewrite (sync_audio_silent w af (footage w aspect visuals) adur st1 Hex Hopen Ha).
  destruct (assemble_video_finish script (footage w aspect visuals)
              (fst (_scale_for_aspect aspect)) (snd (_scale_for_aspect aspect))
              out_path (logged st1 [EvOpenAudio af]))
    as (final & r & st' & Hrun & Hbase & Hw & Hplain & Hlo & Hup).
  exists final, r, st'. split; [exact Hrun|].
  split.
  { rewrite Hw. unfold logged, st1. cbn [trace].
    rewrite <- app_assoc, !videos_written_app.
    rewrite videos_written_loads. cbn [videos_written flat_map app].
    rewrite app_nil_r. reflexivity. }
  unfold final_audio. rewrite Hbase.
  split; [reflexivity|]. split; [reflexivity|]. split; [reflexivity|].
  split; [exact Hplain|]. split; [exact Hlo | exact Hup].
Qed.

End AssembleVideo.

Section AssembleVideoScenarios.

Import Edit.

(** 12 s of footage (the first clip of the example, cut from 20 s) under
    the 9 s mix: footage and audio are cut to 9 s, and the video written
    lasts 9 s up to the roundings of the three cues. *)
Lemma assemble_video_sync_witness :
  exists final a r st',
    assemble_video Example.world "Rex" [selected (Example.clip "a.mp4") 12] "warm"
      "vertical" (Some Example.mix_path) Example.out_path
      (Some (Story.script Example.story)) Example.with_audio = (r, st') /\
    videos_written (trace st') = [(Example.out_path, final)] /\
    v_duration (footage Example.world "vertical" [selected (Example.clip "a.mp4") 12]) == 12 /\
    v_duration (final_base final) == 9 /\
    final_audio final = Some a /\
    audio_duration a == 9 /\
    9 <= final_duration final /\
    le_upto 8 (final_duration final) 9.
Proof.
  destruct (assemble_video_sync Example.world "Rex" [selected (Example.clip "a.mp4") 12]
              "warm" "vertical" Example.mix_path Example.out_path
              (Some (Story.script Example.story)) Example.with_audio
              (fs Example.with_audio) 9)
    as (final & a & r & st' & Hrun & Hw & _ & _ & _ & Ha & _ & _ & _ & _ & _ & _ & _ & H12).
  - discriminate.
  - vm_compute. discriminate.
  - reflexivity.
  - reflexivity.
  - reflexivity.
  - reflexivity.
  - vm_compute. discriminate.
  - destruct H12 as (H1 & H2 & _ & H3 & H4); [reflexivity | reflexivity |].
    exists final, a, r, st'.
    split; [exact Hrun|]. split; [exact Hw|]. split; [reflexivity|].
    split; [exact H1|]. split; [exact Ha|]. split; [exact H2|].
    split; [exact H3 | exact H4].
Defined.

(** The same footage under an audio file of duration 0. *)
Lemma assemble_video_silent_audio_witness :
  exists final r st',
    assemble_video Example.mute_world "Rex" [selected (Example.clip "a.mp4") 12] "warm"
      "vertical" (Some Example.voice_path) Example.out_path
      (Some (Story.script Example.story)) Example.with_audio = (r, st') /\
    videos_written (trace st') = [(Example.out_path, final)] /\
    final_base final
    = footage Example.mute_world "vertical" [selected (Example.clip "a.mp4") 12] /\
    final_audio final = None.
Proof.
  destruct (assemble_video_silent_audio Example.mute_world "Rex"
              [selected (Example.clip "a.mp4") 12]
              "warm" "vertical" Example.voice_path Example.out_path
              (Some (Story.script Example.story)) Example.with_audio
              (fs Example.with_audio) 0)
    as (final & r & st' & Hrun & Hw & Hbase & _ & Haudio & _).
  - discriminate.
  - vm_compute. discriminate.
  - reflexivity.
  - reflexivity.
  - reflexivity.
  - vm_compute. discriminate.
  - exists final, r, st'. repeat split; assumption.
Defined.

(** C4 as first stated fails in two ways. On an audio file that is
    supplied and exists but whose measured duration is 0, the claim puts
    the synchronisation point at [min(12, 0) = 0], and the code renders the
    12 s of footage. And on 12 s of footage under 9 s of audio with a
    script of one, three and three words, the last subtitle cue ends at
    9.000000000000002 by rounding, and this is how long the video written
    lasts: not the 9.0 of the claim. *)
Lemma assemble_video_sync_exceptions :
  (exists final st',
     assemble_video Example.mute_world "Rex" [selected (Example.clip "a.mp4") 12] "warm"
       "vertical" (Some Example.voice_path) Example.out_path
       (Some (Story.script Example.story)) Example.with_audio
     = (Ok Example.out_path, st') /\
     fs_exists (fs Example.with_audio) Example.voice_path = true /\
     open_audio Example.mute_world Example.voice_path = Ok 0 /\
     v_duration (footage Example.mute_world "vertical" [selected (Example.clip "a.mp4") 12])
     == 12 /\
     videos_written (trace st') = [(Example.out_path, final)] /\
     final_duration final == 12 /\
     ~ final_duration final == Qmin 12 0) /\
  (exists final st',
     assemble_video Example.world "Rex" [selected (Example.clip "a.mp4") 12] "warm"
       "vertical" (Some Example.mix_path) Example.out_path
       (Some (Py.of_string "Hi. One two three. Four five six.")) Example.with_audio
     = (Ok Example.out_path, st') /\
     fs_exists (fs Example.with_audio) Example.mix_path = true /\
     open_audio Example.world Example.mix_path = Ok 9 /\
     v_duration (footage Example.world "vertical" [selected (Example.clip "a.mp4") 12])
     == 12 /\
     videos_written (trace st') = [(Example.out_path, final)] /\
     final_duration final == (5066549580791809 # 562949953421312) /\
     9 < final_duration final).
Proof.
  split.
  - eexists. eexists. split; [vm_compute; reflexivity|].
    repeat split.
    intro H. vm_compute in H. discriminate.
  - eexists. eexists. split; [vm_compute; reflexivity|].
    split; [reflexivity|]. split; [reflexivity|]. split; [reflexivity|].
    split; [reflexivity|]. split; vm_compute; reflexivity.
Qed.

End AssembleVideoScenarios.

(** ** Pipeline Orchestrator *)

Section TraceLogic.

Variable P : Event -> bool.

Lemma adds_refl st : adds P st st.
Proof. exists []. rewrite app_nil_r. split; reflexivity. Qed.

Lemma adds_trans a b c : adds P a b -> adds P b c -> adds P a c.
Proof.
  intros (e1 & H1 & F1) (e2 & H2 & F2). exists (e1 ++ e2). split.
  - rewrite H2, H1, app_assoc. reflexivity.
  - rewrite forallb_app, F1, F2. reflexivity.
Qed.

Lemma adds_same_trace a b : trace b = trace a -> adds P a b.
Proof. intro H. exists []. rewrite app_nil_r. split; [exact H | reflexivity]. Qed.

Lemma adds_logged st events : forallb P events = true -> adds P st (logged st events).
Proof. intro H. exists events. split; [reflexivity | exact H]. Qed.

Lemma emits_ret {A} (a : A) : emits_only P (ret a).
Proof. intro st. apply adds_refl. Qed.

Lemma emits_raise {A} e : emits_only P (@raise A e).
Proof. intro st. apply adds_refl. Qed.

Lemma emits_lift {A} (r : Result A) : emits_only P (lift r).
Proof. intro st. apply adds_refl. Qed.

Lemma emits_path_exists p : emits_only P (path_exists p).
Proof. intro st. apply adds_refl. Qed.

Lemma emits_path_size p : emits_only P (path_size p).
Proof. intro st. unfold path_size. destruct (fs st p); apply adds_refl. Qed.

Lemma emits_call_fs {A} (f : FS -> Result A * FS) : emits_only P (call_fs f).
Proof.
  intro st. unfold call_fs. destruct (f (fs st)). apply adds_same_trace. reflexivity.
Qed.

Lemma emits_emit ev : P ev = true -> emits_only P (emit ev).
Proof.
  intros H st. unfold emit. simpl. exists [ev]. split; [reflexivity|].
  simpl. rewrite H. reflexivity.
Qed.

Lemma emits_bind {A B} (m : M A) (k : A -> M B) :
  emits_only P m -> (forall a, emits_only P (k a)) -> emits_only P (bind m k).
Proof.
  intros Hm Hk st. unfold bind. specialize (Hm st).
  destruct (m st) as [[a|e] st1]; simpl in Hm.
  - eapply adds_trans; [exact Hm | apply Hk].
  - exact Hm.
Qed.

Lemma emits_attempt {A} (m : M A) : emits_only P m -> emits_only P (attempt m).
Proof.
  intros Hm st. unfold attempt. specialize (Hm st).
  destruct (m st) as [r st1]. exact Hm.
Qed.

End TraceLogic.

(** One step of a proof that a computation only leaves events of a kind:
    take the computation apart along its binds and its case analyses. *)
Ltac emits_step :=
  first
    [ apply emits_ret | apply emits_raise | apply emits_lift
    | apply emits_path_exists | apply emits_path_size | apply emits_call_fs
    | apply emits_emit; reflexivity
    | apply emits_attempt
    | apply emits_bind; [|intro]
    | match goal with
      | |- emits_only _ (match ?x with _ => _ end) => destruct x
      end ].

Ltac emits := repeat emits_step.

Section StageRuns.

Import Edit Generate.

Variable w : World.

Lemma validate_run cfg st :
  validate cfg st
  = (if fs_exists (fs st) (pet_dir cfg) then Ok tt
     else Raise (Py.Exception
                   ("FileNotFoundError('Pet directory does not exist: "
                      ++ Py.path_str (pet_dir cfg) ++ "')")%string),
     st).
Proof.
  unfold validate, bind, path_exists, fs_exists.
  destruct (fs st (pet_dir cfg)); reflexivity.
Qed.

Lemma load_metadata_run dir st :
  load_metadata w dir st
  = (if fs_exists (fs st) (Py.path_join dir "metadata.json")
     then read_json w (Py.path_join dir "metadata.json")
     else Raise (Py.Exception
                   ("FileNotFoundError('metadata.json not found in "
                      ++ Py.path_str dir ++ "')")%string),
     st).
Proof.
  unfold load_metadata, bind, path_exists, fs_exists.
  destruct (fs st (Py.path_join dir "metadata.json")); reflexivity.
Qed.

Lemma narration_emits cfg story : emits_only video_only (narration w cfg story).
Proof. unfold narration. emits. Qed.

Lemma collect_clips_state clips_dir st : snd (collect_clips w clips_dir st) = st.
Proof.
  unfold collect_clips, bind, path_exists, lift.
  destruct (fs st clips_dir); [|reflexivity]. cbn [negb].
  destruct (iterdir w clips_dir); reflexivity.
Qed.

(** A listing that succeeds gives the candidates. *)
Lemma collect_clips_ok clips_dir st paths st' :
  collect_clips w clips_dir st = (Ok paths, st') ->
  st' = st /\ paths = candidates w clips_dir st.
Proof.
  intro H. pose proof (collect_clips_state clips_dir st) as Hst.
  unfold candidates. rewrite H in *. cbn [fst snd] in *. split; [exact Hst | reflexivity].
Qed.

(** The listing fails only on a path that exists and cannot be listed. *)
Lemma collect_clips_raises clips_dir st e st' :
  collect_clips w clips_dir st = (Raise e, st') ->
  fs_exists (fs st) clips_dir = true /\ iterdir w clips_dir = Raise e.
Proof.
  unfold collect_clips, bind, path_exists, lift, fs_exists.
  destruct (fs st clips_dir); [|discriminate]. cbn [negb].
  destruct (iterdir w clips_dir) as [listing|e0]; [discriminate|].
  intro H. injection H as <- _. split; reflexivity.
Qed.

Lemma collect_clips_run clips_dir st :
  (fs_exists (fs st) clips_dir = true -> exists listing, iterdir w clips_dir = Ok listing) ->
  collect_clips w clips_dir st = (Ok (candidates w clips_dir st), st).
Proof.
  intro Hlist.
  destruct (collect_clips w clips_dir st) as [[paths|e] st'] eqn:H.
  - destruct (collect_clips_ok clips_dir st paths st' H) as [-> ->]. reflexivity.
  - destruct (collect_clips_raises clips_dir st e st' H) as [Hex Hit].
    destruct (Hlist Hex) as [listing Hok]. congruence.
Qed.

Lemma safe_probe_emits p : emits_only video_only (_safe_probe_duration w p).
Proof. unfold _safe_probe_duration. emits. Qed.

Lemma pick_loop_emits E :
  forall paths visuals total, emits_only video_only (pick_loop w E paths visuals total).
Proof.
  induction paths as [|p rest IH]; intros visuals total; simpl.
  - emits.
  - apply emits_bind; [apply safe_probe_emits|]. intro d.
    destruct (Py.leb d 0); [apply IH|].
    destruct (Py.leb _ 0); [emits|].
    destruct (Py.leb E _); [emits | apply IH].
Qed.

Lemma safe_probe_fs p st : fs (snd (_safe_probe_duration w p st)) = fs st.
Proof. rewrite safe_probe_run. reflexivity. Qed.

Lemma pick_loop_fs E :
  forall paths visuals total st, fs (snd (pick_loop w E paths visuals total st)) = fs st.
Proof.
  induction paths as [|p rest IH]; intros visuals total st; simpl.
  - reflexivity.
  - unfold bind at 1. rewrite safe_probe_run.
    set (st1 := {| fs := fs st; trace := _ |}).
    destruct (Py.leb _ 0); [apply (IH visuals total st1)|].
    destruct (Py.leb _ 0); [reflexivity|].
    destruct (Py.leb E _); [reflexivity|]. apply (IH _ _ st1).
Qed.

(** Candidates none of which is readable: nothing is selected. *)
Lemma pick_loop_unreadable E :
  forall paths visuals total st,
    (forall p, In p paths -> readable w p = false) ->
    fst (pick_loop w E paths visuals total st) = Ok visuals.
Proof.
  induction paths as [|p rest IH]; intros visuals total st Hun; simpl.
  - reflexivity.
  - unfold bind at 1. rewrite safe_probe_run.
    assert (Hd : Py.leb (match probe w p with Ok d => Py.or_zero d | Raise _ => 0 end) 0
                 = true).
    { apply leb_true. apply Qnot_lt_le. intro Hpos.
      apply safe_probe_positive in Hpos. rewrite Hun in Hpos by (left; reflexivity).
      discriminate. }
    rewrite Hd. apply IH. intros q Hq. apply Hun. right. exact Hq.
Qed.

Lemma voice_present_run voice_file st :
  voice_present voice_file st
  = (Ok (match voice_file with
         | Some vf => fs_exists (fs st) vf
         | None => false
         end), st).
Proof.
  unfold voice_present, path_exists, fs_exists, ret.
  destruct voice_file as [vf|]; [destruct (fs st vf)|]; reflexivity.
Qed.

(** Without narration the audio block does nothing and yields no file. *)
Lemma audio_setup_absent cfg E voice_file st :
  match voice_file with Some vf => fs_exists (fs st) vf | None => false end = false ->
  audio_setup w cfg E voice_file st = (Ok None, st).
Proof.
  intro H. unfold audio_setup, bind at 1, attempt, bind at 1.
  rewrite voice_present_run, H. reflexivity.
Qed.

End StageRuns.

Section VideoOnly.

Import Edit Generate.

Variable w : World.

Lemma emits_bind_value {A B} (P : Event -> bool) (Q : A -> Prop)
  (m : M A) (k : A -> M B) :
  emits_only P m ->
  (forall st a, fst (m st) = Ok a -> Q a) ->
  (forall a, Q a -> emits_only P (k a)) ->
  emits_only P (bind m k).
Proof.
  intros Hm Hq Hk st. unfold bind. specialize (Hm st). specialize (Hq st).
  destruct (m st) as [[a|e] st1]; simpl in Hm, Hq.
  - eapply adds_trans; [exact Hm | apply Hk, Hq; reflexivity].
  - exact Hm.
Qed.

Lemma loads_video_only paths : forallb video_only (map EvLoadClip paths) = true.
Proof. induction paths as [|p ps IH]; [reflexivity | exact IH]. Qed.

Lemma load_clips_emits size visuals :
  emits_only video_only (load_clips w size visuals []).
Proof.
  intro st. rewrite load_clips_run. apply adds_logged, loads_video_only.
Qed.

Lemma add_subtitles_emits script v width height :
  emits_only video_only (add_subtitles w script v width height).
Proof. unfold add_subtitles. emits. Qed.

(** Called without an audio file, the assembler opens no audio and writes
    a video that has no audio track. *)
Lemma assemble_video_no_audio pet_name visuals tone aspect out_path script :
  emits_only video_only
    (assemble_video w pet_name visuals tone aspect None out_path script).
Proof.
  unfold assemble_video.
  apply emits_bind; [emits | intros _].
  destruct visuals as [|sc rest]; [emits|].
  apply emits_bind; [emits | intros _].
  destruct (_scale_for_aspect aspect) as [width height].
  apply emits_bind; [apply load_clips_emits | intro clips].
  destruct clips as [|c cs]; [emits|].
  apply (emits_bind_value video_only (fun v => v_audio v = None)).
  - unfold sync_audio. emits.
  - intros st a H. unfold sync_audio, ret in H. simpl in H. injection H as <-.
    reflexivity.
  - intros v Hv.
    apply (emits_bind_value video_only (fun f => final_audio f = None)).
    + apply add_subtitles_emits.
    + intros st f H.
      destruct (add_subtitles_run w script v width height st)
        as (final & st' & Hrun & Hbase & _).
      rewrite Hrun in H. simpl in H. injection H as <-.
      unfold final_audio. rewrite Hbase. exact Hv.
    + intros f Hf. apply emits_bind; [|intros _; emits].
      apply emits_emit. simpl. rewrite Hf. reflexivity.
Qed.

Lemma render_no_audio cfg out_path job :
  job_audio_file job = None ->
  emits_only video_only (render w cfg out_path job).
Proof.
  intro H. unfold render.
  apply emits_bind.
  - apply emits_attempt. unfold assemble_job. rewrite H.
    apply assemble_video_no_audio.
  - intro rendered. emits.
Qed.

(** Without narration, [generate_video] reaches the render, if it does,
    without any audio event and without an audio file. *)
Lemma prepare_without_narration cfg out_path st r st' :
  (forall metadata story,
     fst (load_metadata w (pet_dir cfg) st) = Ok metadata ->
     build_story w metadata = Ok story ->
     narration_absent w cfg story st = true) ->
  prepare w cfg out_path st = (r, st') ->
  adds video_only st st' /\
  (forall job, r = Ok (inr job) -> job_audio_file job = None).
Proof.
  intros Habsent Hrun. unfold prepare in Hrun.
  unfold bind at 1 in Hrun. rewrite validate_run in Hrun.
  destruct (fs_exists (fs st) (pet_dir cfg));
    [|injection Hrun as <- <-; split; [apply adds_refl | discriminate]].
  unfold bind at 1, attempt in Hrun.
  destruct (load_metadata w (pet_dir cfg) st) as [[metadata|e] st0] eqn:Hload.
  2:{ rewrite load_metadata_run in Hload. injection Hload as _ <-.
      injection Hrun as <- <-. split; [apply adds_refl | discriminate]. }
  pose proof Hload as Hst0. rewrite load_metadata_run in Hst0. injection Hst0 as _ <-.
  specialize (Habsent metadata). cbn [fst] in Habsent.
  unfold bind at 1, lift in Hrun.
  destruct (Story.get_name metadata) as [pet_name|e];
    [|injection Hrun as <- <-; split; [apply adds_refl | discriminate]].
  destruct (build_story w metadata) as [story|e];
    [|injection Hrun as <- <-; split; [apply adds_refl | discriminate]].
  specialize (Habsent story eq_refl eq_refl). unfold narration_absent in Habsent.
  pose proof (narration_emits w cfg story st) as Hn.
  unfold bind at 1 in Hrun.
  destruct (narration w cfg story st) as [[[voice_file vd]|e] st1]; simpl in Hn;
    [|injection Hrun as <- <-; split; [exact Hn | discriminate]].
  unfold bind at 1 in Hrun.
  pose proof (collect_clips_state w (Py.path_join (pet_dir cfg) "Clips") st1) as Hcs.
  destruct (collect_clips w (Py.path_join (pet_dir cfg) "Clips") st1)
    as [[clip_paths|e] stc]; cbn [snd] in Hcs; subst stc;
    [|injection Hrun as <- <-; split; [exact Hn | discriminate]].
  destruct clip_paths as [|p ps];
    [injection Hrun as <- <-; split; [exact Hn | discriminate]|].
  unfold bind at 1, pick_visuals in Hrun.
  set (E := _compute_effective_duration (target_duration cfg) vd) in *.
  pose proof (pick_loop_emits w E (p :: ps) [] 0 st1) as Hp.
  pose proof (pick_loop_fs w E (p :: ps) [] 0 st1) as Hfs.
  destruct (pick_loop w E (p :: ps) [] 0 st1) as [[visuals|e] st2]; simpl in Hp, Hfs;
    [|injection Hrun as <- <-; split; [exact (adds_trans _ _ _ _ Hn Hp) | discriminate]].
  destruct visuals as [|sc rest];
    [injection Hrun as <- <-; split; [exact (adds_trans _ _ _ _ Hn Hp) | discriminate]|].
  unfold bind at 1 in Hrun. rewrite audio_setup_absent in Hrun.
  - unfold bind, call_fs, ret in Hrun.
    destruct (mkdir w (Py.path_parent out_path) (fs st2)) as [[[]|e] fs3];
      injection Hrun as <- <-.
    + split.
      * eapply adds_trans; [exact (adds_trans _ _ _ _ Hn Hp)|].
        apply adds_same_trace. reflexivity.
      * intros job H. injection H as <-. reflexivity.
    + split; [|discriminate].
      eapply adds_trans; [exact (adds_trans _ _ _ _ Hn Hp)|].
      apply adds_same_trace. reflexivity.
  - rewrite Hfs. destruct voice_file as [vf|]; [|reflexivity].
    apply negb_true_iff in Habsent. exact Habsent.
Qed.

(** C10. Whenever narration is absent when the audio is set up (speech
    synthesis switched off, or failed on the script of the story the run
    builds, or its file missing), [generate_video] leaves no call of the
    audio track builder in the trace, writes and opens no audio, hands no
    audio file to the assembler, and any video it writes has no audio
    track. *)
Theorem generate_video_without_narration cfg out_path st :
  (forall metadata story,
     fst (load_metadata w (pet_dir cfg) st) = Ok metadata ->
     build_story w metadata = Ok story ->
     narration_absent w cfg story st = true) ->
  adds video_only st (snd (generate_video w cfg out_path st)).
Proof.
  intro Habsent.
  unfold generate_video, bind.
  destruct (prepare w cfg out_path st) as [r st1] eqn:Hrun.
  destruct (prepare_without_narration cfg out_path st r st1 Habsent Hrun) as [Hadds Hjob].
  destruct r as [[early|job]|e]; simpl.
  - exact Hadds.
  - eapply adds_trans; [exact Hadds|].
    apply render_no_audio. apply Hjob. reflexivity.
  - exact Hadds.
Qed.

(** The three ways narration can be absent. *)
Lemma narration_absent_tts_disabled cfg story st :
  use_tts cfg = false -> narration_absent w cfg story st = true.
Proof. intro H. unfold narration_absent, narration. rewrite H. reflexivity. Qed.

Lemma narration_absent_synthesis_failed cfg story st :
  (forall text dir speed f, exists e f', synth_voiceover w text dir speed f = (Raise e, f')) ->
  narration_absent w cfg story st = true.
Proof.
  intro H. unfold narration_absent, narration.
  destruct (use_tts cfg); [|reflexivity].
  unfold bind, attempt, call_fs, emit, ret. cbn [fs trace].
  destruct (mkdir w _ (fs st)) as [[[]|e] fs1]; [|reflexivity].
  cbn [fs trace].
  destruct (H (Story.script story) (Py.path_join (base_output_dir w) "voiceovers")
              (tts_speed cfg) fs1) as (e & f' & Hs).
  rewrite Hs. reflexivity.
Qed.

End VideoOnly.

(** The example subject with narration switched off. *)
Lemma generate_video_without_narration_witness :
  adds video_only Example.start
    (snd (Generate.generate_video Example.world Example.cfg_no_tts Example.out_path
            Example.start)).
Proof.
  apply (generate_video_without_narration Example.world Example.cfg_no_tts
           Example.out_path Example.start).
  intros metadata story _ _. reflexivity.
Defined.

Section Failures.

Import Edit Generate.

Variable w : World.

Lemma narration_returns cfg story st :
  exists vv, fst (narration w cfg story st) = Ok vv.
Proof.
  unfold narration. destruct (use_tts cfg); [|eexists; reflexivity].
  unfold bind at 1, attempt.
  match goal with
  | |- context [let (r, st') := ?m st in _] => destruct (m st) as [[vv|e] st1]
  end; eexists; reflexivity.
Qed.

Lemma prefix_refl s : String.prefix s s = true.
Proof.
  induction s as [|c s IH]; simpl; [reflexivity|].
  destruct (ascii_dec c c); [exact IH | congruence].
Qed.

Lemma contains_append pre needle : Py.contains needle (pre ++ needle) = true.
Proof.
  induction pre as [|c pre IH]; simpl.
  - destruct needle; simpl.
    + reflexivity.
    + rewrite prefix_refl. destruct (ascii_dec a a); [reflexivity | congruence].
  - match goal with
    | |- (if ?b then _ else _) = _ => destruct b; [reflexivity | exact IH]
    end.
Qed.

(** C6, as amended. For a subject whose directory exists, whose metadata
    loads (as a JSON object) and whose story is built, and whose [Clips/]
    folder (missing, or a folder that can be listed) holds no readable
    clip, [generate_video] returns a result with [success = false] and no
    output file. Its message names the clips directory when the folder
    yields no clip file at all; when the folder yields clip files none of
    which is readable, the message is the fixed text that all clips were
    unreadable. *)
Theorem generate_video_no_readable_clip cfg out_path st name story :
  fs_exists (fs st) (pet_dir cfg) = true ->
  fs_exists (fs st) (Py.path_join (pet_dir cfg) "metadata.json") = true ->
  read_json w (Py.path_join (pet_dir cfg) "metadata.json") = Ok (Story.JsonObject name) ->
  build_story w (Story.JsonObject name) = Ok story ->
  let clips_dir := Py.path_join (pet_dir cfg) "Clips" in
  let st1 := snd (narration w cfg story st) in
  (fs_exists (fs st1) clips_dir = true -> exists listing, iterdir w clips_dir = Ok listing) ->
  (forall p, In p (candidates w clips_dir st1) -> readable w p = false) ->
  exists g st',
    generate_video w cfg out_path st = (Ok g, st') /\
    success g = false /\
    outfile g = None /\
    (candidates w clips_dir st1 = [] ->
     exists msg, message g = Some msg /\
                 msg = ("No video clips found in " ++ Py.path_str clips_dir)%string /\
                 Py.contains (Py.path_str clips_dir) msg = true) /\
    (candidates w clips_dir st1 <> [] ->
     message g = Some "All clips were unreadable — cannot build video."%string).
Proof.
  intros Hdir Hmeta Hjson Hstory clips_dir st1 Hlist Hun.
  unfold generate_video, bind at 1, prepare.
  unfold bind at 1. rewrite validate_run, Hdir.
  unfold bind at 1, attempt. rewrite load_metadata_run, Hmeta, Hjson.
  unfold bind at 1, lift.
  assert (Hname : exists pet_name, Story.get_name (Story.JsonObject name) = Ok pet_name)
    by (destruct name; eexists; reflexivity).
  destruct Hname as [pet_name ->]. rewrite Hstory.
  unfold bind at 1.
  destruct (narration_returns cfg story st) as [[voice_file vd] Hn].
  unfold st1 in *. clear st1.
  destruct (narration w cfg story st) as [r st1]. simpl in Hn, Hun, Hlist. subst r.
  cbn [snd].
  unfold bind at 1. unfold clips_dir in *. clear clips_dir.
  rewrite (collect_clips_run w _ st1 Hlist).
  destruct (candidates w (Py.path_join (pet_dir cfg) "Clips") st1) as [|p ps] eqn:Hc.
  - eexists. eexists. split; [reflexivity|].
    split; [reflexivity|]. split; [reflexivity|]. split.
    + intros _. eexists. split; [reflexivity|]. split; [reflexivity|].
      apply contains_append.
    + intro H. congruence.
  - unfold bind at 1, pick_visuals.
    pose proof (pick_loop_unreadable w
                  (_compute_effective_duration (target_duration cfg) vd)
                  (p :: ps) [] 0 st1 Hun) as Hpick.
    destruct (pick_loop w _ (p :: ps) [] 0 st1) as [r st2]. simpl in Hpick. subst r.
    eexists. eexists. split; [reflexivity|].
    split; [reflexivity|]. split; [reflexivity|]. split.
    + intro H. discriminate H.
    + intros _. reflexivity.
Qed.

(** C7. When [assemble_video] raises an exception that is not a
    [MemoryError], [generate_video] returns a result with [success = false]
    whose output file is the output path exactly when a file is there, and
    is not empty, once the render has failed, and is absent otherwise. *)
Theorem generate_video_render_failure cfg out_path st job st1 reason st2 :
  prepare w cfg out_path st = (Ok (inr job), st1) ->
  assemble_job w cfg out_path job st1 = (Raise (Py.Exception reason), st2) ->
  exists g,
    generate_video w cfg out_path st = (Ok g, st2) /\
    success g = false /\
    message g = Some ("Rendering failed: " ++ reason)%string /\
    (file_nonempty (fs st2) out_path = true -> outfile g = Some out_path) /\
    (file_nonempty (fs st2) out_path = false -> outfile g = None).
Proof.
  intros Hprep Hasm.
  unfold generate_video, bind at 1. rewrite Hprep.
  unfold render, bind at 1, attempt. rewrite Hasm.
  unfold bind, path_exists, path_size, ret, file_nonempty.
  destruct (fs st2 out_path) as [s|] eqn:Hfs; cbn beta iota; rewrite ?Hfs.
  - destruct (0 <? st_size s)%N; eexists; (split; [reflexivity|]);
      repeat split; intro H; try reflexivity; discriminate H.
  - eexists. split; [reflexivity|]. repeat split; intro H;
      try reflexivity; discriminate H.
Qed.

End Failures.

Section FailureScenarios.

Import Generate.

(** The example subject once every clip file but the broken one is gone. *)
Lemma generate_video_no_readable_clip_witness :
  exists g st',
    generate_video Example.broken_world Example.cfg Example.out_path Example.start
    = (Ok g, st') /\
    success g = false /\
    outfile g = None /\
    message g = Some "All clips were unreadable — cannot build video."%string.
Proof.
  destruct (generate_video_no_readable_clip Example.broken_world Example.cfg
              Example.out_path Example.start
              (Some "Rex"%string) Example.story)
    as (g & st' & Hrun & Hs & Ho & _ & Hm).
  - reflexivity.
  - reflexivity.
  - reflexivity.
  - reflexivity.
  - intros _. eexists. reflexivity.
  - intros p Hp. vm_compute in Hp. destruct Hp as [<- | []]. reflexivity.
  - exists g, st'. repeat split; try assumption.
    apply Hm. vm_compute. discriminate.
Defined.

(** C6 as first stated fails on a [Clips/] folder that holds clip files
    none of which is readable: the result is a failure without output
    file, but its message does not name the clips directory. *)
Lemma generate_video_unreadable_clips_message :
  exists st' msg,
    forallb (fun p => negb (readable Example.broken_world p))
            (candidates Example.broken_world (Example.pet_dir ++ ["Clips"%string])
               Example.start) = true /\
    generate_video Example.broken_world Example.cfg Example.out_path Example.start
    = (Ok (failed msg), st') /\
    msg = "All clips were unreadable — cannot build video."%string /\
    Py.contains (Py.path_str (Example.pet_dir ++ ["Clips"%string])) msg = false /\
    Py.contains "Clips" msg = false.
Proof.
  eexists. eexists. split; [reflexivity|].
  split; [vm_compute; reflexivity|].
  repeat split.
Qed.

(** The example subject when the encoder breaks after writing 512 bytes:
    the failure is reported and the partial file is the artifact. *)
Lemma generate_video_render_failure_witness :
  exists g st2,
    generate_video Example.failing_world Example.cfg Example.out_path Example.start
    = (Ok g, st2) /\
    success g = false /\
    file_nonempty (fs st2) Example.out_path = true /\
    outfile g = Some Example.out_path.
Proof.
  edestruct (generate_video_render_failure Example.failing_world Example.cfg
               Example.out_path Example.start)
    as (g & Hrun & Hs & _ & Hsome & _).
  - vm_compute. reflexivity.
  - vm_compute. reflexivity.
  - exists g. eexists. split; [exact Hrun|]. split; [exact Hs|].
    split; [reflexivity|]. apply Hsome. reflexivity.
Defined.

End FailureScenarios.

(** * Further properties of the code *)

(** ** Clip Selector: order, trimming, exact fill *)

Section ClipSelectorShape.

Import Edit.

Variable w : World.
Variable E : Q.

(** What the loop appends while the budget is not reached: readable
    candidates, in their order and without a gap; it reads the candidates
    in order, leaves the disk alone, and stops reading at the clip with
    which the running total reaches the budget. *)
Lemma pick_loop_shape :
  forall clip_paths visuals st,
    running_total visuals < E ->
    exists new st' seen unseen,
      pick_loop w E clip_paths visuals (running_total visuals) st
      = (Ok (visuals ++ new), st') /\
      clip_paths = seen ++ unseen /\
      map path new = filter (readable w) seen /\
      fs st' = fs st /\
      trace st' = trace st ++ map EvProbe seen /\
      (unseen = [] \/
       (E <= running_total (visuals ++ new) /\
        exists seen0 new0 sc, seen = seen0 ++ [path sc] /\ new = new0 ++ [sc])).
Proof.
  induction clip_paths as [|p rest IH]; intros visuals st Hlt.
  - exists [], st, [], []. rewrite app_nil_r.
    split; [reflexivity|]. split; [reflexivity|]. split; [reflexivity|].
    split; [reflexivity|]. split; [symmetry; apply app_nil_r | left; reflexivity].
  - set (st1 := {| fs := fs st; trace := trace st ++ [EvProbe p] |}).
    destruct (readable w p) eqn:Hr.
    + rewrite (pick_loop_take w E p rest visuals st Hr Hlt). cbv zeta. fold st1.
      set (sc := selected p (assigned E (running_total visuals) (probed w p))).
      destruct (Py.leb E (running_total (visuals ++ [sc]))) eqn:Hfull.
      * apply leb_true in Hfull.
        exists [sc], st1, [p], rest.
        split; [reflexivity|]. split; [reflexivity|].
        split; [cbn [map filter]; rewrite Hr; reflexivity|].
        split; [reflexivity|]. split; [reflexivity|].
        right. split; [exact Hfull|]. exists [], [], sc. split; reflexivity.
      * apply leb_false in Hfull.
        destruct (IH (visuals ++ [sc]) st1 Hfull)
          as (new & st' & seen & unseen & Hrun & Hsplit & Hmap & Hfs & Htr & Hstop).
        rewrite <- app_assoc in Hrun, Hstop. cbn [app] in Hrun, Hstop.
        exists (sc :: new), st', (p :: seen), unseen.
        split; [exact Hrun|]. split; [rewrite Hsplit; reflexivity|].
        split; [cbn [map filter]; rewrite Hr, Hmap; reflexivity|].
        split; [exact Hfs|].
        split; [rewrite Htr; unfold st1; cbn [trace map]; rewrite <- app_assoc; reflexivity|].
        destruct Hstop as [Hu | (Hge & seen0 & new0 & sc0 & Hs & Hn)]; [left; exact Hu|].
        right. split; [exact Hge|].
        exists (p :: seen0), (sc :: new0), sc0. rewrite Hs, Hn. split; reflexivity.
    + rewrite (pick_loop_skip w E p rest visuals _ st Hr). fold st1.
      destruct (IH visuals st1 Hlt)
        as (new & st' & seen & unseen & Hrun & Hsplit & Hmap & Hfs & Htr & Hstop).
      exists new, st', (p :: seen), unseen.
      split; [exact Hrun|]. split; [rewrite Hsplit; reflexivity|].
      split; [cbn [filter]; rewrite Hr; exact Hmap|].
      split; [exact Hfs|].
      split; [rewrite Htr; unfold st1; cbn [trace map]; rewrite <- app_assoc; reflexivity|].
      destruct Hstop as [Hu | (Hge & seen0 & new0 & sc0 & Hs & Hn)]; [left; exact Hu|].
      right. split; [exact Hge|].
      exists (p :: seen0), new0, sc0. rewrite Hs. split; [reflexivity | exact Hn].
Qed.

(** X1. For a budget [E > 0], the clips [pick_visuals] selects are the
    readable candidates among the first candidates of the list, in the
    order of the list and without skipping a readable one: the selection
    is first-fit, never reordered. *)
Theorem pick_visuals_first_fit (clip_paths : list Path) (st : State) :
  0 < E ->
  exists visuals st' seen unseen,
    pick_visuals w clip_paths E st = (Ok visuals, st') /\
    clip_paths = seen ++ unseen /\
    map path visuals = filter (readable w) seen.
Proof.
  intro HE. unfold pick_visuals.
  destruct (pick_loop_shape clip_paths [] st HE)
    as (new & st' & seen & unseen & Hrun & Hsplit & Hmap & _).
  exists new, st', seen, unseen. repeat split; assumption.
Qed.

(** A clip is never given more than its probed duration, when budget and
    probed duration are floats, as they are in the code. *)
Lemma assigned_le total d :
  is_float E = true -> is_float d = true -> 0 < d ->
  assigned E total d <= d.
Proof.
  intros HE Hd Hpos. unfold assigned.
  destruct (Py.ltb E (Py.fadd total d)) eqn:Ht; [|lra].
  apply ltb_true in Ht.
  assert (Hover : E < total + d).
  { apply Qnot_le_lt. intro Hle.
    pose proof (fl_monotone _ _ Hle) as Hm. fold (Py.fadd total d) in Hm.
    rewrite (fl_float E HE) in Hm. lra. }
  assert (Hgap : Py.fsub E total <= d).
  { rewrite <- (fl_float d Hd). apply fl_monotone. lra. }
  unfold Py.max. destruct (Py.ltb 0 (Py.fsub E total)); lra.
Qed.

Lemma pick_loop_trims :
  is_float E = true ->
  (forall p, is_float (probed w p) = true) ->
  forall clip_paths visuals st,
    running_total visuals < E ->
    exists new st',
      pick_loop w E clip_paths visuals (running_total visuals) st
      = (Ok (visuals ++ new), st') /\
      (forall sc, In sc new ->
         0 < duration sc /\ duration sc <= probed w (path sc)).
Proof.
  intros HE Hprobe.
  induction clip_paths as [|p rest IH]; intros visuals st Hlt.
  - exists [], st. rewrite app_nil_r. split; [reflexivity | intros sc []].
  - set (st1 := {| fs := fs st; trace := trace st ++ [EvProbe p] |}).
    destruct (readable w p) eqn:Hr.
    + rewrite (pick_loop_take w E p rest visuals st Hr Hlt). cbv zeta. fold st1.
      pose proof (proj2 (probed_positive w p) Hr) as Hd.
      pose proof (assigned_positive E (running_total visuals) (probed w p) Hd Hlt) as Hpos.
      pose proof (assigned_le (running_total visuals) (probed w p) HE (Hprobe p) Hd) as Hle.
      set (sc := selected p (assigned E (running_total visuals) (probed w p))).
      destruct (Py.leb E (running_total (visuals ++ [sc]))) eqn:Hfull.
      * exists [sc], st1. split; [reflexivity|].
        intros sc' [<- | []]. split; assumption.
      * apply leb_false in Hfull.
        destruct (IH (visuals ++ [sc]) st1 Hfull) as (new & st' & Hrun & Hin).
        rewrite <- app_assoc in Hrun. cbn [app] in Hrun.
        exists (sc :: new), st'. split; [exact Hrun|].
        intros sc' [<- | H]; [split; assumption | apply (Hin sc' H)].
    + rewrite (pick_loop_skip w E p rest visuals _ st Hr). fold st1.
      apply (IH visuals st1 Hlt).
Qed.

(** X2. For a float budget [E > 0] and probes that return floats, every
    selected clip gets a positive duration that is at most the probed
    duration of its file: a clip is played whole or cut down, never
    stretched and never empty. *)
Theorem pick_visuals_trims_down (clip_paths : list Path) (st : State) :
  0 < E -> is_float E = true ->
  (forall p, is_float (probed w p) = true) ->
  exists visuals st',
    pick_visuals w clip_paths E st = (Ok visuals, st') /\
    (forall sc, In sc visuals ->
       0 < duration sc /\ duration sc <= probed w (path sc)).
Proof.
  intros HE Hfl Hprobe. unfold pick_visuals.
  apply (pick_loop_trims Hfl Hprobe clip_paths [] st HE).
Qed.


(** The loop started without a budget selects nothing. *)
Lemma pick_loop_exhausted :
  forall clip_paths visuals st,
    E <= 0 ->
    fst (pick_loop w E clip_paths visuals 0 st) = Ok visuals.
Proof.
  induction clip_paths as [|p rest IH]; intros visuals st Hge.
  - reflexivity.
  - cbn [pick_loop]. unfold bind at 1. rewrite safe_probe_run. fold (probed w p).
    destruct (Py.leb (probed w p) 0) eqn:Hd; [apply IH; exact Hge|].
    apply leb_false in Hd.
    assert (Hsum : 0 < Py.fadd 0 (probed w p)) by (apply fl_positive; lra).
    assert (Hgap : Py.fsub E 0 <= 0) by (apply fl_nonpos; lra).
    rewrite (proj2 (ltb_true E (Py.fadd 0 (probed w p)))) by lra.
    unfold Py.max. rewrite (proj2 (ltb_false 0 (Py.fsub E 0)) Hgap).
    rewrite (proj2 (leb_true 0 0)) by lra. reflexivity.
Qed.

(** X4. With a budget that is not positive, [pick_visuals] selects no
    clip, whatever the candidates are. *)
Theorem pick_visuals_no_budget (clip_paths : list Path) (st : State) :
  E <= 0 -> fst (pick_visuals w clip_paths E st) = Ok [].
Proof. intro HE. unfold pick_visuals. apply pick_loop_exhausted. exact HE. Qed.

(** A clip cut to the budget brings the running total within two
    roundings below the budget. *)
Lemma trimmed_fills total :
  0 <= total -> total < E ->
  E * npow (1 - Py.unit_roundoff) 2 <= Py.fadd total (Py.fsub E total).
Proof.
  intros H0 Hlt.
  destruct (fl_error (E - total)) as [Hr _]; [lra|]. fold (Py.fsub E total) in Hr.
  assert (Hgap : 0 < Py.fsub E total) by (apply fl_positive; lra).
  assert (Hu : 0 <= total * Py.unit_roundoff)
    by (apply Qmult_le_0_compat; [exact H0 | discriminate]).
  assert (Hpre : E * (1 - Py.unit_roundoff) <= total + Py.fsub E total) by lra.
  destruct (fl_error (total + Py.fsub E total)) as [Hr2 _]; [lra|].
  fold (Py.fadd total (Py.fsub E total)) in Hr2.
  assert (E * (1 - Py.unit_roundoff) * (1 - Py.unit_roundoff)
          <= (total + Py.fsub E total) * (1 - Py.unit_roundoff)).
  { apply Qmult_le_compat_r; [exact Hpre | discriminate]. }
  cbn [npow]. lra.
Qed.

(** The loop takes every readable candidate left whole, or fills the
    budget up to two roundings. *)
Lemma pick_loop_fill :
  forall clip_paths visuals st,
    0 <= running_total visuals -> running_total visuals < E ->
    exists new st',
      pick_loop w E clip_paths visuals (running_total visuals) st
      = (Ok (visuals ++ new), st') /\
      (new = map (fun p => selected p (probed w p)) (filter (readable w) clip_paths) \/
       (E * npow (1 - Py.unit_roundoff) 2 <= running_total (visuals ++ new) /\
        running_total (visuals ++ new) <= E * npow (1 + Py.unit_roundoff) 2)).
Proof.
  induction clip_paths as [|p rest IH]; intros visuals st H0 Hlt.
  - exists [], st. rewrite app_nil_r. split; [reflexivity | left; reflexivity].
  - set (st1 := {| fs := fs st; trace := trace st ++ [EvProbe p] |}).
    destruct (readable w p) eqn:Hr.
    + rewrite (pick_loop_take w E p rest visuals st Hr Hlt). cbv zeta. fold st1.
      pose proof (proj2 (probed_positive w p) Hr) as Hd.
      pose proof (assigned_positive E (running_total visuals) (probed w p) Hd Hlt) as Hpos.
      pose proof (assigned_bound E (running_total visuals) (probed w p) H0 Hlt Hd) as Hup.
      assert (HE : 0 <= E) by lra.
      set (d := assigned E (running_total visuals) (probed w p)) in *.
      assert (Hrt : running_total (visuals ++ [selected p d])
                    = Py.fadd (running_total visuals) d)
        by apply running_total_snoc.
      assert (Hnn : 0 <= running_total (visuals ++ [selected p d])).
      { rewrite Hrt. apply fl_nonneg. lra. }
      destruct (Py.ltb E (Py.fadd (running_total visuals) (probed w p))) eqn:Ht.
      * (* the clip is cut to what is left of the budget *)
        assert (Hd' : d = Py.fsub E (running_total visuals)).
        { unfold d, assigned. rewrite Ht.
          assert (Hgap : 0 < Py.fsub E (running_total visuals))
            by (apply fl_positive; lra).
          unfold Py.max. rewrite (proj2 (ltb_true _ _) Hgap). reflexivity. }
        pose proof (trimmed_fills (running_total visuals) H0 Hlt) as Hlo.
        rewrite <- Hd', <- Hrt in Hlo. rewrite <- Hrt in Hup.
        destruct (Py.leb E (running_total (visuals ++ [selected p d]))) eqn:Hfull.
        -- exists [selected p d], st1. split; [reflexivity|].
           right. split; assumption.
        -- apply leb_false in Hfull.
           destruct (pick_loop_invariant w E rest (visuals ++ [selected p d]) st1 Hnn Hfull)
             as (new & st' & Hrun & _ & _ & Hmono & Hb & _).
           rewrite <- app_assoc in Hrun, Hmono, Hb. cbn [app] in Hrun, Hmono, Hb.
           exists (selected p d :: new), st'. split; [exact Hrun|].
           right. split; [lra | exact Hb].
      * (* the clip is taken whole *)
        assert (Hd' : d = probed w p) by (unfold d, assigned; rewrite Ht; reflexivity).
        apply ltb_false in Ht. rewrite <- Hd', <- Hrt in Ht.
        destruct (Py.leb E (running_total (visuals ++ [selected p d]))) eqn:Hfull.
        -- apply leb_true in Hfull.
           exists [selected p d], st1. split; [reflexivity|].
           right. split.
           ++ apply Qle_trans with E; [apply down_bound; exact HE | exact Hfull].
           ++ apply Qle_trans with E; [exact Ht | apply up_bound; exact HE].
        -- apply leb_false in Hfull.
           destruct (IH (visuals ++ [selected p d]) st1 Hnn Hfull)
             as (new & st' & Hrun & Hcase).
           rewrite <- app_assoc in Hrun, Hcase. cbn [app] in Hrun, Hcase.
           exists (selected p d :: new), st'. split; [exact Hrun|].
           destruct Hcase as [Hall | Hfill]; [left | right; exact Hfill].
           cbn [filter]. rewrite Hr. cbn [map]. rewrite Hall, Hd'. reflexivity.
    + rewrite (pick_loop_skip w E p rest visuals _ st Hr). fold st1.
      destruct (IH visuals st1 H0 Hlt) as (new & st' & Hrun & Hcase).
      exists new, st'. split; [exact Hrun|].
      cbn [filter]. rewrite Hr. exact Hcase.
Qed.

(** X5. For a budget [E > 0], either every readable candidate is selected
    with its whole probed duration, or the running total of the selection
    is [E] up to two roundings: the budget is filled, to the rounding of
    the last cut, when the footage allows it. *)
Theorem pick_visuals_fills_budget (clip_paths : list Path) (st : State) :
  0 < E ->
  exists visuals st',
    pick_visuals w clip_paths E st = (Ok visuals, st') /\
    (visuals = map (fun p => selected p (probed w p)) (filter (readable w) clip_paths) \/
     (E * npow (1 - Py.unit_roundoff) 2 <= running_total visuals /\
      running_total visuals <= E * npow (1 + Py.unit_roundoff) 2)).
Proof.
  intro HE. unfold pick_visuals.
  apply (pick_loop_fill clip_paths [] st ltac:(discriminate) HE).
Qed.

End ClipSelectorShape.

Section ClipSelectorShapeRuns.

Import Edit.

(** The four files of the example under a budget of 50 s: the broken file
    is skipped and the last clip is cut to 10 s. *)
Lemma pick_visuals_first_fit_witness :
  exists visuals st' seen unseen,
    pick_visuals Example.world Example.listing 50 Example.start
    = (Ok visuals, st') /\
    Example.listing = seen ++ unseen /\
    map path visuals = filter (readable Example.world) seen.
Proof.
  apply (pick_visuals_first_fit Example.world 50 Example.listing Example.start).
  reflexivity.
Defined.

Lemma pick_visuals_trims_down_witness :
  exists visuals st',
    pick_visuals Example.world Example.listing 50 Example.start
    = (Ok visuals, st') /\
    (forall sc, In sc visuals ->
       0 < duration sc /\ duration sc <= probed Example.world (path sc)).
Proof.
  apply (pick_visuals_trims_down Example.world 50 Example.listing Example.start).
  - reflexivity.
  - vm_compute. reflexivity.
  - intro p. unfold probed, Example.world, probe, Example.clip_seconds.
    destruct (Py.path_eqb p (Example.clip "broken.mp4")); vm_compute; reflexivity.
Defined.

(** More than one clip can be cut: with a budget of 2.52 s and clips of
    0.51 s, 20 s and 20 s, the second clip is cut to 2.01 s, the running
    total is then one rounding below the budget, and the third clip is cut
    to the [2^-51] s that remain. *)
Lemma pick_visuals_cuts_twice :
  exists visuals st',
    pick_visuals Scenario.sliver_world
      [Example.clip "a.mp4"; Example.clip "b.mp4"; Example.clip "c.mp4"]
      (Py.fl (252 # 100)) Example.start
    = (Ok visuals, st') /\
    map duration visuals
    = [Py.fl (51 # 100); Py.fl (201 # 100); 1 # 2251799813685248].
Proof.
  eexists. eexists. split; vm_compute; reflexivity.
Qed.


Lemma pick_visuals_no_budget_witness :
  fst (pick_visuals Example.world Example.listing 0 Example.start) = Ok [].
Proof.
  apply (pick_visuals_no_budget Example.world 0 Example.listing Example.start).
  discriminate.
Defined.

(** 60 s of readable footage under a budget of 90 s. *)
Lemma pick_visuals_fills_budget_witness :
  exists visuals st',
    pick_visuals Example.world Example.listing 90 Example.start
    = (Ok visuals, st') /\
    (visuals = map (fun p => selected p (probed Example.world p))
                   (filter (readable Example.world) Example.listing) \/
     (90 * npow (1 - Py.unit_roundoff) 2 <= running_total visuals /\
      running_total visuals <= 90 * npow (1 + Py.unit_roundoff) 2)).
Proof.
  apply (pick_visuals_fills_budget Example.world 90 Example.listing Example.start).
  reflexivity.
Defined.

End ClipSelectorShapeRuns.

(** ** Video Assembler: loading, bounds, failures *)

Section Loading.

Import Edit.

Variable w : World.

Lemma survivors_cons size sc rest :
  survivors w size (sc :: rest)
  = match open_video w (path sc) with
    | Ok d => loaded size sc d :: survivors w size rest
    | Raise _ => survivors w size rest
    end.
Proof.
  unfold survivors at 1. cbn [load_clips]. unfold bind, emit.
  destruct (open_video w (path sc)) as [d|e].
  - rewrite load_clips_run. reflexivity.
  - rewrite load_clips_run. reflexivity.
Qed.

(** A clip that opens plays for the smaller of its assigned duration and
    its native duration. *)
Lemma loaded_duration size sc d :
  0 < duration sc -> 0 <= d ->
  v_duration (loaded size sc d) == Qmin (duration sc) d.
Proof.
  intros Hsc Hd. unfold loaded. cbn [load_clips]. unfold bind, emit, ret.
  cbn [open_video fst app].
  unfold video_file_clip at 1 2 3. cbn [v_duration].
  assert (T1 : Py.truthy (duration sc) = true).
  { unfold Py.truthy. destruct (Qeq_bool (duration sc) 0) eqn:E; [|reflexivity].
    apply Qeq_bool_iff in E. lra. }
  rewrite T1. cbn [andb].
  destruct (Py.truthy d) eqn:T2; cbn [andb].
  - destruct (Py.ltb (duration sc) d) eqn:T3.
    + apply ltb_true in T3.
      unfold video_subclip, subclip_bounds, video_file_clip. cbn [v_duration].
      rewrite (proj2 (ltb_false d 0)) by lra.
      rewrite (proj2 (ltb_false (duration sc) 0)) by lra.
      cbn. apply qmin_left; lra.
    + apply ltb_false in T3. cbn. apply qmin_right; lra.
  - cbn. unfold Py.truthy in T2. apply negb_false_iff in T2.
    apply Qeq_bool_iff in T2. apply qmin_right; lra.
Qed.

Lemma footage_bounds size visuals :
  (forall sc, In sc visuals -> 0 < duration sc) ->
  (forall sc d, In sc visuals -> open_video w (path sc) = Ok d -> 0 <= d) ->
  0 <= Py.sum (map v_duration (survivors w size visuals)) /\
  Py.sum (map v_duration (survivors w size visuals)) <= total_duration visuals.
Proof.
  unfold total_duration.
  induction visuals as [|sc rest IH]; intros Hpos Hnat.
  - unfold survivors. simpl. unfold Py.sum. simpl. lra.
  - rewrite survivors_cons. cbn [map]. rewrite sum_cons.
    assert (Hsc : 0 < duration sc) by (apply Hpos; left; reflexivity).
    destruct IH as [IH1 IH2].
    { intros x Hx. apply Hpos. right. exact Hx. }
    { intros x d Hx. apply Hnat. right. exact Hx. }
    destruct (open_video w (path sc)) as [d|e] eqn:Hopen.
    + assert (Hd : 0 <= d) by (apply (Hnat sc d); [left; reflexivity | exact Hopen]).
      cbn [map]. rewrite sum_cons.
      pose proof (loaded_duration size sc d Hsc Hd) as Hl.
      pose proof (Q.le_min_l (duration sc) d) as Hm1.
      assert (Hm2 : 0 <= Qmin (duration sc) d) by (apply Q.min_glb; lra).
      lra.
    + lra.
Qed.


End Loading.


Section NoVideoEvents.

Import Edit Generate.

Variable w : World.
Variable P : Event -> bool.
Hypothesis HP : forall ev, no_video ev = true -> P ev = true.

Ltac calm_step :=
  first
    [ apply emits_ret | apply emits_raise | apply emits_lift
    | apply emits_path_exists | apply emits_path_size | apply emits_call_fs
    | apply emits_emit; apply HP; reflexivity
    | apply emits_attempt
    | apply emits_bind; [|intro]
    | match goal with
      | |- emits_only _ (match ?x with _ => _ end) => destruct x
      end ].

Ltac calm := repeat calm_step.

Lemma narration_calm cfg story : emits_only P (narration w cfg story).
Proof. unfold narration. calm. Qed.

Lemma collect_clips_calm clips_dir : emits_only P (collect_clips w clips_dir).
Proof. intro st. rewrite collect_clips_state. apply adds_refl. Qed.

Lemma pick_loop_calm E :
  forall paths visuals total, emits_only P (pick_loop w E paths visuals total).
Proof.
  induction paths as [|p rest IH]; intros visuals total; simpl.
  - calm.
  - apply emits_bind; [unfold _safe_probe_duration; calm|]. intro d.
    destruct (Py.leb d 0); [apply IH|].
    destruct (Py.leb _ 0); [calm|].
    destruct (Py.leb E _); [calm | apply IH].
Qed.

Lemma find_default_music_calm : emits_only P (Audio._find_default_music w).
Proof. unfold Audio._find_default_music. calm. Qed.

Lemma build_audio_track_calm total voice_file music_file :
  emits_only P (Audio.build_audio_track w total voice_file music_file).
Proof.
  unfold Audio.build_audio_track.
  apply emits_bind; [calm | intros _].
  apply emits_bind.
  - destruct music_file; [calm | apply find_default_music_calm].
  - intro m. calm.
Qed.

Lemma voice_present_calm voice_file : emits_only P (voice_present voice_file).
Proof. unfold voice_present. calm. Qed.

Lemma audio_setup_calm cfg E voice_file :
  emits_only P (audio_setup w cfg E voice_file).
Proof.
  unfold audio_setup.
  apply emits_bind.
  - apply emits_attempt. apply emits_bind; [apply voice_present_calm|].
    intros [|]; [|calm].
    apply emits_bind; [apply emits_attempt, build_audio_track_calm|].
    intro built. calm.
  - intro r. destruct r; [calm|].
    apply emits_bind; [apply voice_present_calm|]. intro b. calm.
Qed.

Lemma prepare_calm cfg out_path : emits_only P (prepare w cfg out_path).
Proof.
  unfold prepare.
  apply emits_bind; [unfold validate; calm | intros _].
  apply emits_bind; [apply emits_attempt; unfold load_metadata; calm | intro loaded].
  destruct loaded as [metadata|e]; [|calm].
  apply emits_bind; [calm | intro pet_name].
  destruct (build_story w metadata) as [story|e]; [|calm].
  apply emits_bind; [apply narration_calm | intros [voice_file vd]].
  apply emits_bind; [apply collect_clips_calm | intro clip_paths].
  destruct clip_paths as [|p ps]; [calm|].
  apply emits_bind; [apply pick_loop_calm | intro visuals].
  destruct visuals as [|sc rest]; [calm|].
  apply emits_bind; [apply audio_setup_calm | intro audio_file].
  calm.
Qed.

Lemma load_clips_calm size visuals : emits_only P (load_clips w size visuals []).
Proof.
  intro st. rewrite load_clips_run. apply adds_logged.
  induction (map path visuals) as [|p ps IH]; [reflexivity|].
  simpl. rewrite HP by reflexivity. exact IH.
Qed.

Lemma sync_audio_calm audio_file v : emits_only P (sync_audio w audio_file v).
Proof. unfold sync_audio. calm. Qed.

Lemma add_subtitles_calm script v width height :
  emits_only P (add_subtitles w script v width height).
Proof. unfold add_subtitles. calm. Qed.

End NoVideoEvents.

Section DurationCeiling.

Import Edit Generate.

Variable w : World.

Lemma within_upto_no_video k B ev : no_video ev = true -> within_upto k B ev = true.
Proof. destruct ev; simpl; intro H; try reflexivity; discriminate H. Qed.

Lemma le_upto_le_r k x y y' : y <= y' -> le_upto k x y -> le_upto k x y'.
Proof.
  unfold le_upto. intros Hle H. pose proof (up_pos k) as Hk.
  assert (y * npow (1 + Py.unit_roundoff) k <= y' * npow (1 + Py.unit_roundoff) k)
    by (apply Qmult_le_compat_r; lra).
  lra.
Qed.

Lemma within_upto_true k B p clip :
  within_upto k B (EvWriteVideo p clip) = true <-> le_upto k (final_duration clip) B.
Proof. unfold within_upto, le_upto. apply leb_true. Qed.

(** A bound up to [j] roundings below a larger bound reached within [k]
    more roundings. *)
Lemma within_upto_weaken j k B B' ev :
  0 <= B -> le_upto k B B' ->
  (forall p clip, ev = EvWriteVideo p clip -> 0 <= final_duration clip) ->
  within_upto j B ev = true -> within_upto (j + k) B' ev = true.
Proof.
  intros HB Hle Hnn. destruct ev; try reflexivity.
  rewrite !within_upto_true. intro H.
  apply (le_upto_trans j k _ B); assumption.
Qed.

Lemma adds_weaken (P P' : Event -> bool) st st' :
  (forall ev, P ev = true -> P' ev = true) -> adds P st st' -> adds P' st st'.
Proof.
  intros Himp (events & Htr & Hall). exists events. split; [exact Htr|].
  apply forallb_forall. intros ev Hev. apply Himp.
  apply (proj1 (forallb_forall P events) Hall ev Hev).
Qed.

(** The audio block never lengthens the footage. *)
Lemma sync_audio_shortens audio_file v st v' :
  0 <= v_duration v ->
  fst (sync_audio w audio_file v st) = Ok v' ->
  0 <= v_duration v' /\ v_duration v' <= v_duration v.
Proof.
  intros Hv H. destruct audio_file as [p|];
    [|simpl in H; injection H as <-; lra].
  destruct (fs_exists (fs st) p) eqn:Hex.
  - destruct (open_audio w p) as [adur|e] eqn:Hopen.
    + destruct (Qlt_le_dec 0 adur) as [Hpos | Hneg].
      * destruct (sync_audio_trims w p v adur st Hex Hopen Hpos Hv)
          as (v2 & a & Hrun & _ & _ & Hd & _).
        rewrite Hrun in H. simpl in H. injection H as <-.
        pose proof (min_le_l (v_duration v) adur) as Hl.
        assert (0 <= Py.min (v_duration v) adur).
        { unfold Py.min. destruct (Py.ltb adur (v_duration v)); lra. }
        lra.
      * rewrite (sync_audio_silent w p v adur st Hex Hopen Hneg) in H.
        simpl in H. injection H as <-. lra.
    + unfold sync_audio, bind, path_exists, emit, lift in H.
      unfold fs_exists in Hex. destruct (fs st p); [|discriminate Hex].
      simpl in H. rewrite Hopen in H. discriminate H.
  - unfold sync_audio, bind, path_exists in H.
    unfold fs_exists in Hex. destruct (fs st p); [discriminate Hex|].
    simpl in H. injection H as <-. lra.
Qed.

(** Whatever [assemble_video] writes lasts at most the sum of the assigned
    durations, up to the roundings of the cue times. *)
Lemma assemble_video_bounded pet_name visuals tone aspect audio_file out_path script :
  (forall sc, In sc visuals -> 0 < Edit.duration sc) ->
  (forall sc d, In sc visuals -> open_video w (path sc) = Ok d -> 0 <= d) ->
  emits_only (within_upto (cue_roundings script) (total_duration visuals))
    (assemble_video w pet_name visuals tone aspect audio_file out_path script).
Proof.
  intros Hpos Hnat.
  set (B := total_duration visuals). set (K := cue_roundings script).
  pose proof (within_upto_no_video K B) as HP.
  unfold assemble_video.
  apply emits_bind; [apply emits_emit; reflexivity | intros _].
  destruct visuals as [|sc0 rest0] eqn:Hvis; [apply emits_raise|].
  rewrite <- Hvis in *.
  apply emits_bind; [apply emits_call_fs | intros _].
  destruct (_scale_for_aspect aspect) as [width height].
  apply (emits_bind_value _ (fun clips => clips = survivors w (width, height) visuals)).
  - apply load_clips_calm. exact HP.
  - intros st clips H. rewrite load_clips_run in H. simpl in H.
    injection H as <-. reflexivity.
  - intros clips ->.
    destruct (footage_bounds w (width, height) visuals Hpos Hnat) as [Hlo Hhi].
    destruct (survivors w (width, height) visuals) as [|c cs] eqn:Hsurv;
      [apply emits_raise|].
    apply (emits_bind_value _ (fun v => 0 <= v_duration v /\ v_duration v <= B)).
    + apply sync_audio_calm. exact HP.
    + intros st v H.
      apply sync_audio_shortens in H; [|exact Hlo].
      change (v_duration (concatenate_videoclips (c :: cs)))
        with (Py.sum (map v_duration (c :: cs))) in H.
      destruct H. split; [assumption|]. unfold B. rewrite <- Hvis. lra.
    + intros v [Hv0 HvB].
      apply (emits_bind_value _ (fun f => le_upto K (final_duration f) B)).
      * apply add_subtitles_calm. exact HP.
      * intros st f H.
        destruct (add_subtitles_run w script v width height st)
          as (final & st' & Hrun & _ & _ & _ & _ & _ & Hdur).
        rewrite Hrun in H. simpl in H. injection H as <-.
        apply (le_upto_le_r _ _ (v_duration v)); [exact HvB | apply Hdur; exact Hv0].
      * intros f Hf. apply emits_bind.
        -- apply emits_emit. apply within_upto_true. exact Hf.
        -- intros _. apply emits_bind; [apply emits_call_fs | intros _; apply emits_ret].
Qed.


Lemma effective_duration_bounds T vd :
  (0 < T)%Z ->
  0 < _compute_effective_duration T vd /\
  _compute_effective_duration T vd <= inject_Z T.
Proof.
  intro HT.
  assert (HTq : 0 < inject_Z T).
  { change 0 with (inject_Z 0). rewrite <- Zlt_Qlt. exact HT. }
  unfold _compute_effective_duration.
  destruct vd as [v|]; [|lra].
  destruct (Py.ltb 0 v) eqn:Hv; [|lra].
  apply ltb_true in Hv. pose proof (min_le_l (inject_Z T) (v + 1)).
  split; [|assumption].
  unfold Py.min. destruct (Py.ltb (v + 1) (inject_Z T)); lra.
Qed.

(** What the selection hands to the render under a positive budget. *)
Lemma pick_visuals_job paths E st visuals :
  0 < E ->
  fst (pick_visuals w paths E st) = Ok visuals ->
  running_total visuals <= E * npow (1 + Py.unit_roundoff) 2 /\
  (forall sc, In sc visuals -> 0 < Edit.duration sc).
Proof.
  intros HE H. unfold pick_visuals in H.
  destruct (pick_loop_invariant w E paths [] st ltac:(discriminate) HE)
    as (res & st' & Hrun & Hin & _ & _ & Hb & _).
  change (pick_loop w E paths [] (running_total []) st = (Ok res, st')) in Hrun.
  change (fst (pick_loop w E paths [] (running_total []) st) = Ok visuals) in H.
  rewrite Hrun in H. cbn [fst] in H. injection H as <-.
  split; [exact Hb|]. intros sc Hsc. apply (Hin sc Hsc).
Qed.

(** The render [prepare] sets up: the story of the run, the effective
    duration of its narration, which fits the configured target, and a
    selection that fits the effective duration up to two roundings. *)
Lemma prepare_job cfg out_path st job st1 :
  (0 < target_duration cfg)%Z ->
  prepare w cfg out_path st = (Ok (inr job), st1) ->
  job_visuals job <> [] /\
  (forall sc, In sc (job_visuals job) -> 0 < Edit.duration sc) /\
  running_total (job_visuals job)
  <= job_effective_duration job * npow (1 + Py.unit_roundoff) 2 /\
  0 < job_effective_duration job /\
  job_effective_duration job <= inject_Z (target_duration cfg) /\
  exists metadata voice_file vd,
    fst (load_metadata w (pet_dir cfg) st) = Ok metadata /\
    build_story w metadata = Ok (job_story job) /\
    fst (narration w cfg (job_story job) st) = Ok (voice_file, vd) /\
    job_effective_duration job
    = _compute_effective_duration (target_duration cfg) vd.
Proof.
  intros HT Hrun. unfold prepare in Hrun.
  unfold bind at 1 in Hrun. rewrite validate_run in Hrun.
  destruct (fs_exists (fs st) (pet_dir cfg)); [|discriminate Hrun].
  unfold bind at 1, attempt in Hrun.
  destruct (load_metadata w (pet_dir cfg) st) as [[metadata|e] st0] eqn:Hload;
    [|discriminate Hrun].
  pose proof Hload as Hst0. rewrite load_metadata_run in Hst0. injection Hst0 as _ <-.
  unfold bind at 1, lift in Hrun.
  destruct (Story.get_name metadata) as [pet_name|e]; [|discriminate Hrun].
  destruct (build_story w metadata) as [story|e] eqn:Hstory; [|discriminate Hrun].
  unfold bind at 1 in Hrun.
  destruct (narration w cfg story st) as [[[voice_file vd]|e] st0] eqn:Hnar;
    [|discriminate Hrun].
  unfold bind at 1 in Hrun.
  destruct (collect_clips w (Py.path_join (pet_dir cfg) "Clips") st0)
    as [[[|p ps]|e] stc]; try discriminate Hrun.
  unfold bind at 1 in Hrun.
  destruct (effective_duration_bounds (target_duration cfg) vd HT) as [HE0 HET].
  set (E := _compute_effective_duration (target_duration cfg) vd) in *.
  pose proof (pick_visuals_job (p :: ps) E stc) as Hpick.
  destruct (pick_visuals w (p :: ps) E stc) as [[visuals|e] st2]; [|discriminate Hrun].
  specialize (Hpick visuals HE0 eq_refl). destruct Hpick as [Hsum Hpos].
  destruct visuals as [|sc rest]; [discriminate Hrun|].
  unfold bind at 1 in Hrun.
  destruct (audio_setup w cfg E voice_file st2) as [[audio_file|e] st3];
    [|discriminate Hrun].
  unfold bind, call_fs, ret in Hrun.
  destruct (mkdir w (Py.path_parent out_path) (fs st3)) as [[[]|e] fs4];
    [|discriminate Hrun].
  injection Hrun as <- _. cbn [job_visuals job_effective_duration job_story].
  split; [discriminate|]. split; [exact Hpos|]. split; [exact Hsum|].
  split; [exact HE0|]. split; [exact HET|].
  exists metadata, voice_file, vd.
  split; [reflexivity|]. split; [exact Hstory|]. split; [|reflexivity].
  rewrite Hnar. reflexivity.
Qed.

(** The exact sum of durations that are not negative is at most their
    float sum, up to one rounding for each. *)
Lemma total_duration_upto visuals :
  (forall sc, In sc visuals -> 0 < Edit.duration sc) ->
  le_upto (List.length visuals) (total_duration visuals) (running_total visuals).
Proof.
  intro Hpos. unfold total_duration, running_total.
  rewrite <- (length_map Edit.duration visuals).
  apply fsum_close. intros x Hx. apply in_map_iff in Hx.
  destruct Hx as (sc & <- & Hsc). apply Qlt_le_weak, Hpos, Hsc.
Qed.

(** X8. For a configured target [T > 0], when every file that opens has a
    duration that is not negative, a video that [generate_video] writes
    lasts at most [T] seconds up to the roundings of the run, whatever
    narration, music, subtitles and clips turn out to be: the configured
    duration is a ceiling, to the rounding. *)
Theorem generate_video_within_target cfg out_path st :
  (0 < target_duration cfg)%Z ->
  (forall p d, open_video w p = Ok d -> 0 <= d) ->
  adds (within_upto (job_roundings w cfg out_path st) (inject_Z (target_duration cfg))) st
    (snd (generate_video w cfg out_path st)).
Proof.
  intros HT Hnat.
  set (T := inject_Z (target_duration cfg)).
  set (K := job_roundings w cfg out_path st).
  pose proof (prepare_calm w (within_upto K T) (within_upto_no_video K T) cfg out_path st)
    as Hprep.
  unfold generate_video, bind.
  unfold K, job_roundings in *.
  destruct (prepare w cfg out_path st) as [[[early|job]|e] st1] eqn:Hrun;
    cbn [fst snd] in *; try exact Hprep.
  eapply adds_trans; [exact Hprep|].
  destruct (prepare_job cfg out_path st job st1 HT Hrun)
    as (_ & Hpos & Hsum & HE0 & HET & _).
  set (K1 := cue_roundings (Some (Story.script (job_story job)))).
  set (m := List.length (job_visuals job)).
  assert (Hbudget : le_upto (m + 2) (total_duration (job_visuals job)) T).
  { apply (le_upto_trans m 2 _ (running_total (job_visuals job))).
    - apply total_duration_upto. exact Hpos.
    - apply (le_upto_le_r _ _ (job_effective_duration job)); [exact HET|].
      unfold le_upto.
      apply Qle_trans with (running_total (job_visuals job)); [|exact Hsum].
      apply down_bound. apply fsum_nonneg. intros x Hx. apply in_map_iff in Hx.
      destruct Hx as (sc & <- & Hsc). apply Qlt_le_weak, Hpos, Hsc. }
  assert (Htot : 0 <= total_duration (job_visuals job)).
  { apply sum_nonneg. intros x Hx. apply in_map_iff in Hx.
    destruct Hx as (sc & <- & Hsc). apply Qlt_le_weak, Hpos, Hsc. }
  unfold render.
  apply emits_bind.
  - apply emits_attempt. unfold assemble_job.
    intro st2. eapply adds_weaken; [|apply assemble_video_bounded].
    + intros ev Hev. fold K1 in Hev.
      replace (K1 + m + 2)%nat with (K1 + (m + 2))%nat by lia.
      destruct ev; try reflexivity.
      apply within_upto_true. apply within_upto_true in Hev.
      apply (le_upto_trans K1 (m + 2) _ (total_duration (job_visuals job)));
        assumption.
    + exact Hpos.
    + intros sc d _. apply Hnat.
  - intro rendered.
    pose proof (within_upto_no_video (K1 + m + 2) T) as HP.
    destruct rendered as [final_path|[r|r]].
    + apply emits_ret.
    + apply emits_ret.
    + apply emits_bind; [apply emits_path_exists | intro ex].
      apply emits_bind; [|intro; apply emits_ret].
      destruct ex; [|apply emits_ret].
      apply emits_bind; [apply emits_path_size | intro; apply emits_ret].
Qed.

End DurationCeiling.


Lemma example_job_roundings :
  job_roundings Example.world Example.cfg Example.out_path Example.start = 11%nat.
Proof. vm_compute. reflexivity. Qed.

Lemma generate_video_within_target_witness :
  adds (within_upto 11 40) Example.start
    (snd (Generate.generate_video Example.world Example.cfg Example.out_path
            Example.start)).
Proof.
  rewrite <- example_job_roundings.
  apply (generate_video_within_target Example.world Example.cfg Example.out_path
           Example.start).
  - reflexivity.
  - intros p d H. unfold Example.world, open_video, Example.clip_seconds in H.
    destruct (Py.path_eqb p (Example.clip "broken.mp4"));
      [discriminate H | injection H as <-; discriminate].
Defined.

(** ** Pipeline Orchestrator: what is raised, what is returned *)

Section Outcomes.

Import Edit Generate.

Variable w : World.




(** What [assemble_video] has done when it returns: it returns the output
    path, and the last thing it did was to write one video there. *)
Lemma assemble_video_returns pet_name visuals tone aspect audio_file out_path script
  st p st' :
  assemble_video w pet_name visuals tone aspect audio_file out_path script st = (Ok p, st') ->
  p = out_path /\
  exists events final,
    trace st' = trace st ++ events ++ [EvWriteVideo out_path final] /\
    forallb no_video events = true.
Proof.
  intro Hrun. unfold assemble_video in Hrun.
  unfold bind at 1, emit in Hrun.
  destruct visuals as [|sc0 rest0] eqn:Hvis; [discriminate Hrun|].
  rewrite <- Hvis in *.
  unfold bind at 1, call_fs in Hrun. cbn [fs trace] in Hrun.
  destruct (mkdir w (Py.path_parent out_path) (fs st)) as [[[]|e] fs1];
    [|discriminate Hrun].
  destruct (_scale_for_aspect aspect) as [width height].
  unfold bind at 1 in Hrun. rewrite load_clips_run in Hrun.
  destruct (survivors w (width, height) visuals) as [|c cs]; [discriminate Hrun|].
  cbn [app] in Hrun.
  set (st2 := logged _ _) in Hrun.
  unfold bind at 1 in Hrun.
  pose proof (sync_audio_calm w no_video (fun ev H => H) audio_file
                (concatenate_videoclips (c :: cs)) st2) as Hs.
  destruct (sync_audio w audio_file (concatenate_videoclips (c :: cs)) st2)
    as [[v|e] st3]; [|discriminate Hrun].
  simpl in Hs. destruct Hs as (ev3 & Htr3 & Hall3).
  unfold bind at 1 in Hrun.
  pose proof (add_subtitles_calm w no_video (fun ev H => H) script v width height st3)
    as Ha.
  destruct (add_subtitles w script v width height st3) as [[final|e] st4];
    [|discriminate Hrun].
  simpl in Ha. destruct Ha as (ev4 & Htr4 & Hall4).
  unfold bind, emit, call_fs, ret in Hrun. cbn [fs trace] in Hrun.
  destruct (write_videofile w out_path final (fs st4)) as [[[]|e] fs5];
    [|discriminate Hrun].
  injection Hrun as <- <-. split; [reflexivity|].
  exists (EvAssemble audio_file :: map EvLoadClip (map path visuals) ++ ev3 ++ ev4), final.
  cbn [trace]. split.
  - rewrite Htr4, Htr3. unfold st2, logged. cbn [trace].
    rewrite <- !app_assoc. cbn [app]. rewrite <- !app_assoc. reflexivity.
  - cbn [forallb no_video andb]. rewrite !forallb_app, Hall3, Hall4.
    rewrite andb_true_r. clear.
    induction (map path visuals) as [|q qs IH]; [reflexivity | exact IH].
Qed.


(** Every early return of [prepare] is a failed result. *)
Lemma prepare_early cfg out_path st early st1 :
  prepare w cfg out_path st = (Ok (inl early), st1) -> exists msg, early = failed msg.
Proof.
  intro Hprep. unfold prepare in Hprep.
  unfold bind at 1 in Hprep. rewrite validate_run in Hprep.
  destruct (fs_exists (fs st) (pet_dir cfg)); [|discriminate Hprep].
  unfold bind at 1, attempt in Hprep. rewrite load_metadata_run in Hprep.
  destruct (if fs_exists (fs st) (Py.path_join (pet_dir cfg) "metadata.json")
            then read_json w (Py.path_join (pet_dir cfg) "metadata.json")
            else _) as [metadata|e0];
    [|injection Hprep as <- _; eexists; reflexivity].
  unfold bind at 1, lift in Hprep.
  destruct (Story.get_name metadata) as [pet_name|e0]; [|discriminate Hprep].
  destruct (build_story w metadata) as [story|e0];
    [|injection Hprep as <- _; eexists; reflexivity].
  unfold bind at 1 in Hprep.
  destruct (narration w cfg story st) as [[[voice_file vd]|e0] st0];
    [|discriminate Hprep].
  unfold bind at 1 in Hprep.
  destruct (collect_clips w (Py.path_join (pet_dir cfg) "Clips") st0)
    as [[[|p ps]|e0] stc];
    [injection Hprep as <- _; eexists; reflexivity| |discriminate Hprep].
  unfold bind at 1 in Hprep.
  destruct (pick_visuals w (p :: ps) _ stc) as [[visuals|e0] st2];
    [|discriminate Hprep].
  destruct visuals as [|sc rest];
    [injection Hprep as <- _; eexists; reflexivity|].
  unfold bind at 1 in Hprep.
  destruct (audio_setup w cfg _ voice_file st2) as [[audio_file|e0] st3];
    [|discriminate Hprep].
  unfold bind, call_fs, ret in Hprep.
  destruct (mkdir w (Py.path_parent out_path) (fs st3)) as [[[]|e0] fs4];
    discriminate Hprep.
Qed.

(** X10. A result of [generate_video] is consistent, for a target
    [T > 0]. On success the output file is the output path, one video was
    written there as the last step of the run, and the duration reported
    is the effective duration of the run: that of [T] and of the narration
    measured for the story built from the metadata loaded; it is positive
    and at most [T]. On failure no duration is reported, and an output
    file is reported only if it is the output path and a file that is not
    empty is there. *)
Theorem generate_video_result cfg out_path st g st' :
  (0 < target_duration cfg)%Z ->
  generate_video w cfg out_path st = (Ok g, st') ->
  (success g = true ->
   outfile g = Some out_path /\
   message g = Some "Video generated successfully."%string /\
   (exists metadata story voice_file vd,
      fst (load_metadata w (pet_dir cfg) st) = Ok metadata /\
      build_story w metadata = Ok story /\
      fst (narration w cfg story st) = Ok (voice_file, vd) /\
      duration g = Some (_compute_effective_duration (target_duration cfg) vd) /\
      0 < _compute_effective_duration (target_duration cfg) vd /\
      _compute_effective_duration (target_duration cfg) vd
      <= inject_Z (target_duration cfg)) /\
   (exists events final, trace st' = trace st ++ events ++ [EvWriteVideo out_path final] /\
                         forallb no_video events = true)) /\
  (success g = false ->
   duration g = None /\
   (outfile g = None \/
    (outfile g = Some out_path /\ file_nonempty (fs st') out_path = true))).
Proof.
  intros HT H. unfold generate_video, bind at 1 in H.
  pose proof (prepare_calm w no_video (fun ev H => H) cfg out_path st) as Hcalm.
  destruct (prepare w cfg out_path st) as [[[early|job]|e0] st1] eqn:Hprep;
    [| |discriminate H].
  - unfold ret in H. injection H as <- <-.
    destruct (prepare_early cfg out_path st early st1 Hprep) as [msg ->].
    split; [discriminate|].
    intros _. split; [reflexivity | left; reflexivity].
  - destruct (prepare_job w cfg out_path st job st1 HT Hprep)
      as (_ & _ & _ & HE0 & HET & metadata & voice_file & vd
          & Hload & Hstory & Hnar & HE).
    simpl in Hcalm. destruct Hcalm as (ev1 & Htr1 & Hall1).
    unfold render, bind at 1, attempt in H. unfold assemble_job in H.
    destruct (assemble_video w (job_pet_name job) (job_visuals job)
                (Story.tone_arc (job_story job)) (aspect cfg) (job_audio_file job)
                out_path (Some (Story.script (job_story job))) st1)
      as [[p|[r|r]] st2] eqn:Hasm.
    + destruct (assemble_video_returns _ _ _ _ _ _ _ _ _ _ Hasm)
        as (-> & ev2 & final & Htr2 & Hall2).
      unfold ret in H. injection H as <- <-. split; [|discriminate].
      intros _. cbn [outfile message duration].
      split; [reflexivity|]. split; [reflexivity|]. split.
      * exists metadata, (job_story job), voice_file, vd.
        rewrite <- HE.
        split; [exact Hload|]. split; [exact Hstory|]. split; [exact Hnar|].
        split; [reflexivity|]. split; assumption.
      * exists (ev1 ++ ev2), final. split.
        -- rewrite Htr2, Htr1, <- !app_assoc. reflexivity.
        -- rewrite forallb_app, Hall1, Hall2. reflexivity.
    + unfold ret in H. injection H as <- <-. split; [discriminate|].
      intros _. split; [reflexivity | left; reflexivity].
    + unfold bind, path_exists, path_size, ret, file_nonempty in H.
      destruct (fs st2 out_path) as [s|] eqn:Hfs; cbn beta iota in H;
        rewrite ?Hfs in H.
      * destruct (0 <? st_size s)%N eqn:Hsize; injection H as <- <-;
          (split; [discriminate|]); intros _; (split; [reflexivity|]).
        -- right. split; [reflexivity|]. unfold file_nonempty. rewrite Hfs. exact Hsize.
        -- left. reflexivity.
      * injection H as <- <-. split; [discriminate|].
        intros _. split; [reflexivity | left; reflexivity].
Qed.

End Outcomes.

Section EarlyAndLate.

Import Generate.

Variable w : World.

Lemma prefix_append a b : String.prefix a (a ++ b) = true.
Proof.
  induction a as [|c a IH]; simpl.
  - destruct b; reflexivity.
  - destruct (ascii_dec c c); [exact IH | congruence].
Qed.

(** X11. When the subject directory exists but its metadata cannot be
    loaded, or the story cannot be built from it, [generate_video] returns
    a failed result at once: the state is untouched, so no speech was
    synthesised, no clip probed, no directory made and nothing written.
    Metadata that load are those of a JSON object, of which the name can be
    read. *)
Theorem generate_video_fails_fast cfg out_path st :
  fs_exists (fs st) (pet_dir cfg) = true ->
  (forall metadata, fst (load_metadata w (pet_dir cfg) st) = Ok metadata ->
                    (exists name, metadata = Story.JsonObject name) /\
                    exists e, build_story w metadata = Raise e) ->
  exists msg,
    generate_video w cfg out_path st = (Ok (failed msg), st) /\
    (String.prefix "Failed to load metadata: " msg = true \/
     String.prefix "Story generation failed: " msg = true).
Proof.
  intros Hdir Hfail.
  unfold generate_video, bind at 1, prepare.
  unfold bind at 1. rewrite validate_run, Hdir.
  unfold bind at 1, attempt.
  destruct (load_metadata w (pet_dir cfg) st) as [[metadata|e] st0] eqn:Hload.
  - pose proof Hload as Hst. rewrite load_metadata_run in Hst.
    injection Hst as _ <-.
    destruct (Hfail metadata eq_refl) as [[name ->] [e He]]. rewrite He.
    unfold bind, lift. destruct name; cbn [Story.get_name].
    + eexists. split; [reflexivity|]. right. apply prefix_append.
    + eexists. split; [reflexivity|]. right. apply prefix_append.
  - pose proof Hload as Hst. rewrite load_metadata_run in Hst.
    injection Hst as _ <-.
    eexists. split; [reflexivity|]. left. apply prefix_append.
Qed.

(** X12. When [assemble_video] raises a [MemoryError], [generate_video]
    returns a failed result with the message that asks for shorter clips, a
    smaller target or a smaller resolution, and reports no output file,
    whether or not the render left a file behind. *)
Theorem generate_video_out_of_memory cfg out_path st job st1 reason st2 :
  prepare w cfg out_path st = (Ok (inr job), st1) ->
  assemble_job w cfg out_path job st1 = (Raise (Py.MemoryError reason), st2) ->
  exists g,
    generate_video w cfg out_path st = (Ok g, st2) /\
    success g = false /\
    outfile g = None /\
    message g = Some out_of_memory /\
    tone_arc g = Some (Story.tone_arc (job_story job)) /\
    story_title g = Some (Story.title (job_story job)).
Proof.
  intros Hprep Hasm.
  unfold generate_video, bind at 1. rewrite Hprep.
  unfold render, bind at 1, attempt. rewrite Hasm.
  eexists. split; [reflexivity|]. repeat split.
Qed.

End EarlyAndLate.

Section OutcomeRuns.

Import Generate.


(** Two more of the four places are reached on the example subject: with
    metadata that are a JSON list the read of the name raises, and with a
    clips folder that cannot be listed the listing does. *)
Lemma generate_video_raises_elsewhere :
  (exists e,
     Story.get_name (Story.JsonOther "list") = Raise e /\
     fst (generate_video Scenario.list_metadata_world Example.cfg Example.out_path
            Example.start) = Raise e) /\
  fst (generate_video Scenario.locked_clips_world Example.cfg Example.out_path
         Example.start)
  = Raise (Py.Exception "PermissionError(13, 'Permission denied')").
Proof.
  split; [|vm_compute; reflexivity].
  eexists. split; [reflexivity | vm_compute; reflexivity].
Qed.

(** The example run to its end: success, at 9 s for a target of 40 s. *)
Lemma generate_video_result_witness :
  exists g st',
    generate_video Example.world Example.cfg Example.out_path Example.start = (Ok g, st') /\
    success g = true /\
    outfile g = Some Example.out_path /\
    exists E, duration g = Some E /\ 0 < E /\ E <= 40.
Proof.
  destruct (generate_video Example.world Example.cfg Example.out_path Example.start)
    as [[g|e] st'] eqn:Hrun.
  - destruct (generate_video_result Example.world Example.cfg Example.out_path
                Example.start g st' eq_refl Hrun) as [Hok _].
    assert (Hs : success g = true).
    { vm_compute in Hrun. injection Hrun as <- _. reflexivity. }
    destruct (Hok Hs) as (Hout & _ & (_ & _ & _ & vd & _ & _ & _ & HE) & _).
    exists g, st'. split; [reflexivity|]. split; [exact Hs|]. split; [exact Hout|].
    exists (_compute_effective_duration (target_duration Example.cfg) vd). exact HE.
  - vm_compute in Hrun. discriminate Hrun.
Defined.

(** The example when the language model cannot be reached. *)
Lemma generate_video_fails_fast_witness :
  exists msg,
    generate_video Scenario.offline_world Example.cfg Example.out_path Example.start
    = (Ok (failed msg), Example.start) /\
    (String.prefix "Failed to load metadata: " msg = true \/
     String.prefix "Story generation failed: " msg = true).
Proof.
  apply (generate_video_fails_fast Scenario.offline_world Example.cfg Example.out_path
           Example.start).
  - reflexivity.
  - intros metadata H. vm_compute in H. injection H as <-.
    split; eexists; reflexivity.
Defined.

(** The example when the encoder runs out of memory after 512 bytes: a
    file is there, and it is not reported. *)
Lemma generate_video_out_of_memory_witness :
  exists g st2,
    generate_video Scenario.oom_world Example.cfg Example.out_path Example.start
    = (Ok g, st2) /\
    file_nonempty (fs st2) Example.out_path = true /\
    success g = false /\
    outfile g = None /\
    message g = Some out_of_memory.
Proof.
  edestruct (generate_video_out_of_memory Scenario.oom_world Example.cfg Example.out_path
               Example.start) as (g & Hrun & Hs & Ho & Hm & _).
  - vm_compute. reflexivity.
  - vm_compute. reflexivity.
  - exists g. eexists. split; [exact Hrun|]. split; [reflexivity|].
    repeat split; assumption.
Defined.

End OutcomeRuns.

(** ** Audio Track Builder: fallbacks and exact length *)

Section AudioFallbacks.

Import Audio.

Variable w : World.

(** The builder in one equation, once the music file is settled on. *)
Lemma build_audio_track_run target voice_file music_file music st :
  resolved_music w music_file st = Ok music ->
  build_audio_track w target voice_file music_file st
  = (Ok (match voice_tracks w voice_file ++ music_tracks w music target with
         | [] => None
         | c :: cs => Some {| tracks := c :: cs; composite_duration := target |}
         end),
     logged st [EvBuildAudioTrack voice_file]).
Proof.
  intro Hres. unfold build_audio_track, bind at 1, emit.
  fold (logged st [EvBuildAudioTrack voice_file]).
  rewrite (resolved_music_fs w music_file st (logged st [EvBuildAudioTrack voice_file])
             eq_refl) in Hres.
  unfold resolved_music in Hres. unfold bind.
  assert (Hst : snd ((match music_file with
                      | Some m => ret (Some m)
                      | None => _find_default_music w
                      end) (logged st [EvBuildAudioTrack voice_file]))
                = logged st [EvBuildAudioTrack voice_file]).
  { destruct music_file; [reflexivity | apply find_default_music_reads]. }
  destruct (match music_file with
            | Some m => ret (Some m)
            | None => _find_default_music w
            end (logged st [EvBuildAudioTrack voice_file])) as [r st2].
  simpl in Hres, Hst. subst r st2.
  fold (voice_tracks w voice_file).
  assert (Hm : match music with
               | Some mf =>
                   match load_music w mf target with
                   | Ok track => voice_tracks w voice_file ++ [track]
                   | Raise _ => voice_tracks w voice_file
                   end
               | None => voice_tracks w voice_file
               end = voice_tracks w voice_file ++ music_tracks w music target).
  { unfold music_tracks. destruct music as [mf|]; [|rewrite app_nil_r; reflexivity].
    destruct (load_music w mf target); [reflexivity | rewrite app_nil_r; reflexivity]. }
  rewrite Hm.
  destruct (voice_tracks w voice_file ++ music_tracks w music target); reflexivity.
Qed.

(** A track that is returned has the target duration; the builder leaves
    one event and the disk as it is. *)
Lemma build_audio_track_some target voice_file music_file st final st' :
  build_audio_track w target voice_file music_file st = (Ok (Some final), st') ->
  composite_duration final = target /\
  st' = logged st [EvBuildAudioTrack voice_file].
Proof.
  intro Hrun.
  destruct (resolved_music w music_file st) as [music|e] eqn:Hres.
  - rewrite (build_audio_track_run target voice_file music_file music st Hres) in Hrun.
    destruct (voice_tracks w voice_file ++ music_tracks w music target) as [|c cs];
      [discriminate Hrun|].
    injection Hrun as <- <-. split; reflexivity.
  - exfalso. unfold build_audio_track, bind at 1, emit in Hrun.
    rewrite (resolved_music_fs w music_file st
               {| fs := fs st; trace := trace st ++ [EvBuildAudioTrack voice_file] |}
               eq_refl) in Hres.
    unfold resolved_music in Hres. unfold bind in Hrun.
    destruct (match music_file with
              | Some m => ret (Some m)
              | None => _find_default_music w
              end _) as [r st2].
    simpl in Hres. subst r. discriminate Hrun.
Qed.

(** X13. Whatever narration and music are, a track that
    [build_audio_track] returns has exactly the target duration and holds
    at least one source; building it changes no file. *)
Theorem build_audio_track_exact target voice_file music_file st final st' :
  build_audio_track w target voice_file music_file st = (Ok (Some final), st') ->
  composite_duration final = target /\
  tracks final <> [] /\
  tracks final = voice_tracks w voice_file
                 ++ music_tracks w
                      (match resolved_music w music_file st with
                       | Ok m => m
                       | Raise _ => None
                       end) target /\
  fs st' = fs st.
Proof.
  intro Hrun.
  destruct (resolved_music w music_file st) as [music|e] eqn:Hres.
  - rewrite (build_audio_track_run target voice_file music_file music st Hres) in Hrun.
    destruct (voice_tracks w voice_file ++ music_tracks w music target) as [|c cs];
      [discriminate Hrun|].
    injection Hrun as <- <-. repeat split. discriminate.
  - exfalso. unfold build_audio_track, bind at 1, emit in Hrun.
    rewrite (resolved_music_fs w music_file st
               {| fs := fs st; trace := trace st ++ [EvBuildAudioTrack voice_file] |}
               eq_refl) in Hres.
    unfold resolved_music in Hres. unfold bind in Hrun.
    destruct (match music_file with
              | Some m => ret (Some m)
              | None => _find_default_music w
              end _) as [r st2].
    simpl in Hres. subst r. discriminate Hrun.
Qed.

(** X14. When the narration opens and the music that is settled on cannot
    be loaded (its file does not open, or it has a duration of 0 and
    cannot be looped), the music is dropped: the track returned is the
    narration alone, at the target duration. *)
Theorem build_audio_track_music_dropped target voice_file music_file vf d music st :
  voice_file = Some vf ->
  open_audio w vf = Ok d ->
  resolved_music w music_file st = Ok (Some music) ->
  (exists e, open_audio w music = Raise e) \/
  (exists m, open_audio w music = Ok m /\ m == 0 /\ 0 < target) ->
  build_audio_track w target voice_file music_file st
  = (Ok (Some {| tracks := [AudioFileClip vf d]; composite_duration := target |}),
     logged st [EvBuildAudioTrack voice_file]).
Proof.
  intros -> Hvoice Hres Hfail.
  rewrite (build_audio_track_run target (Some vf) music_file (Some music) st Hres).
  unfold voice_tracks. rewrite Hvoice.
  assert (Hm : music_tracks w (Some music) target = []).
  { unfold music_tracks, load_music.
    destruct Hfail as [[e He] | (m & Hm & Hz & Ht)].
    - rewrite He. reflexivity.
    - rewrite Hm. cbn [audio_duration].
      rewrite (proj2 (ltb_true m target)) by lra.
      rewrite (proj2 (Qeq_bool_iff m 0) Hz). reflexivity. }
  rewrite Hm. reflexivity.
Qed.

(** X15. When no narration opens (none is given, or its file does not
    open) and no music loads (none is found, or its file does not open),
    [build_audio_track] returns no track and raises nothing. *)
Theorem build_audio_track_no_source target voice_file music_file music st :
  voice_file = None \/ (exists vf e, voice_file = Some vf /\ open_audio w vf = Raise e) ->
  resolved_music w music_file st = Ok music ->
  music = None \/ (exists m e, music = Some m /\ open_audio w m = Raise e) ->
  build_audio_track w target voice_file music_file st
  = (Ok None, logged st [EvBuildAudioTrack voice_file]).
Proof.
  intros Hvoice Hres Hmusic.
  rewrite (build_audio_track_run target voice_file music_file music st Hres).
  assert (Hv : voice_tracks w voice_file = []).
  { unfold voice_tracks. destruct Hvoice as [-> | (vf & e & -> & He)];
      [reflexivity | rewrite He; reflexivity]. }
  assert (Hm : music_tracks w music target = []).
  { unfold music_tracks, load_music. destruct Hmusic as [-> | (m & e & -> & He)];
      [reflexivity | rewrite He; reflexivity]. }
  rewrite Hv, Hm. reflexivity.
Qed.

(** X16. A music file at least as long as the target is not looped: it is
    cut to its first [target] seconds, attenuated and faded, and laid
    under the narration in a track of exactly the target duration. *)
Theorem build_audio_track_long_music target voice_file music_file music m st :
  resolved_music w music_file st = Ok (Some music) ->
  open_audio w music = Ok m -> 0 <= target -> target <= m ->
  build_audio_track w target voice_file music_file st
  = (Ok (Some {| tracks := voice_tracks w voice_file ++ [trimmed_music music m target];
                 composite_duration := target |}),
     logged st [EvBuildAudioTrack voice_file]) /\
  audio_duration (trimmed_music music m target) == target.
Proof.
  intros Hres Hopen H0 Hle.
  rewrite (build_audio_track_run target voice_file music_file (Some music) st Hres).
  assert (Hm : music_tracks w (Some music) target = [trimmed_music music m target]).
  { unfold music_tracks, load_music. rewrite Hopen. cbn [audio_duration].
    rewrite (proj2 (ltb_false m target)) by lra.
    unfold audio_subclip, subclip_bounds. cbn [audio_duration].
    rewrite (proj2 (ltb_false m 0)) by lra.
    rewrite (proj2 (ltb_false target 0)) by lra. reflexivity. }
  rewrite Hm. split.
  - destruct (voice_tracks w voice_file ++ [trimmed_music music m target]) eqn:Hc;
      [destruct (voice_tracks w voice_file); discriminate Hc | reflexivity].
  - unfold trimmed_music. simpl. lra.
Qed.

End AudioFallbacks.

Section AudioFallbackRuns.

Import Audio.

Lemma build_audio_track_exact_witness :
  exists final st',
    build_audio_track Example.world 9 (Some Example.voice_path) None Example.start
    = (Ok (Some final), st') /\
    composite_duration final = 9 /\
    tracks final <> [] /\
    fs st' = fs Example.start.
Proof.
  destruct (build_audio_track Example.world 9 (Some Example.voice_path) None Example.start)
    as [[[final|]|e] st'] eqn:Hrun;
    try (vm_compute in Hrun; discriminate Hrun).
  destruct (build_audio_track_exact Example.world 9 (Some Example.voice_path) None
              Example.start final st' Hrun) as (Hd & Hne & _ & Hfs).
  exists final, st'. repeat split; assumption.
Defined.

(** Scenario D of the specification: the music file is corrupt. *)
Lemma build_audio_track_music_dropped_witness :
  build_audio_track Scenario.bad_music_world 9 (Some Example.voice_path) None Example.start
  = (Ok (Some {| tracks := [AudioFileClip Example.voice_path 8];
                 composite_duration := 9 |}),
     logged Example.start [EvBuildAudioTrack (Some Example.voice_path)]).
Proof.
  apply (build_audio_track_music_dropped Scenario.bad_music_world 9
           (Some Example.voice_path) None Example.voice_path 8 Example.music_path
           Example.start).
  - reflexivity.
  - reflexivity.
  - reflexivity.
  - left. eexists. reflexivity.
Defined.

Lemma build_audio_track_no_source_witness :
  build_audio_track Scenario.deaf_world 9 (Some Example.voice_path) None Example.start
  = (Ok None, logged Example.start [EvBuildAudioTrack (Some Example.voice_path)]).
Proof.
  apply (build_audio_track_no_source Scenario.deaf_world 9 (Some Example.voice_path) None
           (Some Example.music_path) Example.start).
  - right. eexists. eexists. split; reflexivity.
  - reflexivity.
  - right. eexists. eexists. split; reflexivity.
Defined.

Lemma build_audio_track_long_music_witness :
  build_audio_track Example.world 3 (Some Example.voice_path) None Example.start
  = (Ok (Some {| tracks := voice_tracks Example.world (Some Example.voice_path)
                           ++ [trimmed_music Example.music_path 4 3];
                 composite_duration := 3 |}),
     logged Example.start [EvBuildAudioTrack (Some Example.voice_path)]) /\
  audio_duration (trimmed_music Example.music_path 4 3) == 3.
Proof.
  apply (build_audio_track_long_music Example.world 3 (Some Example.voice_path) None
           Example.music_path 4 Example.start).
  - reflexivity.
  - reflexivity.
  - discriminate.
  - discriminate.
Defined.

End AudioFallbackRuns.

(** ** Subtitle Timing Engine: sentences, shares, placement *)

Section Sentences.

Import Subtitles.

Lemma mark_not_space c : is_sentence_end c = true -> Py.isspace c = false.
Proof.
  unfold is_sentence_end. intro H.
  apply orb_true_iff in H. destruct H as [H | H].
  - apply orb_true_iff in H. destruct H as [H | H];
      apply N.eqb_eq in H; subst c; reflexivity.
  - apply N.eqb_eq in H. subst c. reflexivity.
Qed.

Lemma re_split_nonempty :
  forall s after_end in_sep part, re_split s after_end in_sep part <> [].
Proof.
  induction s as [|c r IH]; intros after_end in_sep part; cbn [re_split].
  - discriminate.
  - destruct (Py.isspace c); [|apply IH].
    destruct in_sep; [apply IH|]. destruct after_end; [discriminate | apply IH].
Qed.

Lemma ends_with_mark_snoc part c :
  ends_with_mark (part ++ [c]) = is_sentence_end c.
Proof. unfold ends_with_mark. rewrite rev_app_distr. reflexivity. Qed.

(** Every part but the last that [re_split] cuts ends with a mark. *)
Lemma re_split_marks :
  forall s after_end in_sep part,
    (after_end = true -> ends_with_mark part = true) ->
    forall p, In p (removelast (re_split s after_end in_sep part)) ->
              ends_with_mark p = true.
Proof.
  induction s as [|c r IH]; intros after_end in_sep part Hpre p Hin.
  - destruct Hin.
  - cbn [re_split] in Hin. destruct (Py.isspace c) eqn:Hc.
    + destruct in_sep.
      * apply (IH false true part); [discriminate | exact Hin].
      * destruct after_end.
        -- rewrite removelast_cons in Hin by apply re_split_nonempty.
           destruct Hin as [<- | Hin]; [apply Hpre; reflexivity|].
           apply (IH false true []); [discriminate | exact Hin].
        -- apply (IH false false (part ++ [c])); [discriminate | exact Hin].
    + apply (IH (is_sentence_end c) false (part ++ [c])); [|exact Hin].
      intro H. rewrite ends_with_mark_snoc. exact H.
Qed.

(** A position that is not the last one after filtering was not the last
    one before. *)
Lemma removelast_filter {A} (g : A -> bool) x :
  forall l, In x (removelast (filter g l)) -> In x (removelast l).
Proof.
  induction l as [|a l IH]; intro H; [destruct H|].
  cbn [filter] in H. destruct (g a).
  - destruct (filter g l) as [|b f] eqn:Hf; [destruct H|].
    assert (Hl : l <> []) by (intro; subst l; discriminate Hf).
    rewrite removelast_cons by exact Hl.
    rewrite removelast_cons in H by discriminate.
    destruct H as [<- | H]; [left; reflexivity | right; apply IH; exact H].
  - assert (Hl : l <> []).
    { intro; subst l. destruct H. }
    rewrite removelast_cons by exact Hl. right. apply IH. exact H.
Qed.

Lemma removelast_map {A B} (f : A -> B) l : removelast (map f l) = map f (removelast l).
Proof.
  induction l as [|a l IH]; [reflexivity|].
  destruct l as [|b l]; [reflexivity|].
  change (f a :: removelast (map f (b :: l)) = f a :: map f (removelast (b :: l))).
  rewrite IH. reflexivity.
Qed.

(** Stripping keeps a final mark. *)
Lemma strip_keeps_mark p : ends_with_mark p = true -> ends_with_mark (Py.strip p) = true.
Proof.
  unfold ends_with_mark. intro H.
  destruct (rev p) as [|c q] eqn:Hrev; [discriminate H|].
  assert (Hp : p = rev q ++ [c]).
  { rewrite <- (rev_involutive p), Hrev. reflexivity. }
  pose proof (mark_not_space c H) as Hc.
  unfold Py.strip, Py.rstrip. rewrite rev_involutive.
  destruct (lstrip_keeps_last (rev q) c Hc) as [l Hl].
  rewrite Hp, Hl, rev_app_distr. cbn [rev app Py.lstrip]. rewrite Hc. exact H.
Qed.

(** X17. Every sentence [split_sentences] returns is not empty and has
    no whitespace at either end; and every sentence but the last one ends
    with a full stop, an exclamation mark or a question mark: the text is
    only ever cut after one of these. *)
Theorem split_sentences_clean (script : str) :
  (forall s, In s (split_sentences script) -> s <> [] /\ Py.strip s = s) /\
  (forall s, In s (removelast (split_sentences script)) -> ends_with_mark s = true).
Proof.
  split.
  - intros s Hin. split.
    + pose proof (split_sentences_stripped script s Hin) as H.
      intro Hs. subst s. discriminate H.
    + unfold split_sentences in Hin. apply in_map_iff in Hin.
      destruct Hin as (p & <- & _). apply strip_idem.
  - intros s Hin. unfold split_sentences in Hin.
    rewrite removelast_map in Hin. apply in_map_iff in Hin.
    destruct Hin as (p & <- & Hp).
    apply removelast_filter in Hp.
    apply strip_keeps_mark.
    apply (re_split_marks _ false false [] ltac:(discriminate) p Hp).
Qed.

End Sentences.

Section Shares.

Import Subtitles.

Lemma approx_wps_positive : 0 < approx_wps.
Proof. vm_compute. reflexivity. Qed.

Lemma raw_duration_monotone s1 s2 :
  (word_count s1 <= word_count s2)%nat -> raw_duration s1 <= raw_duration s2.
Proof.
  unfold word_count, raw_duration. intro H.
  set (n1 := Z.max 1 (Z.of_nat (List.length (Py.split s1)))).
  set (n2 := Z.max 1 (Z.of_nat (List.length (Py.split s2)))).
  assert (Hn : (n1 <= n2)%Z) by (unfold n1, n2; lia).
  assert (Hq : Py.fdiv (inject_Z n1) approx_wps <= Py.fdiv (inject_Z n2) approx_wps).
  { apply fl_monotone. apply Qmult_le_compat_r; [rewrite <- Zle_Qle; exact Hn|].
    apply Qlt_le_weak, Qinv_lt_0_compat, approx_wps_positive. }
  unfold Py.max.
  destruct (Py.ltb 1 (Py.fdiv (inject_Z n1) approx_wps)) eqn:E1;
    destruct (Py.ltb 1 (Py.fdiv (inject_Z n2) approx_wps)) eqn:E2;
    try (apply ltb_true in E1); try (apply ltb_false in E1);
    try (apply ltb_true in E2); try (apply ltb_false in E2); lra.
Qed.

Lemma in_combine_map {A B} (g : A -> B) (l : list A) a b :
  In (a, b) (combine l (map g l)) -> b = g a.
Proof.
  induction l as [|x l IH]; intro H; [destruct H|].
  destruct H as [H | H]; [injection H as <- <-; reflexivity | apply IH; exact H].
Qed.

(** X18. The durations [estimate_sentence_durations] gives are ordered as
    the word counts are: for a total that is not negative, a sentence with
    no more words than another gets a duration that is no longer, so two
    sentences with the same number of words get the same share. *)
Theorem estimate_sentence_durations_monotone sentences D s1 d1 s2 d2 :
  0 <= D ->
  In (s1, d1) (combine sentences (estimate_sentence_durations sentences D)) ->
  In (s2, d2) (combine sentences (estimate_sentence_durations sentences D)) ->
  (word_count s1 <= word_count s2)%nat ->
  d1 <= d2.
Proof.
  intros HD H1 H2 Hw.
  destruct sentences as [|s rest]; [destruct H1|].
  rewrite estimate_scaled in H1, H2 by discriminate.
  rewrite map_map in H1, H2.
  apply in_combine_map in H1. apply in_combine_map in H2. subst d1 d2.
  pose proof (raw_total_positive (s :: rest) ltac:(discriminate)) as Hpos.
  apply fl_monotone.
  apply Qmult_le_compat_r; [apply raw_duration_monotone; exact Hw|].
  apply scale_nonneg; assumption.
Qed.

(** X19. For a video duration [D] that is not negative, every subtitle
    cue that [build_subtitle_clips] returns starts at or after 0 and ends
    at or after its start; and it ends at or before [D] up to the roundings
    of the cue times, [2 n + 2] of them for [n] sentences. *)
Theorem build_subtitle_clips_inside (w : World) script D width height cues :
  0 <= D ->
  build_subtitle_clips w script D width height = Ok cues ->
  forall c, In c cues ->
            0 <= i_start c /\ i_start c <= i_end c /\
            le_upto (2 * List.length (split_sentences script) + 2) (i_end c) D.
Proof.
  intros HD Hrun c Hin.
  destruct (build_subtitle_clips_facts w script D width height cues HD Hrun) as [Hc Hd].
  destruct (contiguous_starts cues 0 Hc eq_refl Hd ltac:(lra) c Hin) as [H1 H2].
  split; [exact H1|]. split; [exact H2|].
  apply (build_subtitle_clips_ends w script D width height cues HD Hrun c Hin).
Qed.

End Shares.

Section ShareRuns.

Import Subtitles.

(** The two-word and the four-word sentence of the example over 9 s. *)
Lemma estimate_sentence_durations_monotone_witness :
  (2627099782632789 # 1125899906842624) <= (3752999689475413 # 1125899906842624).
Proof.
  apply (estimate_sentence_durations_monotone
           (split_sentences (Story.script Example.story)) 9
           (Py.of_string "Meet Rex.") (2627099782632789 # 1125899906842624)
           (Py.of_string "He loves long walks!") (3752999689475413 # 1125899906842624)).
  - discriminate.
  - vm_compute. left. reflexivity.
  - vm_compute. right. left. reflexivity.
  - vm_compute. lia.
Defined.

Lemma build_subtitle_clips_inside_witness :
  exists cues,
    build_subtitle_clips Example.world (Story.script Example.story) 9 360 640 = Ok cues /\
    cues <> [] /\
    forall c, In c cues ->
              0 <= i_start c /\ i_start c <= i_end c /\ le_upto 8 (i_end c) 9.
Proof.
  destruct (build_subtitle_clips Example.world (Story.script Example.story) 9 360 640)
    as [cues|e] eqn:Hrun; [|vm_compute in Hrun; discriminate Hrun].
  exists cues. split; [reflexivity|]. split.
  - vm_compute in Hrun. injection Hrun as <-. discriminate.
  - apply (build_subtitle_clips_inside Example.world (Story.script Example.story) 9
             360 640 cues); [discriminate | exact Hrun].
Defined.

End ShareRuns.

(** ** Video Assembler: nothing to render, subtitles that fail *)

Section AssemblerFailures.

Import Edit.

Variable w : World.

(** X20. Given no clip at all, [assemble_video] raises before any input
    or output: nothing is logged but the call, no directory is made. Given
    clips none of which opens, it raises as well. In both cases no audio
    file is opened and no video is written. *)
Theorem assemble_video_nothing_to_render pet_name visuals tone aspect audio_file out_path
  script st :
  visuals = [] \/ survivors w (_scale_for_aspect aspect) visuals = [] ->
  exists e st',
    assemble_video w pet_name visuals tone aspect audio_file out_path script st
    = (Raise e, st') /\
    adds before_audio st st' /\
    (visuals = [] ->
     st' = logged st [EvAssemble audio_file] /\
     e = Py.Exception "RuntimeError('assemble_video: no visuals to assemble')").
Proof.
  intro H. unfold assemble_video, bind at 1, emit.
  fold (logged st [EvAssemble audio_file]).
  destruct visuals as [|sc0 rest0] eqn:Hvis.
  - eexists. eexists. split; [reflexivity|]. split.
    + apply adds_logged. reflexivity.
    + intros _. split; reflexivity.
  - destruct H as [H | H]; [discriminate H|]. rewrite <- Hvis in *.
    unfold bind at 1, call_fs. cbn [fs trace logged].
    destruct (mkdir w (Py.path_parent out_path) (fs st)) as [[[]|e] fs1].
    + destruct (_scale_for_aspect aspect) as [width height].
      unfold bind at 1. rewrite load_clips_run, H. cbn [app].
      eexists. eexists. split; [reflexivity|]. split.
      * exists (EvAssemble audio_file :: map EvLoadClip (map path visuals)).
        unfold logged. cbn [trace]. rewrite <- app_assoc. split; [reflexivity|].
        cbn [forallb before_audio andb].
        induction (map path visuals) as [|q qs IH]; [reflexivity | exact IH].
      * intro Hnil. rewrite Hvis in Hnil. discriminate Hnil.
    + eexists. eexists. split; [reflexivity|]. split.
      * exists [EvAssemble audio_file]. split; reflexivity.
      * intro Hnil. rewrite Hvis in Hnil. discriminate Hnil.
Qed.

Lemma subtitle_loop_fails width height :
  forall pairs clips cur,
    (exists p e, In p pairs /\
                 Subtitles.nonempty (Py.strip (fst p)) = true /\
                 render_text w (Py.strip (fst p)) width height = Some e) ->
    exists e, Subtitles.subtitle_loop w width height pairs clips cur = Raise e.
Proof.
  induction pairs as [|[sentence dur] rest IH]; intros clips cur (p & e & Hin & Hne & Hf).
  - destruct Hin.
  - cbn [Subtitles.subtitle_loop].
    destruct Hin as [<- | Hin].
    + cbn [fst] in Hne, Hf. rewrite Hne. unfold Subtitles.make_subtitle_frame.
      rewrite Hf. eexists. reflexivity.
    + destruct (Subtitles.nonempty (Py.strip sentence)).
      * unfold Subtitles.make_subtitle_frame.
        destruct (render_text w (Py.strip sentence) width height) as [e0|];
          [eexists; reflexivity|].
        apply IH. exists p, e. repeat split; assumption.
      * apply IH. exists p, e. repeat split; assumption.
Qed.

Lemma in_combine_exists {A B} (xs : list A) (ys : list B) x :
  List.length xs = List.length ys -> In x xs -> exists y, In (x, y) (combine xs ys).
Proof.
  revert ys. induction xs as [|a xs IH]; intros [|b ys] Hlen Hin; simpl in *;
    try discriminate; [destruct Hin|].
  destruct Hin as [<- | Hin].
  - exists b. left. reflexivity.
  - destruct (IH ys ltac:(lia) Hin) as [y Hy]. exists y. right. exact Hy.
Qed.

(** A sentence that does not draw makes the whole subtitle build fail. *)
Lemma build_subtitle_clips_fails script D width height sentence e :
  In sentence (Subtitles.split_sentences script) ->
  render_text w sentence width height = Some e ->
  exists e', Subtitles.build_subtitle_clips w script D width height = Raise e'.
Proof.
  intros Hin Hf. unfold Subtitles.build_subtitle_clips.
  pose proof (split_sentences_stripped script sentence Hin) as Hne.
  assert (Hfix : Py.strip sentence = sentence).
  { unfold Subtitles.split_sentences in Hin. apply in_map_iff in Hin.
    destruct Hin as (p & <- & _). apply strip_idem. }
  destruct (Subtitles.split_sentences script) as [|s rest] eqn:Hsplit; [destruct Hin|].
  apply subtitle_loop_fails.
  destruct (in_combine_exists (s :: rest)
              (Subtitles.estimate_sentence_durations (s :: rest) D) sentence)
    as [d Hd]; [symmetry; apply estimate_length | exact Hin |].
  exists (sentence, d), e. cbn [fst]. rewrite Hfix in *. repeat split; assumption.
Qed.

(** X21. A subtitle failure does not stop the render. When one sentence
    of the script cannot be drawn, [assemble_video] (here without audio)
    logs the error and writes the footage without any subtitle; it returns
    or raises as the encoder does. *)
Theorem assemble_video_subtitle_failure pet_name visuals tone aspect out_path script st fs1
  sentence e :
  visuals <> [] ->
  survivors w (_scale_for_aspect aspect) visuals <> [] ->
  mkdir w (Py.path_parent out_path) (fs st) = (Ok tt, fs1) ->
  In sentence (Subtitles.split_sentences script) ->
  render_text w sentence (fst (_scale_for_aspect aspect)) (snd (_scale_for_aspect aspect))
  = Some e ->
  exists r st',
    assemble_video w pet_name visuals tone aspect None out_path (Some script) st = (r, st') /\
    r = match fst (write_videofile w out_path (Footage (footage w aspect visuals)) fs1) with
        | Ok _ => Ok out_path
        | Raise e' => Raise e'
        end /\
    trace st' = trace st
                ++ EvAssemble None :: map EvLoadClip (map path visuals)
                ++ [EvSubtitleError; EvWriteVideo out_path (Footage (footage w aspect visuals))].
Proof.
  intros Hv Hs Hmk Hin Hf.
  rewrite (assemble_video_stages w pet_name visuals tone aspect None out_path
             (Some script) st fs1 Hv Hs Hmk).
  set (width := fst (_scale_for_aspect aspect)) in *.
  set (height := snd (_scale_for_aspect aspect)) in *.
  unfold bind at 1, sync_audio, ret.
  unfold bind at 1, add_subtitles.
  assert (Hne : script <> []).
  { intro Hnil. subst script. destruct Hin. }
  destruct script as [|c0 s0]; [congruence|].
  destruct (build_subtitle_clips_fails (c0 :: s0)
              (Py.or_zero (v_duration (footage w aspect visuals))) width height
              sentence e Hin Hf) as [e' He'].
  rewrite He'. unfold bind, emit, call_fs, ret. cbn [fs trace].
  destruct (write_videofile w out_path (Footage (footage w aspect visuals)) fs1)
    as [[[]|e2] fs2]; eexists; eexists; (split; [reflexivity|]); (split; [reflexivity|]);
    cbn [trace]; rewrite <- !app_assoc; reflexivity.
Qed.

End AssemblerFailures.

Section AssemblerFailureRuns.

Import Edit.

(** Only the broken file was selected. *)
Lemma assemble_video_nothing_to_render_witness :
  exists e st',
    assemble_video Example.world "Rex" [selected (Example.clip "broken.mp4") 5] "warm"
      "vertical" (Some Example.mix_path) Example.out_path None Example.with_audio
    = (Raise e, st') /\
    adds before_audio Example.with_audio st'.
Proof.
  destruct (assemble_video_nothing_to_render Example.world "Rex"
              [selected (Example.clip "broken.mp4") 5] "warm" "vertical"
              (Some Example.mix_path) Example.out_path None Example.with_audio)
    as (e & st' & Hrun & Hadds & _).
  - right. reflexivity.
  - exists e, st'. split; assumption.
Defined.

(** The example when no frame can be drawn. *)
Lemma assemble_video_subtitle_failure_witness :
  exists st',
    assemble_video Scenario.no_font_world "Rex" [selected (Example.clip "a.mp4") 12] "warm"
      "vertical" None Example.out_path (Some (Story.script Example.story)) Example.start
    = (Ok Example.out_path, st') /\
    videos_written (trace st')
    = [(Example.out_path,
        Footage (footage Scenario.no_font_world "vertical"
                   [selected (Example.clip "a.mp4") 12]))].
Proof.
  destruct (assemble_video_subtitle_failure Scenario.no_font_world "Rex"
              [selected (Example.clip "a.mp4") 12] "warm" "vertical" Example.out_path
              (Story.script Example.story) Example.start (fs Example.start)
              (Py.of_string "Meet Rex.")
              (Py.Exception "OSError('cannot open resource')"))
    as (r & st' & Hrun & Hr & Htr).
  - discriminate.
  - vm_compute. discriminate.
  - reflexivity.
  - left. reflexivity.
  - reflexivity.
  - exists st'. split.
    + rewrite Hrun, Hr. reflexivity.
    + rewrite Htr. reflexivity.
Defined.

End AssemblerFailureRuns.

(** ** Pipeline Orchestrator: the audio handed to the assembler *)

Section AudioSetup.

Import Generate.

Variable w : World.

(** X22. Setting up the audio never fails. What it hands to the assembler
    is nothing, or the narration file, or the mix; the mix only after
    [build_audio_track] returned a track, of exactly the effective
    duration, that was written to the mix path. And while the narration
    file is on disk, before and after, something is handed on: a mix that
    cannot be built or written falls back to the narration alone. *)
Theorem audio_setup_falls_back cfg E voice_file st r st' :
  audio_setup w cfg E voice_file st = (r, st') ->
  exists audio_file,
    r = Ok audio_file /\
    (audio_file = None \/ audio_file = voice_file \/
     (audio_file = Some (mix_path w cfg) /\
      exists mix,
        composite_duration mix = E /\
        trace st' = trace st ++ [EvBuildAudioTrack voice_file;
                                 EvWriteAudio (mix_path w cfg) mix])) /\
    (forall vf, voice_file = Some vf ->
                fs_exists (fs st) vf = true -> fs_exists (fs st') vf = true ->
                audio_file <> None).
Proof.
  intro Hrun. unfold audio_setup, bind at 1, attempt in Hrun.
  unfold bind at 1 in Hrun. rewrite voice_present_run in Hrun.
  destruct (match voice_file with Some vf => fs_exists (fs st) vf | None => false end)
    eqn:Hpresent.
  - (* narration is there *)
    destruct voice_file as [vf|]; [|discriminate Hpresent].
    unfold bind at 1, attempt in Hrun.
    destruct (Audio.build_audio_track w E (Some vf) None st) as [built st1] eqn:Hb.
    assert (Hvoice : forall s2, (Ok (Some vf) : Result (option Path), s2) = (r, st') ->
              exists audio_file, r = Ok audio_file /\
                (audio_file = None \/ audio_file = Some vf \/
                 (audio_file = Some (mix_path w cfg) /\
                  exists mix, composite_duration mix = E /\
                    trace st' = trace st ++ [EvBuildAudioTrack (Some vf);
                                             EvWriteAudio (mix_path w cfg) mix])) /\
                (forall vf0, Some vf = Some vf0 -> fs_exists (fs st) vf0 = true ->
                             fs_exists (fs st') vf0 = true -> audio_file <> None)).
    { intros s2 H. injection H as <- _. exists (Some vf).
      split; [reflexivity|]. split; [right; left; reflexivity|]. discriminate. }
    assert (Hhandler : forall s2,
              (a <- voice_present (Some vf) ;; (if a then ret (Some vf) else ret None)) s2
              = (r, st') ->
              exists audio_file, r = Ok audio_file /\
                (audio_file = None \/ audio_file = Some vf \/
                 (audio_file = Some (mix_path w cfg) /\
                  exists mix, composite_duration mix = E /\
                    trace st' = trace st ++ [EvBuildAudioTrack (Some vf);
                                             EvWriteAudio (mix_path w cfg) mix])) /\
                (forall vf0, Some vf = Some vf0 -> fs_exists (fs st) vf0 = true ->
                             fs_exists (fs st') vf0 = true -> audio_file <> None)).
    { intros s2 H. unfold bind in H. rewrite voice_present_run in H.
      destruct (fs_exists (fs s2) vf) eqn:Hex; injection H as <- <-.
      - exists (Some vf). split; [reflexivity|].
        split; [right; left; reflexivity | discriminate].
      - exists None. split; [reflexivity|]. split; [left; reflexivity|].
        intros vf0 Heq _ Hend. injection Heq as <-. congruence. }
    destruct built as [[mix|]|e].
    + destruct (build_audio_track_some w E (Some vf) None st mix st1 Hb) as [Hd ->].
      unfold bind at 1, call_fs in Hrun. cbn [fs trace logged] in Hrun.
      destruct (mkdir w (Py.path_join (base_output_dir w) "audio") (fs st))
        as [[[]|e] fs2].
      * unfold bind at 1, emit in Hrun. unfold bind at 1, call_fs in Hrun.
        cbn [fs trace] in Hrun.
        fold (mix_path w cfg) in Hrun.
        destruct (write_audiofile w (mix_path w cfg) mix fs2) as [[[]|e] fs3].
        -- unfold ret in Hrun. injection Hrun as <- <-.
           exists (Some (mix_path w cfg)). split; [reflexivity|]. split.
           ++ right. right. split; [reflexivity|]. exists mix.
              split; [exact Hd|]. cbn [trace]. rewrite <- app_assoc. reflexivity.
           ++ discriminate.
        -- apply (Hhandler _ Hrun).
      * apply (Hhandler _ Hrun).
    + apply (Hvoice _ Hrun).
    + apply (Hvoice _ Hrun).
  - (* no narration *)
    unfold ret in Hrun. injection Hrun as <- <-.
    exists None. split; [reflexivity|]. split; [left; reflexivity|].
    intros vf -> Hex _. rewrite Hex in Hpresent. discriminate Hpresent.
Qed.

End AudioSetup.

(** The example when the music is corrupt: the mix is the narration. *)
Lemma audio_setup_falls_back_witness :
  exists audio_file st',
    Generate.audio_setup Scenario.deaf_world Example.cfg 9 (Some Example.voice_path)
      Example.with_audio = (Ok audio_file, st') /\
    audio_file = Some Example.voice_path.
Proof.
  destruct (Generate.audio_setup Scenario.deaf_world Example.cfg 9 (Some Example.voice_path)
              Example.with_audio) as [r st'] eqn:Hrun.
  destruct (audio_setup_falls_back Scenario.deaf_world Example.cfg 9
              (Some Example.voice_path) Example.with_audio r st' Hrun)
    as (audio_file & -> & _ & _).
  exists audio_file, st'. split; [reflexivity|].
  vm_compute in Hrun. injection Hrun as <- _. reflexivity.
Defined.

(** ** The default music *)

Section DefaultMusic.

Import Audio.

Lemma ascii_compare_refl a : Ascii.compare a a = Eq.
Proof. unfold Ascii.compare. apply N.compare_refl. Qed.

Lemma ascii_compare_lt_trans a b c :
  Ascii.compare a b = Lt -> Ascii.compare b c = Lt -> Ascii.compare a c = Lt.
Proof.
  unfold Ascii.compare. rewrite !N.compare_lt_iff. apply N.lt_trans.
Qed.

Lemma string_compare_refl s : String.compare s s = Eq.
Proof.
  induction s as [|a s IH]; simpl; [reflexivity|].
  rewrite ascii_compare_refl. exact IH.
Qed.

Lemma string_compare_lt_trans s : forall t u,
  String.compare s t = Lt -> String.compare t u = Lt -> String.compare s u = Lt.
Proof.
  induction s as [|a s IH]; intros [|b t] [|c u]; simpl; try discriminate;
    try reflexivity.
  destruct (Ascii.compare a b) eqn:Hab; try discriminate;
    destruct (Ascii.compare b c) eqn:Hbc; try discriminate; intros H1 H2.
  - apply Ascii.compare_eq_iff in Hab, Hbc. subst.
    rewrite ascii_compare_refl. exact (IH _ _ H1 H2).
  - apply Ascii.compare_eq_iff in Hab. subst. rewrite Hbc. reflexivity.
  - apply Ascii.compare_eq_iff in Hbc. subst. rewrite Hab. reflexivity.
  - rewrite (ascii_compare_lt_trans _ _ _ Hab Hbc). reflexivity.
Qed.

Lemma path_ltb_irrefl p : Py.path_ltb p p = false.
Proof.
  induction p as [|a p IH]; simpl; [reflexivity|].
  rewrite string_compare_refl. exact IH.
Qed.

Lemma path_ltb_trans p : forall q r,
  Py.path_ltb p q = true -> Py.path_ltb q r = true -> Py.path_ltb p r = true.
Proof.
  induction p as [|a p IH]; intros [|b q] [|c r]; simpl; try discriminate;
    try reflexivity.
  destruct (String.compare a b) eqn:Hab; try discriminate;
    destruct (String.compare b c) eqn:Hbc; try discriminate; intros H1 H2.
  - apply String.compare_eq_iff in Hab, Hbc. subst.
    rewrite string_compare_refl. exact (IH _ _ H1 H2).
  - apply String.compare_eq_iff in Hab. subst. rewrite Hbc. reflexivity.
  - apply String.compare_eq_iff in Hbc. subst. rewrite Hab. reflexivity.
  - rewrite (string_compare_lt_trans _ _ _ Hab Hbc). reflexivity.
Qed.

(** The running minimum is one of the paths seen, and none of them comes
    before it. *)
Lemma path_min_fold cs : forall m seen,
  In m seen -> (forall q, In q seen -> Py.path_ltb q m = false) ->
  In (path_min m cs) (seen ++ cs) /\
  (forall q, In q (seen ++ cs) -> Py.path_ltb q (path_min m cs) = false).
Proof.
  unfold path_min.
  induction cs as [|p cs IH]; intros m seen Hin Hleast; simpl.
  - rewrite app_nil_r. split; assumption.
  - replace (seen ++ p :: cs) with ((seen ++ [p]) ++ cs)
      by (rewrite <- app_assoc; reflexivity).
    apply IH.
    + destruct (Py.path_ltb p m); apply in_or_app;
        [right; left; reflexivity | left; exact Hin].
    + intros q Hq. apply in_app_or in Hq.
      destruct (Py.path_ltb p m) eqn:Hpm.
      * destruct Hq as [Hq | [<- | []]]; [|apply path_ltb_irrefl].
        destruct (Py.path_ltb q p) eqn:Hqp; [|reflexivity].
        rewrite <- (Hleast q Hq). symmetry.
        exact (path_ltb_trans _ _ _ Hqp Hpm).
      * destruct Hq as [Hq | [<- | []]]; [exact (Hleast q Hq) | exact Hpm].
Qed.

(** X23. The music [_find_default_music] settles on is the least of the
    files found under [assets/music]: when it returns a path, the directory
    exists, the path is one of the candidates, no candidate sorts before
    it, and nothing on the disk or in the log has changed. *)
Theorem find_default_music_least (w : World) (st st' : State) (p : Path) :
  _find_default_music w st = (Ok (Some p), st') ->
  st' = st /\
  fs_exists (fs st) (music_root w) = true /\
  exists cs, music_candidates w (music_root w) = Ok cs /\
             In p cs /\
             (forall q, In q cs -> Py.path_ltb q p = false).
Proof.
  unfold _find_default_music, bind, path_exists, lift, ret, fs_exists.
  fold (music_root w).
  destruct (fs st (music_root w)); cbn [negb]; [|discriminate].
  destruct (music_candidates w (music_root w)) as [[|c cs]|e]; try discriminate.
  intro H. injection H as <- <-.
  split; [reflexivity|]. split; [reflexivity|].
  exists (c :: cs). split; [reflexivity|].
  apply (path_min_fold cs c [c]); [left; reflexivity|].
  intros q [<- | []]. apply path_ltb_irrefl.
Qed.

End DefaultMusic.

(** Of [soft/lullaby.mp3], [calm.mp3] and [calm/air.wav], the directory
    [calm] comes first. *)
Lemma find_default_music_least_witness :
  Audio._find_default_music Scenario.jukebox_world Example.start
    = (Ok (Some ["app"; "assets"; "music"; "calm"; "air.wav"]%string), Example.start) /\
  Py.path_ltb ["app"; "assets"; "music"; "calm.mp3"]%string
              ["app"; "assets"; "music"; "calm"; "air.wav"]%string = false.
Proof.
  assert (Hrun : Audio._find_default_music Scenario.jukebox_world Example.start
                 = (Ok (Some ["app"; "assets"; "music"; "calm"; "air.wav"]%string),
                    Example.start))
    by (vm_compute; reflexivity).
  split; [exact Hrun|].
  destruct (find_default_music_least _ _ _ _ Hrun) as (_ & _ & cs & Hcs & _ & Hleast).
  apply Hleast.
  vm_compute in Hcs. injection Hcs as <-.
  right. left. reflexivity.
Defined.

(** ** Tone words *)

Section Tone.

Import Emotion.

Lemma any_in_calm t :
  any_in calm_words t =
  (any_in ["somber"; "sad"; "melancholy"]%string t
   || any_in ["hopeful"; "warm"; "gentle"; "soft"]%string t)%bool.
Proof.
  unfold any_in, calm_words. cbn [existsb].
  rewrite !orb_false_r, !orb_assoc. reflexivity.
Qed.

(** X24. Inside a video ([0 <= idx < total]) [transition_for_segment]
    never answers ["hardcut"]: every segment gets ["fade"] when the tone,
    in any letter case, mentions "somber", and ["cross"] otherwise. *)
Theorem transition_for_segment_in_range (idx total : Z) (tone_arc : option string) :
  (0 <= idx < total)%Z ->
  transition_for_segment idx total tone_arc =
    (if Py.contains "somber" (Py.lower (or_empty tone_arc)) then "fade" else "cross")%string /\
  transition_for_segment idx total tone_arc <> "hardcut"%string.
Proof.
  intros [H0 Hlt]. unfold transition_for_segment.
  assert (H1 : (idx <? total)%Z = true) by (apply Z.ltb_lt; lia).
  assert (H2 : (2 * total <? idx)%Z = false) by (apply Z.ltb_ge; lia).
  rewrite H1, H2, andb_true_r, andb_false_r.
  destruct (Py.contains "somber" _); split; (reflexivity || discriminate).
Qed.

(** X25. [pick_music_subfolder] answers ["soft"] or ["upbeat"], and
    ["upbeat"] exactly when the tone, in any letter case, mentions a lively
    word and no calm word: a calm word wins over a lively one. *)
Theorem pick_music_subfolder_upbeat (tone_arc : option string) :
  let t := Py.lower (or_empty tone_arc) in
  (pick_music_subfolder tone_arc = "soft"%string \/
   pick_music_subfolder tone_arc = "upbeat"%string) /\
  (pick_music_subfolder tone_arc = "upbeat"%string <->
   any_in calm_words t = false /\ any_in lively_words t = true).
Proof.
  intro t. unfold pick_music_subfolder. fold t.
  rewrite any_in_calm. fold lively_words.
  destruct (any_in ["somber"; "sad"; "melancholy"]%string t);
    destruct (any_in ["hopeful"; "warm"; "gentle"; "soft"]%string t);
    destruct (any_in lively_words t); cbn [orb];
    (split; [auto | split; [intro H; try discriminate H; auto
                           | intros [H1 H2]; try discriminate; auto]]).
Qed.

End Tone.

(** The second of three segments of a tone that turns somber is faded. *)
Lemma transition_for_segment_in_range_witness :
  Emotion.transition_for_segment 1 3 (Some "Joyful, then Somber"%string) = "fade"%string /\
  Emotion.transition_for_segment 1 3 (Some "Joyful, then Somber"%string) <> "hardcut"%string.
Proof.
  destruct (transition_for_segment_in_range 1 3 (Some "Joyful, then Somber"%string))
    as [H1 H2]; [lia|].
  split; [rewrite H1; reflexivity | exact H2].
Defined.
